(** * Pulumi self-managed state backend and secrets-manager resolution

    A shallow embedding of

    - [pkg/backend/filestate/backend.go]  (the [localBackend]),
    - [pkg/cmd/pulumi/crypto.go]          ([getStackSecretsManager]),
    - the Pulumi-service secrets manager  (package [service]),

    together with the properties the design document states about them.

    Go values are modelled as the code has them: [string] for Go strings and
    the string-kinded types ([tokens.Name], [tokens.QName]), [list byte] for
    [[]byte], [option] for nilable pointers and for the [error] interface,
    records for structs.  Functions with effects run in a small monad that
    threads the state of the outside world, records every call made to a
    collaborator, and propagates panics. *)

From Stdlib Require Import String Ascii List ZArith Bool Lia.
From Stdlib.Strings Require Import Byte.
From Stdlib.Numbers Require DecimalString.
From stdpp Require Import base option list strings pretty gmap.
Import ListNotations.
Local Open Scope list_scope.
Local Open Scope string_scope.

Set Default Proof Using "Type".

(** ** Go errors *)

(** The codes of [gocloud.dev/gcerrors] that the backend looks at. *)
Inductive ErrorCode := OK | Unknown | NotFound | AlreadyExists.

#[global] Instance ErrorCode_eq_dec : EqDecision ErrorCode.
Proof. solve_decision. Defined.

(** An [error] value.  [errNew] is [errors.New] / [fmt.Errorf] without a
    wrapped cause, [errWrap p e] is [fmt.Errorf(p + ": %w", e)], [errCode] is an
    error of the blob driver carrying a [gcerrors] code. *)
Inductive error :=
| errNew (msg : string)
| errWrap (prefix : string) (cause : error)
| errCode (code : ErrorCode) (msg : string)
| StackAlreadyExistsError (StackName : string).

#[global] Instance error_eq_dec : EqDecision error.
Proof. solve_decision. Defined.

(** [gcerrors.Code]: [OK] for the nil error, the code of the first coded error
    in the chain of causes, [Unknown] if there is none. *)
Fixpoint error_Code (e : error) : ErrorCode :=
  match e with
  | errCode c _ => c
  | errWrap _ e' => error_Code e'
  | _ => Unknown
  end.

Definition gcerrors_Code (err : option error) : ErrorCode :=
  match err with
  | None => OK
  | Some e => error_Code e
  end.

(** ** The monad of effectful code *)

(** What running a piece of code yields: a value, or a panic. *)
Inductive outcome (A : Type) :=
| Returns (a : A)
| Panics (msg : string).
Arguments Returns {A} a.
Arguments Panics {A} msg.

Section Monad.
Context {W Ev : Type}.

(** The state threaded through: the outside world and the calls made to
    collaborators so far, oldest first. *)
Record St := mkSt { world : W; calls : list Ev }.

Definition M (A : Type) : Type := St -> outcome A * St.

Definition ret {A} (a : A) : M A := fun s => (Returns a, s).

Definition bind {A B} (m : M A) (k : A -> M B) : M B :=
  fun s =>
    match m s with
    | (Returns a, s') => k a s'
    | (Panics msg, s') => (Panics msg, s')
    end.

Definition panic {A} (msg : string) : M A := fun s => (Panics msg, s).

(** A call to a collaborator: it acts on the world, and the call is
    recorded, with what it gave back when [e] keeps it. *)
Definition call {A} (e : A -> Ev) (f : W -> A * W) : M A :=
  fun s =>
    let '(a, w') := f (world s) in
    (Returns a, {| world := w'; calls := (calls s ++ [e a])%list |}).

(** A call of which only the arguments are recorded. *)
Definition call_ {A} (e : Ev) (f : W -> A * W) : M A := call (fun _ => e) f.

(** [defer d; body]: [d] runs when [body] is left, by return or by panic. *)
Definition defer {A} (d : M unit) (body : M A) : M A :=
  fun s =>
    match body s with
    | (r, s') =>
        match d s' with
        | (Returns _, s'') => (r, s'')
        | (Panics msg, s'') => (Panics msg, s'')
        end
    end.

Definition run {A} (m : M A) (w : W) : outcome A * St :=
  m {| world := w; calls := [] |}.
End Monad.
Arguments St : clear implicits.
Arguments M : clear implicits.
Arguments mkSt {W Ev} world calls.

Declare Scope go_scope.
Delimit Scope go_scope with go.
Notation "'do' x <- m ;; k" := (bind m (fun x => k))
  (at level 100, x name, m at next level, k at level 200, right associativity) : go_scope.
Notation "'do' ' p <- m ;; k" := (bind m (fun x => match x with p => k end))
  (at level 100, p pattern, m at next level, k at level 200, right associativity) : go_scope.
Local Open Scope go_scope.

(** A Go result [(T, error)] whose value is read only when the error is nil. *)
Inductive result (A : Type) :=
| Ok (a : A)
| Err (e : error).
Arguments Ok {A} a.
Arguments Err {A} e.

(** [[]byte] and the two conversions between it and [string]. *)
Definition bytes : Type := list byte.
Definition bytes_of_string (s : string) : bytes := list_byte_of_string s.
Definition string_of_bytes (b : bytes) : string := string_of_list_byte b.

(** ** [workspace] and [secrets]: the types shared by the packages below *)

Module workspace.

(** [workspace.Project], of which the name is read. *)
Record Project := { Name : string }.

(** [workspace.ProjectStack], the per-stack configuration file
    ([Pulumi.<stack>.yaml]): the three fields that select the secrets provider,
    and the configuration itself. *)
Record ProjectStack := {
  SecretsProvider : string;
  EncryptedKey : string;
  EncryptionSalt : string;
  Config : list (string * string);
}.

#[global] Instance ProjectStack_eq_dec : EqDecision ProjectStack.
Proof. solve_decision. Defined.

End workspace.

Module secrets.

(** [client.StackIdentifier]. *)
Record StackIdentifier := { id_Owner : string; id_Project : string; id_Stack : string }.

(** [diag.Sink], as [diag.DefaultSink] makes it: where it writes, and how it
    colors. *)
Inductive Writer := io_Discard | os_Stdout | os_Stderr.
Inductive Colorization := colors_Always | colors_Never | colors_Raw.
Record Sink := { sink_stdout : Writer; sink_stderr : Writer; sink_Color : Colorization }.

Definition diag_DefaultSink (stdout stderr : Writer) (Color : Colorization) : Sink :=
  {| sink_stdout := stdout; sink_stderr := stderr; sink_Color := Color |}.

(** [client.Client], as [client.NewClient] makes it: the URL of the API, the
    access token and the diagnostics sink. *)
Record Client := { client_URL : string; apiToken : string; client_diag : Sink }.

(** [serviceSecretsManagerState]. *)
Record serviceSecretsManagerState := {
  st_URL : string;
  st_Owner : string;
  st_Project : string;
  st_Stack : string;
}.

(** [serviceCrypter]. *)
Record serviceCrypter := { c_client : Client; c_stack : StackIdentifier }.

(** The values of the interface [secrets.Manager] that occur: the service's
    manager, a manager made by another package (the cloud, passphrase and
    default ones), of which the type and the state are visible, and the
    caching manager of [pkg/resource/stack] around another manager. *)
Inductive Manager :=
| serviceSecretsManager (state : serviceSecretsManagerState) (crypter : serviceCrypter)
| externalManager (type : string) (state : string)
| cachingSecretsManager (manager : Manager).

End secrets.

(** ** [filestate]: the self-managed backend *)

Module filestate.

(** *** Data *)

Import workspace.

(** The two layouts of stacks in a bucket: the implementations of the
    [referenceStore] interface. *)
Inductive referenceStore := legacyReferenceStore | projectReferenceStore.

#[global] Instance referenceStore_eq_dec : EqDecision referenceStore.
Proof. solve_decision. Defined.

(** [localBackendReference].  The Go struct also points back to the backend
    that made it; here the backend is passed to the methods that read it, so
    that they see its state at the time of the call. *)
Record localBackendReference := {
  name : string;
  project : string;
  store : referenceStore;
}.

#[global] Instance localBackendReference_eq_dec : EqDecision localBackendReference.
Proof. solve_decision. Defined.

(** A value of the interface [backend.StackReference]: a reference of this
    backend, or one of another backend, of which only the fully qualified name
    is visible. *)
Inductive StackReference :=
| localRef (r : localBackendReference)
| foreignRef (fqn : string).

(** [backend.Stack], of which the backend reads the reference only. *)
Record Stack := { Ref : StackReference }.

(** [localBackend]; the bucket it owns lives in the world. *)
Record localBackend := {
  originalURL : string;
  url : string;
  lockID : string;
  gzip : bool;
  currentProject : option Project;
  b_store : referenceStore;
}.

(** [pulumiMeta], the layout manifest kept in [Pulumi.yaml]. *)
Record pulumiMeta := { Version : Z }.

(** A resource of a snapshot or of a checkpoint, of which the URN is read. *)
Record Resource := { URN : string }.

(** [deploy.Snapshot]. *)
Record Snapshot := { Resources : list Resource }.

(** [apitype.CheckpointV3]; [Latest] is a nilable pointer to a deployment. *)
Record CheckpointV3 := { chk_Stack : string; Latest : option Snapshot }.

(** An entry of a bucket listing ([blob.ListObject]). *)
Record ListObject := { Key : string; IsDir : bool }.

(** [apitype.UpdateKind]. *)
Inductive UpdateKind :=
| UpdateUpdate | PreviewUpdate | RefreshUpdate | DestroyUpdate
| ResourceImportUpdate
| otherUpdateKind (k : string).

(** [result.Result]: an error to report, or a bail. *)
Inductive Result :=
| FromError (e : error)
| Bail.

(** [backend.UpdateResult]. *)
Inductive UpdateResult := SucceededResult | FailedResult.

(** Stand-ins for values the backend only passes along: [deploy.Plan],
    [display.ResourceChanges], [config.Map] and [engine.Event]. *)
Definition Plan : Type := string.
Definition ResourceChanges : Type := list (string * Z).
Definition config_Map : Type := list (string * string).
Definition Event : Type := string.

(** [backend.UpdateInfo], the record appended to a stack's history. *)
Record UpdateInfo := {
  ui_Kind : UpdateKind;
  ui_StartTime : Z;
  ui_Message : string;
  ui_Environment : list (string * string);
  ui_Config : config_Map;
  ui_Result : UpdateResult;
  ui_EndTime : Z;
  ui_ResourceChanges : ResourceChanges;
}.

(** [display.Options], the fields that [apply] reads. *)
Inductive DisplayType := DisplayProgress | DisplayDiff | DisplayQuery | DisplayWatch.

Record DisplayOptions := {
  JSONDisplay : bool;
  Type_ : DisplayType;
  SuppressPermalink : bool;
}.

(** [backend.UpdateOperation], the fields that [apply] reads. *)
Record UpdateOperation := {
  op_Proj : Project;
  op_Message : string;
  op_Environment : list (string * string);
  op_Display : DisplayOptions;
  op_Imports : list string;
}.

(** [backend.ApplierOptions]. *)
Record ApplierOptions := { DryRun : bool; ShowLink : bool }.

(** The target of an update, as [newUpdate] prepares it. *)
Record Update := { target_Snapshot : option Snapshot; target_Config : config_Map }.

(** What an engine operation gives back: the plan, the changes, the result,
    and the events it sent on its channel, in order. *)
Record EngineOutcome := {
  eng_plan : option Plan;
  eng_changes : ResourceChanges;
  eng_res : option Result;
  eng_events : list Event;
}.

(** The engine's entry points that [apply] dispatches to. *)
Inductive EngineOp := engine_Update | engine_Import | engine_Refresh | engine_Destroy.

(** *** Calls to collaborators *)

(** Every call the backend makes to code outside [backend.go] (lock.go,
    state.go, store.go, the bucket, the engine, the workspace, the console),
    with its arguments. *)
Inductive Call :=
| cValidateReference (r : localBackendReference)
| cListReferences (s : referenceStore)
| cLock (r : StackReference)
| cUnlock (r : StackReference)
| cgetStack (r : localBackendReference)
| cgetCheckpoint (r : localBackendReference)
| csaveStack (r : localBackendReference) (snap : option Snapshot)
| cremoveStack (r : localBackendReference)
| cbackupTarget (file : string) (keepOriginal : bool)
| crenameHistory (old new : localBackendReference)
| caddToHistory (r : localBackendReference) (info : UpdateInfo)
| cbackupStack (r : localBackendReference)
| cnewUpdate (r : localBackendReference)
| cExists (key : string)
| cWriteAll (key : string) (data : string)
| cDelete (key : string)
| cSignedURL (key : string)
| clistBucket (dir : string)
| cDetectProjectPath
| cLoadProject (path : string)
| cuser_Current
| cfilepath_Abs (path : string)
| cPrefixedBucket (dir : string)
| cGoogleCredentialsMux
| cOpenBucket (u : string)
| censurePulumiMeta
| cNewV4
| cGetenv (var : string)
| cNow
| cengine (op : EngineOp) (dryRun : bool)
| cdisplayEvent (e : Event)
| ccallerEvent (e : Event)
| cPrintf (format : string) (args : list string)
| cWarningf (format : string) (args : list string).

#[global] Instance UpdateKind_eq_dec : EqDecision UpdateKind.
Proof. solve_decision. Defined.

(** What a call gave back. *)
Inductive Answer :=
| aUnit
| aError (err : option error)
| aRefs (r : result (list localBackendReference))
| aStack (r : result (option Snapshot * string))
| aCheckpoint (r : result CheckpointV3)
| aString (r : result string)
| aText (s : string)
| aBool (r : result bool)
| aObjects (r : result (list ListObject))
| aMeta (r : result pulumiMeta)
| aProject (r : result Project)
| aUpdate (r : result Update)
| aTime (t : Z)
| aEngine (o : EngineOutcome).

Class Reply (A : Type) := reply : A -> Answer.
#[global] Instance Reply_unit : Reply unit := fun _ => aUnit.
#[global] Instance Reply_error : Reply (option error) := aError.
#[global] Instance Reply_refs : Reply (result (list localBackendReference)) := aRefs.
#[global] Instance Reply_stack : Reply (result (option Snapshot * string)) := aStack.
#[global] Instance Reply_checkpoint : Reply (result CheckpointV3) := aCheckpoint.
#[global] Instance Reply_string : Reply (result string) := aString.
#[global] Instance Reply_text : Reply string := aText.
#[global] Instance Reply_bool : Reply (result bool) := aBool.
#[global] Instance Reply_objects : Reply (result (list ListObject)) := aObjects.
#[global] Instance Reply_meta : Reply (result pulumiMeta) := aMeta.
#[global] Instance Reply_project : Reply (result Project) := aProject.
#[global] Instance Reply_update : Reply (result Update) := aUpdate.
#[global] Instance Reply_time : Reply Z := aTime.
#[global] Instance Reply_engine : Reply EngineOutcome := aEngine.

(** An entry of the record of calls: the call and what it gave back. *)
Definition Entry : Type := Call * Answer.

(** The collaborators, over a world [W]: each acts on the world and gives
    back what the Go function returns. *)
Record Env (W : Type) := {
  (* store.go *)
  ValidateReference : localBackendReference -> W -> option error * W;
  ListReferences : referenceStore -> W -> result (list localBackendReference) * W;
  stackPath : localBackendReference -> string;
  (* lock.go *)
  Lock : localBackend -> StackReference -> W -> option error * W;
  Unlock : localBackend -> StackReference -> W -> unit * W;
  stackLockDir : string -> string;
  (* state.go *)
  getStack : localBackendReference -> W -> result (option Snapshot * string) * W;
  getCheckpoint : localBackendReference -> W -> result CheckpointV3 * W;
  saveStack : localBackendReference -> option Snapshot -> W -> result string * W;
  removeStack : localBackendReference -> W -> option error * W;
  backupTarget : string -> bool -> W -> string * W;
  renameHistory : localBackendReference -> localBackendReference -> W -> option error * W;
  addToHistory : localBackendReference -> UpdateInfo -> W -> option error * W;
  backupStack : localBackendReference -> W -> option error * W;
  newUpdate : localBackendReference -> UpdateOperation -> W -> result Update * W;
  (* the bucket *)
  bucket_Exists : string -> W -> result bool * W;
  bucket_WriteAll : string -> string -> W -> option error * W;
  bucket_Delete : string -> W -> option error * W;
  bucket_SignedURL : string -> W -> result string * W;
  listBucket : string -> W -> result (list ListObject) * W;
  (* meta.go *)
  ensurePulumiMeta : W -> result pulumiMeta * W;
  (* the workspace and the process *)
  DetectProjectPath : W -> result string * W;
  LoadProject : string -> W -> result Project * W;
  user_Current : W -> result string * W;
  filepath_Abs : string -> W -> result string * W;
  PrefixedBucket : string -> W -> unit * W;
  GoogleCredentialsMux : W -> option error * W;
  OpenBucket : string -> W -> option error * W;
  uuid_NewV4 : W -> result string * W;
  os_Getenv : string -> W -> string * W;
  time_Now : W -> Z * W;
  (* the engine and the console *)
  engine : EngineOp -> Update -> UpdateOperation -> bool -> W -> EngineOutcome * W;
  Printf : string -> list string -> W -> unit * W;
  Warningf : string -> list string -> W -> unit * W;
  (* pure helpers of other packages *)
  URN_Project : string -> string;
  edit_RenameStack : Snapshot -> string -> string -> result Snapshot;
  yaml_Marshal : pulumiMeta -> result string;
  url_Parse : string -> result (string * string);
  ValidBucketScheme : string -> bool;
  BucketSchemes : list string;
  IsTruthy : string -> bool;
  ActionLabel : UpdateKind -> bool -> string;
  Colorize : string -> string;
  strconv_Quote : string -> string;
  filepath_Join : string -> string -> string;
  filepath_ToSlash : string -> string;
  os_PathSeparator : string;
  gcsblob_Scheme : string;
  strings_TrimLeft : string -> string -> string;
  fileLink : string -> string -> string;
  colors_SpecHeadline : string;
  colors_Reset : string;
  colors_Underline : string;
  colors_BrightBlue : string;
}.

Arguments ValidateReference {W} _. Arguments ListReferences {W} _.
Arguments stackPath {W} _. Arguments Lock {W} _. Arguments Unlock {W} _.
Arguments stackLockDir {W} _. Arguments getStack {W} _.
Arguments getCheckpoint {W} _. Arguments saveStack {W} _.
Arguments removeStack {W} _. Arguments backupTarget {W} _.
Arguments renameHistory {W} _. Arguments addToHistory {W} _.
Arguments backupStack {W} _. Arguments newUpdate {W} _.
Arguments bucket_Exists {W} _. Arguments bucket_WriteAll {W} _.
Arguments bucket_Delete {W} _. Arguments bucket_SignedURL {W} _.
Arguments listBucket {W} _. Arguments ensurePulumiMeta {W} _.
Arguments DetectProjectPath {W} _. Arguments LoadProject {W} _.
Arguments user_Current {W} _. Arguments filepath_Abs {W} _.
Arguments PrefixedBucket {W} _. Arguments GoogleCredentialsMux {W} _.
Arguments OpenBucket {W} _. Arguments uuid_NewV4 {W} _.
Arguments os_Getenv {W} _. Arguments time_Now {W} _.
Arguments engine {W} _. Arguments Printf {W} _. Arguments Warningf {W} _.
Arguments URN_Project {W} _. Arguments edit_RenameStack {W} _.
Arguments yaml_Marshal {W} _. Arguments url_Parse {W} _.
Arguments ValidBucketScheme {W} _. Arguments BucketSchemes {W} _.
Arguments IsTruthy {W} _. Arguments ActionLabel {W} _.
Arguments Colorize {W} _. Arguments strconv_Quote {W} _.
Arguments filepath_Join {W} _. Arguments filepath_ToSlash {W} _.
Arguments os_PathSeparator {W} _. Arguments gcsblob_Scheme {W} _.
Arguments strings_TrimLeft {W} _. Arguments fileLink {W} _.
Arguments colors_SpecHeadline {W} _. Arguments colors_Reset {W} _.
Arguments colors_Underline {W} _. Arguments colors_BrightBlue {W} _.

(** *** The functions of [backend.go] *)

Definition PulumiFilestateGzipEnvVar : string := "PULUMI_SELF_MANAGED_STATE_GZIP".
Definition FilePathPrefix : string := "file://".

(** The line feed, and [strings.Join]. *)
Definition LF : string := String (ascii_of_nat 10) EmptyString.

Fixpoint strings_Join (elems : list string) (sep : string) : string :=
  match elems with
  | [] => ""
  | [x] => x
  | x :: rest => x ++ sep ++ strings_Join rest sep
  end.

Definition strings_HasPrefix (s pre : string) : bool := String.prefix pre s.

Definition strings_TrimPrefix (s pre : string) : string :=
  if strings_HasPrefix s pre
  then substring (String.length pre) (String.length s - String.length pre) s
  else s.

Definition strings_HasSuffix (s suf : string) : bool :=
  if decide (String.length suf <= String.length s)%nat
  then bool_decide
         (substring (String.length s - String.length suf) (String.length suf) s = suf)
  else false.

Definition localBackendReference_String (b : localBackend) (r : localBackendReference)
  : string :=
  (* If project is blank this is a legacy non-project scoped stack reference. *)
  if decide (project r = "") then name r
  else
    (* If the project names match, we can elide them. *)
    match currentProject b with
    | Some p =>
        if decide (project r = Name p) then name r
        else "organization/" ++ project r ++ "/" ++ name r
    | None => "organization/" ++ project r ++ "/" ++ name r
    end.

Definition localBackendReference_FullyQualifiedName (r : localBackendReference)
  : string :=
  if decide (project r = "") then name r
  else "organization/" ++ project r ++ "/" ++ name r.

(** The methods of the interface [backend.StackReference]. *)
Definition StackReference_String (b : localBackend) (ref : StackReference) : string :=
  match ref with
  | localRef r => localBackendReference_String b r
  | foreignRef fqn => fqn
  end.

Definition StackReference_FullyQualifiedName (ref : StackReference) : string :=
  match ref with
  | localRef r => localBackendReference_FullyQualifiedName r
  | foreignRef fqn => fqn
  end.

Definition SetCurrentProject (b : localBackend) (p : option Project) : localBackend :=
  {| originalURL := originalURL b; url := url b; lockID := lockID b;
     gzip := gzip b; currentProject := p; b_store := b_store b |}.

Definition set_store (b : localBackend) (s : referenceStore) : localBackend :=
  {| originalURL := originalURL b; url := url b; lockID := lockID b;
     gzip := gzip b; currentProject := currentProject b; b_store := s |}.

(** Modelled from the spec: [newReference] of store.go, which is not among
    the sources; "NewReference(project, name) -> Reference", the legacy
    variant's project being always empty. *)
Definition newReference (s : referenceStore) (proj nm : string) : localBackendReference :=
  match s with
  | legacyReferenceStore => {| name := nm; project := ""; store := s |}
  | projectReferenceStore => {| name := nm; project := proj; store := s |}
  end.

Section Backend.
Context {W : Type} (E : Env W).

Local Abbreviation M := (M W Entry).

Definition callE {A} `{Reply A} (c : Call) (f : W -> A * W) : M A :=
  call (fun a => (c, reply a)) f.

Definition IsFileStateBackendURL (urlstr : string) : bool :=
  match url_Parse E urlstr with
  | Err _ => false
  | Ok (scheme, _) => ValidBucketScheme E scheme
  end.

Definition massageBlobPath (path : string) : M (result string) :=
  if negb (strings_HasPrefix path FilePathPrefix) then
    (* Not a file:// path.  Keep this untouched. *)
    ret (Ok path)
  else
    let path := strings_TrimPrefix path FilePathPrefix in
    do r <- (if strings_HasPrefix path "~" then
               do usr <- callE cuser_Current (user_Current E);;
               match usr with
               | Err err =>
                   ret (Err (errWrap
                     "Could not determine current user to resolve `file://~` path." err))
               | Ok HomeDir =>
                   if decide (path = "~") then ret (Ok HomeDir)
                   else ret (Ok (filepath_Join E HomeDir
                                   (substring 2 (String.length path - 2) path)))
               end
             else ret (Ok path));;
    match r with
    | Err err => ret (Err err)
    | Ok path =>
        do r <- callE (cfilepath_Abs path) (filepath_Abs E path);;
        match r with
        | Err err =>
            ret (Err (errWrap "An IO error occurred while building the absolute path" err))
        | Ok path =>
            let path := filepath_ToSlash E path in
            let path :=
              if bool_decide (os_PathSeparator E <> "/") && negb (strings_HasPrefix path "/")
              then "/" ++ path else path in
            ret (Ok (FilePathPrefix ++ path))
        end
    end.

Definition mkBackend (originalURL u lockID : string) (gzipCompression : bool)
    (project : option Project) (s : referenceStore) : localBackend :=
  {| originalURL := originalURL; url := u; lockID := lockID;
     gzip := gzipCompression; currentProject := project; b_store := s |}.

Definition unsupportedVersion (v : Z) : error :=
  errNew ("state store unsupported: 'Pulumi.yaml' version (" ++ pretty v
          ++ ") is not supported by this version of the Pulumi CLI").

Fixpoint warnLegacy (refs : list localBackendReference) : M unit :=
  match refs with
  | [] => ret tt
  | ref :: rest =>
      do _ <- callE (cWarningf
                      "Found legacy stack file '%s', you should run 'pulumi state upgrade'"
                      [name ref])
                   (Warningf E
                      "Found legacy stack file '%s', you should run 'pulumi state upgrade'"
                      [name ref]);;
      warnLegacy rest
  end.

Definition New (originalURL : string) (project : option Project)
  : M (result localBackend) :=
  if negb (IsFileStateBackendURL originalURL) then
    ret (Err (errNew ("local URL " ++ originalURL
                      ++ " has an illegal prefix; expected one of: "
                      ++ strings_Join (BucketSchemes E) ", ")))
  else
  do r <- massageBlobPath originalURL;;
  match r with
  | Err err => ret (Err err)
  | Ok u =>
  match url_Parse E u with
  | Err err => ret (Err err)
  | Ok (p_Scheme, p_Path) =>
  (* for gcp we want to support additional credentials schemes *)
  do muxErr <- (if decide (p_Scheme = gcsblob_Scheme E)
                then callE cGoogleCredentialsMux (GoogleCredentialsMux E)
                else ret None);;
  match muxErr with
  | Some err => ret (Err err)
  | None =>
  do err <- callE (cOpenBucket u) (OpenBucket E u);;
  match err with
  | Some err => ret (Err (errWrap ("unable to open bucket " ++ u) err))
  | None =>
  do _ <- (if negb (strings_HasPrefix u FilePathPrefix) then
             let bucketSubDir := strings_TrimLeft E p_Path "/" in
             if decide (bucketSubDir <> "") then
               let bucketSubDir :=
                 if negb (strings_HasSuffix bucketSubDir "/")
                 then bucketSubDir ++ "/" else bucketSubDir in
               callE (cPrefixedBucket bucketSubDir) (PrefixedBucket E bucketSubDir)
             else ret tt
           else ret tt);;
  (* Check if there is a .pulumi/Pulumi.yaml file in the bucket *)
  do r <- callE censurePulumiMeta (ensurePulumiMeta E);;
  match r with
  | Err err => ret (Err err)
  | Ok pulumiState =>
  (* Allocate a unique lock ID for this backend instance. *)
  do r <- callE cNewV4 (uuid_NewV4 E);;
  match r with
  | Err err => ret (Err err)
  | Ok lockID =>
  do env <- callE (cGetenv PulumiFilestateGzipEnvVar)
                 (os_Getenv E PulumiFilestateGzipEnvVar);;
  let gzipCompression := IsTruthy E env in
  let backend := mkBackend originalURL u lockID gzipCompression project in
  match Version pulumiState with
  | 0%Z =>
      (* backend.store = &legacyReferenceStore{}; projectMode = false *)
      ret (Ok (backend legacyReferenceStore))
  | 1%Z =>
      (* backend.store = &projectReferenceStore{} *)
      (* If we're in project mode warn about any old stack files. *)
      do r <- callE (cListReferences legacyReferenceStore)
                   (ListReferences E legacyReferenceStore);;
      match r with
      | Err _ =>
          (* If there's an error listing don't fail, just don't print the warnings *)
          ret (Ok (backend projectReferenceStore))
      | Ok refs =>
          do _ <- warnLegacy refs;;
          ret (Ok (backend projectReferenceStore))
      end
  | v => ret (Err (unsupportedVersion v))
  end
  end end end end end end.

Definition getReference (b : localBackend) (ref : StackReference)
  : M (result localBackendReference) :=
  match ref with
  | foreignRef _ => ret (Err (errNew "bad stack reference type"))
  | localRef stackRef =>
      do err <- callE (cValidateReference stackRef) (ValidateReference E stackRef);;
      match err with
      | Some e => ret (Err e)
      | None => ret (Ok stackRef)
      end
  end.

Definition currentProjectContradictsWorkspace (stack : localBackendReference) : M bool :=
  if decide (project stack = "") then ret false
  else
    do r <- callE cDetectProjectPath (DetectProjectPath E);;
    match r with
    | Err _ => ret false
    | Ok projPath =>
        if decide (projPath = "") then ret false
        else
          do r <- callE (cLoadProject projPath) (LoadProject E projPath);;
          match r with
          | Err _ => ret false
          | Ok proj => ret (bool_decide (Name proj <> project stack))
          end
    end.

Definition RemoveStack (b : localBackend) (stack : Stack) (force : bool)
  : M (bool * option error) :=
  do r <- getReference b (Ref stack);;
  match r with
  | Err err => ret (false, Some err)
  | Ok localStackRef =>
      do err <- callE (cLock (localRef localStackRef)) (Lock E b (localRef localStackRef));;
      match err with
      | Some err => ret (false, Some err)
      | None =>
          defer (callE (cUnlock (localRef localStackRef))
                      (Unlock E b (localRef localStackRef)))
            (do r <- callE (cgetStack localStackRef) (getStack E localStackRef);;
             match r with
             | Err err => ret (false, Some err)
             | Ok (snapshot, _) =>
                 (* Don't remove stacks that still have resources. *)
                 if negb force
                    && match snapshot with
                       | Some snap => (0 <? length (Resources snap))%nat
                       | None => false
                       end
                 then ret (true, Some (errNew
                        "refusing to remove stack because it still contains resources"))
                 else
                   do err <- callE (cremoveStack localStackRef) (removeStack E localStackRef);;
                   ret (false, err)
             end)
      end
  end.

Definition renameStack (b : localBackend) (oldRef newRef : localBackendReference)
  : M (option error) :=
  do err <- callE (cLock (localRef oldRef)) (Lock E b (localRef oldRef));;
  match err with
  | Some err => ret (Some err)
  | None =>
      defer (callE (cUnlock (localRef oldRef)) (Unlock E b (localRef oldRef)))
        ((* Get the current state from the stack to be renamed. *)
         do r <- callE (cgetStack oldRef) (getStack E oldRef);;
         match r with
         | Err err => ret (Some err)
         | Ok (snap, _) =>
             (* Ensure the destination stack does not already exist. *)
             do r <- callE (cExists (stackPath E newRef)) (bucket_Exists E (stackPath E newRef));;
             match r with
             | Err err => ret (Some err)
             | Ok true =>
                 ret (Some (errNew ("a stack named "
                                    ++ localBackendReference_String b newRef
                                    ++ " already exists")))
             | Ok false =>
                 (* If we have a snapshot, we need to rename the URNs inside it. *)
                 match match snap with
                       | Some sn =>
                           match edit_RenameStack E sn (name newRef) "" with
                           | Ok sn' => Ok (Some sn')
                           | Err err => Err err
                           end
                       | None => Ok None
                       end
                 with
                 | Err err => ret (Some err)
                 | Ok snap =>
                     (* Now save the snapshot with a new name. *)
                     do r <- callE (csaveStack newRef snap) (saveStack E newRef snap);;
                     match r with
                     | Err err => ret (Some err)
                     | Ok _ =>
                         (* To remove the old stack, just make a backup of the file
                            and don't write out anything new. *)
                         let file := stackPath E oldRef in
                         do _ <- callE (cbackupTarget file false) (backupTarget E file false);;
                         (* And rename the history folder as well. *)
                         callE (crenameHistory oldRef newRef) (renameHistory E oldRef newRef)
                     end
                 end
             end
         end)
  end.

(** The project that [Upgrade] reads off a checkpoint: that of the URN of
    the first resource, empty when there is none. *)
Definition checkpointProject (chk : CheckpointV3) : string :=
  match Latest chk with
  | Some latest =>
      match Resources latest with
      | res :: _ => URN_Project E (URN res)
      | [] => ""
      end
  | None => ""
  end.

(** The loop of [Upgrade] over the old references. *)
Fixpoint Upgrade_loop (b : localBackend) (olds : list localBackendReference)
  : M (option error) :=
  match olds with
  | [] => ret None
  | old :: rest =>
      do r <- callE (cgetCheckpoint old) (getCheckpoint E old);;
      match r with
      | Err err => ret (Some err)
      | Ok chk =>
          (* Try and find the project name from _any_ resource URN *)
          let project := checkpointProject chk in
          if decide (project = "") then
            ret (Some (errNew ("no project found for stack "
                               ++ localBackendReference_String b old)))
          else
            let new := newReference projectReferenceStore project (name old) in
            do err <- renameStack b old new;;
            match err with
            | Some err =>
                ret (Some (errWrap ("upgrade stack " ++ localBackendReference_String b old
                                    ++ " to " ++ localBackendReference_String b new) err))
            | None => Upgrade_loop b rest
            end
      end
  end.

(** [Upgrade] assigns [b.store]: it gives back the backend besides the
    error. *)
Definition Upgrade (b : localBackend) : M (option error * localBackend) :=
  (* We don't use the existing b.store because this may already be a
     projectReferenceStore with new legacy files introduced to it accidentally. *)
  do r <- callE (cListReferences legacyReferenceStore)
               (ListReferences E legacyReferenceStore);;
  match r with
  | Err err => ret (Some (errWrap "read old references" err), b)
  | Ok olds =>
      do err <- Upgrade_loop b olds;;
      match err with
      | Some err => ret (Some err, b)
      | None =>
          match yaml_Marshal E {| Version := 1 |} with
          | Err _ => panic "Could not marshal filestate.pulumiState to yaml"
          | Ok pulumiYaml =>
              do err <- callE (cWriteAll "Pulumi.yaml" pulumiYaml)
                             (bucket_WriteAll E "Pulumi.yaml" pulumiYaml);;
              match err with
              | Some err => ret (Some (errWrap "could not write 'Pulumi.yaml'" err), b)
              | None => ret (None, set_store b projectReferenceStore)
              end
          end
      end
  end.

(** The loop of [CancelCurrentUpdate] over the listing of the lock
    directory. *)
Fixpoint CancelCurrentUpdate_loop (allFiles : list ListObject) : M (option error) :=
  match allFiles with
  | [] => ret None
  | file :: rest =>
      if IsDir file then CancelCurrentUpdate_loop rest
      else
        do err <- callE (cDelete (Key file)) (bucket_Delete E (Key file));;
        match err with
        | Some err =>
            (* Race condition, don't error if the file was delete between us
               calling list and now *)
            if decide (gcerrors_Code (Some err) = NotFound) then ret None
            else ret (Some err)
        | None => CancelCurrentUpdate_loop rest
        end
  end.

Definition CancelCurrentUpdate (b : localBackend) (stackRef : StackReference)
  : M (option error) :=
  (* Try to delete ALL the lock files *)
  let dir := stackLockDir E (StackReference_FullyQualifiedName stackRef) in
  do r <- callE (clistBucket dir) (listBucket E dir);;
  match r with
  | Err err =>
      (* Don't error if it just wasn't found *)
      if decide (gcerrors_Code (Some err) = NotFound) then ret None
      else ret (Some err)
  | Ok allFiles => CancelCurrentUpdate_loop allFiles
  end.

(** The goroutine of [apply] that pulls the events of the engine and sends
    each to the display and, when the caller gave a channel, to the caller.
    The engine's events are taken in the order it sent them; how the sends
    interleave with the engine's own work is not modelled. *)
Fixpoint forwardEvents (events : bool) (engineEvents : list Event) : M unit :=
  match engineEvents with
  | [] => ret tt
  | e :: rest =>
      do _ <- callE (cdisplayEvent e) (fun w => (tt, w));;
      (* If the caller also wants to see the events, stream them there also. *)
      do _ <- (if events then callE (ccallerEvent e) (fun w => (tt, w)) else ret tt);;
      forwardEvents events rest
  end.

(** The last part of [apply]: print a link to the stack's checkpoint. *)
Definition printPermalink (b : localBackend) (localStackRef : localBackendReference)
    (op : UpdateOperation) (opts : ApplierOptions) : M unit :=
  if negb (SuppressPermalink (op_Display op)) && ShowLink opts
     && negb (JSONDisplay (op_Display op))
  then
    do link <- (if strings_HasPrefix (url b) FilePathPrefix then
                  ret (fileLink E (url b) (stackPath E localStackRef))
                else
                  do r <- callE (cSignedURL (stackPath E localStackRef))
                               (bucket_SignedURL E (stackPath E localStackRef));;
                  match r with
                  | Ok link => ret link
                  | Err _ =>
                      (* we log a warning here rather then returning an error *)
                      do _ <- callE (cWarningf "Unable to create signed url" [])
                                   (Warningf E "Unable to create signed url" []);;
                      ret ""
                  end);;
    if decide (link <> "") then
      let format := Colorize E (colors_SpecHeadline E ++ "Permalink: "
                                ++ colors_Underline E ++ colors_BrightBlue E ++ "%s"
                                ++ colors_Reset E ++ LF) in
      callE (cPrintf format [link]) (Printf E format [link])
    else ret tt
  else ret tt.

(** [apply] actually performs the provided type of update on a locally
    hosted stack.  [events] says whether the caller gave a channel. *)
Definition apply (b : localBackend) (kind : UpdateKind) (stack : Stack)
    (op : UpdateOperation) (opts : ApplierOptions) (events : bool)
  : M (option Plan * ResourceChanges * option Result) :=
  let stackRef := Ref stack in
  do r <- getReference b stackRef;;
  match r with
  | Err err => ret (None, [], Some (FromError err))
  | Ok localStackRef =>
  do contradicts <- currentProjectContradictsWorkspace localStackRef;;
  if (contradicts : bool) then
    ret (None, [], Some (FromError (errNew
          ("provided project name " ++ strconv_Quote E (project localStackRef)
           ++ " doesn't match Pulumi.yaml"))))
  else
  let actionLabel := ActionLabel E kind (DryRun opts) in
  do _ <- (if negb (JSONDisplay (op_Display op)
                    || match Type_ (op_Display op) with DisplayWatch => true | _ => false end)
           then
             (* Print a banner so it's clear this is a local deployment. *)
             let format := Colorize E (colors_SpecHeadline E ++ "%s (%s):"
                                       ++ colors_Reset E ++ LF) in
             callE (cPrintf format [actionLabel; StackReference_String b stackRef])
                  (Printf E format [actionLabel; StackReference_String b stackRef])
           else ret tt);;
  (* Start the update. *)
  do r <- callE (cnewUpdate localStackRef) (newUpdate E localStackRef op);;
  match r with
  | Err err => ret (None, [], Some (FromError err))
  | Ok update =>
  (* Perform the update *)
  do start <- callE cNow (time_Now E);;
  do out <- match kind with
            | PreviewUpdate =>
                do o <- callE (cengine engine_Update true) (engine E engine_Update update op true);;
                ret (eng_plan o, o)
            | UpdateUpdate =>
                do o <- callE (cengine engine_Update (DryRun opts))
                             (engine E engine_Update update op (DryRun opts));;
                ret (None, o)
            | ResourceImportUpdate =>
                do o <- callE (cengine engine_Import (DryRun opts))
                             (engine E engine_Import update op (DryRun opts));;
                ret (None, o)
            | RefreshUpdate =>
                do o <- callE (cengine engine_Refresh (DryRun opts))
                             (engine E engine_Refresh update op (DryRun opts));;
                ret (None, o)
            | DestroyUpdate =>
                do o <- callE (cengine engine_Destroy (DryRun opts))
                             (engine E engine_Destroy update op (DryRun opts));;
                ret (None, o)
            | otherUpdateKind k => panic ("Unrecognized update kind: " ++ k)
            end;;
  let '(plan, o) := out in
  let changes := eng_changes o in
  let updateRes := eng_res o in
  do _ <- forwardEvents events (eng_events o);;
  do end_ <- callE cNow (time_Now E);;
  (* Save update results. *)
  let backendUpdateResult :=
    match updateRes with
    | Some _ => FailedResult
    | None => SucceededResult
    end in
  let info := {| ui_Kind := kind; ui_StartTime := start;
                 ui_Message := op_Message op; ui_Environment := op_Environment op;
                 ui_Config := target_Config update; ui_Result := backendUpdateResult;
                 ui_EndTime := end_; ui_ResourceChanges := changes |} in
  do errs <- (if negb (DryRun opts) then
                do saveErr <- callE (caddToHistory localStackRef info)
                                   (addToHistory E localStackRef info);;
                do backupErr <- callE (cbackupStack localStackRef)
                                     (backupStack E localStackRef);;
                ret (saveErr, backupErr)
              else ret (None, None));;
  let '(saveErr, backupErr) := errs in
  match updateRes with
  | Some res =>
      (* We swallow saveErr and backupErr as they are less important than the
         updateErr. *)
      ret (plan, changes, Some res)
  | None =>
  match saveErr with
  | Some saveErr =>
      (* We swallow backupErr as it is less important than the saveErr. *)
      ret (plan, changes, Some (FromError (errWrap "saving update info" saveErr)))
  | None =>
  match backupErr with
  | Some backupErr =>
      ret (plan, changes, Some (FromError (errWrap "saving backup" backupErr)))
  | None =>
      (* Make sure to print a link to the stack's checkpoint before exiting. *)
      do _ <- printPermalink b localStackRef op opts;;
      ret (plan, changes, None)
  end end end
  end
  end.

(** [Preview] goes straight to [apply], as a dry run. *)
Definition Preview (b : localBackend) (stack : Stack) (op : UpdateOperation)
  : M (option Plan * ResourceChanges * option Result) :=
  apply b PreviewUpdate stack op {| DryRun := true; ShowLink := true |} false.

End Backend.
End filestate.

(** ** [service]: the Pulumi-service secrets manager *)

Module service.
Import workspace secrets.

Definition Type_ : string := "service".

(** The calls the package makes to the service's client and to the
    workspace. *)
Inductive Call :=
| cEncryptValue (stack : StackIdentifier) (plaintext : bytes)
| cDecryptValue (stack : StackIdentifier) (ciphertext : bytes)
| cBulkDecryptValue (stack : StackIdentifier) (secrets : list bytes)
| cDetectProjectStackPath (stackName : string)
| cLoadProjectStack (project : Project) (path : string)
| cSaveProjectStack (stackName : string) (info : ProjectStack).

(** The collaborators: the HTTP client of the service, the workspace, and
    [encoding/base64]'s [StdEncoding]. *)
Record Env (W : Type) := {
  client_EncryptValue : Client -> StackIdentifier -> bytes -> W -> result bytes * W;
  client_DecryptValue : Client -> StackIdentifier -> bytes -> W -> result bytes * W;
  client_BulkDecryptValue :
    Client -> StackIdentifier -> list bytes -> W -> result (gmap string bytes) * W;
  DetectProjectStackPath : string -> W -> result (Project * string) * W;
  LoadProjectStack : Project -> string -> W -> result ProjectStack * W;
  SaveProjectStack : string -> ProjectStack -> W -> option error * W;
  EncodeToString : bytes -> string;
  DecodeString : string -> result bytes;
}.
Arguments client_EncryptValue {W} _. Arguments client_DecryptValue {W} _.
Arguments client_BulkDecryptValue {W} _. Arguments DetectProjectStackPath {W} _.
Arguments LoadProjectStack {W} _. Arguments SaveProjectStack {W} _.
Arguments EncodeToString {W} _. Arguments DecodeString {W} _.

(** A passphrase secrets provider has an encryption salt, a cloud secrets
    manager has an encryption key and a secrets provider: all of these are
    emptied.  The Go function updates [info] in place and says whether it
    changed; here the updated [info] is given back with the answer. *)
Definition changeProjectStackSecretDetails (info : ProjectStack) : bool * ProjectStack :=
  let requiresSave := false in
  let '(requiresSave, info) :=
    if decide (SecretsProvider info <> "") then
      (true, {| SecretsProvider := ""; EncryptedKey := EncryptedKey info;
                EncryptionSalt := EncryptionSalt info; Config := Config info |})
    else (requiresSave, info) in
  let '(requiresSave, info) :=
    if decide (EncryptedKey info <> "") then
      (true, {| SecretsProvider := SecretsProvider info; EncryptedKey := "";
                EncryptionSalt := EncryptionSalt info; Config := Config info |})
    else (requiresSave, info) in
  let '(requiresSave, info) :=
    if decide (EncryptionSalt info <> "") then
      (true, {| SecretsProvider := SecretsProvider info;
                EncryptedKey := EncryptedKey info;
                EncryptionSalt := ""; Config := Config info |})
    else (requiresSave, info) in
  (requiresSave, info).

Definition newServiceCrypter (client : Client) (stack : StackIdentifier) : serviceCrypter :=
  {| c_client := client; c_stack := stack |}.

Section Service.
Context {W : Type} (E : Env W).

Local Abbreviation M := (M W Call).

Definition EncryptValue (c : serviceCrypter) (plaintext : string) : M (string * option error) :=
  do r <- call_ (cEncryptValue (c_stack c) (bytes_of_string plaintext))
               (client_EncryptValue E (c_client c) (c_stack c) (bytes_of_string plaintext));;
  match r with
  | Err err => ret ("", Some err)
  | Ok ciphertext => ret (EncodeToString E ciphertext, None)
  end.

Definition DecryptValue (c : serviceCrypter) (cipherstring : string)
  : M (string * option error) :=
  match DecodeString E cipherstring with
  | Err err => ret ("", Some err)
  | Ok ciphertext =>
      do r <- call_ (cDecryptValue (c_stack c) ciphertext)
                   (client_DecryptValue E (c_client c) (c_stack c) ciphertext);;
      match r with
      | Err err => ret ("", Some err)
      | Ok plaintext => ret (string_of_bytes plaintext, None)
      end
  end.

(** The first loop of [BulkDecrypt]: decode the values in order, onto
    [secretsToDecrypt]; the first one that does not decode ends the loop with
    its error. *)
Fixpoint decodeSecrets (secretsToDecrypt : list bytes) (secrets : list string)
  : result (list bytes) :=
  match secrets with
  | [] => Ok secretsToDecrypt
  | val :: rest =>
      match DecodeString E val with
      | Err err => Err err
      | Ok ciphertext => decodeSecrets (secretsToDecrypt ++ [ciphertext])%list rest
      end
  end.

(** [BulkDecrypt] gives back a map, or nil with an error. *)
Definition BulkDecrypt (c : serviceCrypter) (secrets : list string)
  : M (option (gmap string string) * option error) :=
  match decodeSecrets [] secrets with
  | Err err => ret (None, Some err)
  | Ok secretsToDecrypt =>
      do r <- call_ (cBulkDecryptValue (c_stack c) secretsToDecrypt)
                   (client_BulkDecryptValue E (c_client c) (c_stack c) secretsToDecrypt);;
      match r with
      | Err err => ret (None, Some err)
      | Ok decryptedList =>
          ret (Some (string_of_bytes <$> decryptedList), None)
      end
  end.

Definition NewServiceSecretsManager (client : Client) (id : StackIdentifier)
    (stackName : string) (configFile : string) : M (result Manager) :=
  if decide (stackName = "") then panic "stackName != empty"
  else
  do r <- call_ (cDetectProjectStackPath stackName) (DetectProjectStackPath E stackName);;
  match r with
  | Err err => ret (Err err)
  | Ok (project, _) =>
  do r <- call_ (cLoadProjectStack project configFile)
               (LoadProjectStack E project configFile);;
  match r with
  | Err err => ret (Err err)
  | Ok info =>
  (* We should only save the ProjectStack at this point IF we have changed the
     secrets provider. *)
  let '(changed, info) := changeProjectStackSecretDetails info in
  do saveErr <- (if (changed : bool) then
                   call_ (cSaveProjectStack stackName info)
                        (SaveProjectStack E stackName info)
                 else ret None);;
  match saveErr with
  | Some err => ret (Err err)
  | None =>
      ret (Ok (serviceSecretsManager
                 {| st_URL := client_URL client; st_Owner := id_Owner id;
                    st_Project := id_Project id; st_Stack := id_Stack id |}
                 (newServiceCrypter client id)))
  end
  end
  end.

End Service.
End service.

(** ** [cmd/pulumi]: choosing a stack's secrets manager *)

Module crypto.
Import workspace secrets.

(** [backend.Stack], of which the name of the reference is read; which
    backend it belongs to decides its default secrets manager. *)
Record Stack := { Ref_Name : string; backendName : string }.

Inductive Call :=
| creadProject
| cloadProjectStack (project : Project) (s : Stack)
| cgetProjectStackPath (s : Stack)
| cNewCloudSecretsManager (stackName configFile secretsProvider : string)
    (rotateSecretsProvider : bool)
| cNewPromptingPassphraseSecretsManager (stackName configFile : string)
    (rotateSecretsProvider : bool)
| cDefaultSecretManager (s : Stack) (configFile : string).

(** The collaborators: the rest of the command-line package, and the
    constructors of the packages [cloud] and [passphrase]. *)
Record Env (W : Type) := {
  readProject : W -> result (Project * string) * W;
  loadProjectStack : Project -> Stack -> W -> result ProjectStack * W;
  getProjectStackPath : Stack -> W -> result string * W;
  NewCloudSecretsManager : string -> string -> string -> bool -> W -> result Manager * W;
  NewPromptingPassphraseSecretsManager : string -> string -> bool -> W -> result Manager * W;
  DefaultSecretManager : Stack -> string -> W -> result Manager * W;
  passphrase_Type : string;
}.
Arguments readProject {W} _. Arguments loadProjectStack {W} _.
Arguments getProjectStackPath {W} _. Arguments NewCloudSecretsManager {W} _.
Arguments NewPromptingPassphraseSecretsManager {W} _.
Arguments DefaultSecretManager {W} _. Arguments passphrase_Type {W} _.

(** [stack.NewCachingSecretsManager]. *)
Definition NewCachingSecretsManager (manager : Manager) : Manager :=
  cachingSecretsManager manager.

Section Crypto.
Context {W : Type} (E : Env W).

Local Abbreviation M := (M W Call).

Definition getStackSecretsManager (s : Stack) : M (result Manager) :=
  do r <- call_ creadProject (readProject E);;
  match r with
  | Err err => ret (Err err)
  | Ok (project, _) =>
  do r <- call_ (cloadProjectStack project s) (loadProjectStack E project s);;
  match r with
  | Err err => ret (Err err)
  | Ok ps =>
  do r <- (do r <- call_ (cgetProjectStackPath s) (getProjectStackPath E s);;
           match r with
           | Err err => ret (Err err)
           | Ok configFile =>
               if bool_decide (SecretsProvider ps <> passphrase_Type E)
                  && bool_decide (SecretsProvider ps <> "default")
                  && bool_decide (SecretsProvider ps <> "")
               then
                 call_ (cNewCloudSecretsManager (Ref_Name s) configFile
                         (SecretsProvider ps) false)
                      (NewCloudSecretsManager E (Ref_Name s) configFile
                         (SecretsProvider ps) false)
               else if bool_decide (EncryptionSalt ps <> "") then
                 call_ (cNewPromptingPassphraseSecretsManager (Ref_Name s) configFile false)
                      (NewPromptingPassphraseSecretsManager E (Ref_Name s) configFile false)
               else
                 call_ (cDefaultSecretManager s configFile)
                      (DefaultSecretManager E s configFile)
           end);;
  match r with
  | Err err => ret (Err err)
  | Ok sm => ret (Ok (NewCachingSecretsManager sm))
  end
  end
  end.

End Crypto.
End crypto.

(** ** [cmd/pulumi]: the kinds of secrets providers *)

Module crypto_validate.

(** [strings.SplitN s sep 2], for a separator that is not empty: [s] itself
    when [sep] does not occur in it, else what comes before the first [sep] and
    what comes after it. *)
Definition strings_SplitN2 (s sep : string) : list string :=
  match index 0 sep s with
  | Some i =>
      [substring 0 i s;
       substring (i + String.length sep) (String.length s - (i + String.length sep)) s]
  | None => [s]
  end.

Definition supportedKinds : list string :=
  ["default"; "passphrase"; "awskms"; "azurekeyvault"; "gcpkms"; "hashivault"].

(** The loop of [validateSecretsProvider] over the supported kinds: whether
    it returns nil. *)
Fixpoint isSupported (kind : string) (kinds : list string) : bool :=
  match kinds with
  | [] => false
  | supportedKind :: rest =>
      if decide (kind = supportedKind) then true else isSupported kind rest
  end.

Definition validateSecretsProvider (typ : string) : option error :=
  let kind := nth 0 (strings_SplitN2 typ ":") "" in
  if isSupported kind supportedKinds then None
  else Some (errNew ("unknown secrets provider type '" ++ kind
                     ++ "' (supported values: " ++ filestate.strings_Join supportedKinds ","
                     ++ ")")).

End crypto_validate.

(** ** [service]: a manager from its persisted state *)

Module service_state.
Import workspace secrets.

(** [workspace.Account], of which the token is read. *)
Record Account := { AccessToken : string }.

Inductive Call :=
| cGetAccount (key : string).

(** The collaborators: [json.Unmarshal] into a [serviceSecretsManagerState]
    and the credentials of the workspace. *)
Record Env (W : Type) := {
  json_Unmarshal : string -> result serviceSecretsManagerState;
  GetAccount : string -> W -> result Account * W;
}.
Arguments json_Unmarshal {W} _. Arguments GetAccount {W} _.

(** [client.NewClient]. *)
Definition NewClient (apiURL apiToken : string) (d : Sink) : Client :=
  {| client_URL := apiURL; apiToken := apiToken; client_diag := d |}.

Section State.
Context {W : Type} (E : Env W).

Local Abbreviation M := (M W Call).

(** [NewServiceSecretsManagerFromState] returns a Pulumi service-based
    secrets manager based on the existing state. *)
Definition NewServiceSecretsManagerFromState (state : string) : M (result Manager) :=
  match json_Unmarshal E state with
  | Err err => ret (Err (errWrap "unmarshalling state" err))
  | Ok s =>
      do r <- call_ (cGetAccount (st_URL s)) (GetAccount E (st_URL s));;
      match r with
      | Err err => ret (Err (errWrap "getting access token" err))
      | Ok account =>
          let token := AccessToken account in
          if decide (token = "") then
            ret (Err (errNew ("could not find access token for " ++ st_URL s
                              ++ ", have you logged in?")))
          else
            let id := {| id_Owner := st_Owner s; id_Project := st_Project s;
                         id_Stack := st_Stack s |} in
            let c := NewClient (st_URL s) token
                       (diag_DefaultSink io_Discard io_Discard colors_Never) in
            ret (Ok (serviceSecretsManager s (service.newServiceCrypter c id)))
      end
  end.

End State.

(** The methods [Type] and [State] of a manager of this package. *)
Definition Manager_Type (sm : Manager) : option string :=
  match sm with
  | serviceSecretsManager _ _ => Some service.Type_
  | _ => None
  end.

Definition Manager_State (sm : Manager) : option serviceSecretsManagerState :=
  match sm with
  | serviceSecretsManager state _ => Some state
  | _ => None
  end.

End service_state.

(** ** [filestate]: the operations on stacks *)

Module filestate_stacks.
Import workspace filestate.

(** The stack that [newStack] of stack.go makes. *)
Record localStack := {
  ls_ref : localBackendReference;
  ls_path : string;
  ls_snapshot : option Snapshot;
  ls_b : localBackend;
}.

Definition newStack (ref : localBackendReference) (path : string)
    (snapshot : option Snapshot) (b : localBackend) : localStack :=
  {| ls_ref := ref; ls_path := path; ls_snapshot := snapshot; ls_b := b |}.

(** The summary that [newLocalStackSummary] of stack.go makes. *)
Record localStackSummary := {
  sum_name : localBackendReference;
  sum_chk : CheckpointV3;
}.

Definition newLocalStackSummary (name : localBackendReference) (chk : CheckpointV3)
  : localStackSummary :=
  {| sum_name := name; sum_chk := chk |}.

(** [apitype.UntypedDeployment] and [apitype.VersionedCheckpoint]; the
    raw JSON is kept as a string. *)
Record UntypedDeployment := { ud_Version : Z; ud_Deployment : string }.
Record VersionedCheckpoint := { vc_Version : Z; vc_Checkpoint : string }.

(** *** With the collaborators of [filestate.Env] *)

Section Stacks.
Context {W : Type} (E : Env W).

Local Abbreviation M := (M W Entry).

Definition GetStack (b : localBackend) (stackRef : StackReference)
  : M (option localStack * option error) :=
  do r <- getReference E b stackRef;;
  match r with
  | Err err => ret (None, Some err)
  | Ok localStackRef =>
      do r <- callE (cgetStack localStackRef) (getStack E localStackRef);;
      let err := match r with Err err => Some err | Ok _ => None end in
      if decide (gcerrors_Code err = NotFound) then ret (None, None)
      else
        match r with
        | Err err => ret (None, Some err)
        | Ok (snapshot, path) => ret (Some (newStack localStackRef path snapshot b), None)
        end
  end.

Definition getLocalStacks (b : localBackend) : M (result (list localBackendReference)) :=
  callE (cListReferences (b_store b)) (ListReferences E (b_store b)).

(** The loop of [ListStacks] over the references, onto [results]. *)
Fixpoint ListStacks_loop (stacks : list localBackendReference)
    (results : list localStackSummary) : M (result (list localStackSummary)) :=
  match stacks with
  | [] => ret (Ok results)
  | stackRef :: rest =>
      do r <- callE (cgetCheckpoint stackRef) (getCheckpoint E stackRef);;
      match r with
      | Err err => ret (Err err)
      | Ok chk => ListStacks_loop rest (results ++ [newLocalStackSummary stackRef chk])
      end
  end.

(** [ListStacks]: the summaries, or nil and the error; the stack filter is
    not honored, and the continuation token given back is always nil. *)
Definition ListStacks (b : localBackend) : M (result (list localStackSummary)) :=
  do r <- getLocalStacks b;;
  match r with
  | Err err => ret (Err err)
  | Ok stacks => ListStacks_loop stacks []
  end.

(** [encoding.JSON.Marshal] of a deployment. *)
Variable JSON_Marshal : option Snapshot -> result string.

Definition ExportDeployment (b : localBackend) (stk : Stack)
  : M (result UntypedDeployment) :=
  do r <- getReference E b (Ref stk);;
  match r with
  | Err err => ret (Err err)
  | Ok localStackRef =>
      do r <- callE (cgetCheckpoint localStackRef) (getCheckpoint E localStackRef);;
      match r with
      | Err err => ret (Err (errWrap "failed to load checkpoint" err))
      | Ok chk =>
          match JSON_Marshal (Latest chk) with
          | Err err => ret (Err err)
          | Ok data => ret (Ok {| ud_Version := 3; ud_Deployment := data |})
          end
      end
  end.

(** [StacksDir] of the package, [objectName] of bucket.go and
    [tokens.IsName]. *)
Variable StacksDir : string.
Variable objectName : ListObject -> string.
Variable tokens_IsName : string -> bool.

(** The loop of [getLocalProjects] over the listing, onto [projects]. *)
Fixpoint getLocalProjects_loop (files : list ListObject) (projects : list string)
  : list string :=
  match files with
  | [] => projects
  | file :: rest =>
      (* Ignore files. *)
      if negb (IsDir file) then getLocalProjects_loop rest projects
      else
        (* Skip directories without valid names *)
        let objName := objectName file in
        if negb (tokens_IsName objName) then getLocalProjects_loop rest projects
        else getLocalProjects_loop rest (projects ++ [objName])
  end.

Definition getLocalProjects (b : localBackend) : M (result (list string)) :=
  do r <- callE (clistBucket StacksDir) (listBucket E StacksDir);;
  match r with
  | Err err => ret (Err (errWrap "error listing projects" err))
  | Ok files => ret (Ok (getLocalProjects_loop files []))
  end.

(** The loop of [DoesProjectExist] over the projects. *)
Fixpoint DoesProjectExist_loop (projects : list string) (projectName : string) : bool :=
  match projects with
  | [] => false
  | project :: rest =>
      if decide (project = projectName) then true
      else DoesProjectExist_loop rest projectName
  end.

Definition DoesProjectExist (b : localBackend) (projectName : string)
  : M (bool * option error) :=
  do r <- getLocalProjects b;;
  match r with
  | Err err => ret (false, Some err)
  | Ok projects => ret (DoesProjectExist_loop projects projectName, None)
  end.

End Stacks.

(** *** With further collaborators

    Calls to code outside [backend.go] that [filestate.Env] does not
    have. *)

(** [map[apitype.StackTagName]string]. *)
Definition Tags : Type := list (string * string).

(** Such a call, with what it gave back. *)
Inductive StackCall :=
| cParseReference (b : localBackend) (stackRef : string)
    (r : result localBackendReference)
| cGetEnvironmentTagsForCurrentStack (root : string) (project : option Project)
    (tags : Tags)
| cInfof (format : string) (args : list string)
| cgetHistory (r : localBackendReference) (pageSize page : Z)
    (updates : result (list UpdateInfo))
| csaveCheckpoint (r : localBackendReference) (chk : VersionedCheckpoint)
    (saved : result (string * string))
| cStoreAccount (key : string) (err : option error).

(** The record of calls now holds the entries of [filestate] and these. *)
Definition Event : Type := Entry + StackCall.

Record StackEnv (W : Type) := {
  (* store.go *)
  ParseReference : localBackend -> string -> W -> result localBackendReference * W;
  (* state.go *)
  getHistory : localBackendReference -> Z -> Z -> W -> result (list UpdateInfo) * W;
  saveCheckpoint :
    localBackendReference -> VersionedCheckpoint -> W -> result (string * string) * W;
  (* the workspace and the console *)
  GetEnvironmentTagsForCurrentStack : string -> option Project -> W -> Tags * W;
  StoreAccount : string -> W -> option error * W;
  Infof : string -> list string -> W -> unit * W;
  (* pure helpers of other packages *)
  QName_Name : string -> string;
  ValidateStackProperties : string -> Tags -> option error;
  MarshalUntypedDeploymentToVersionedCheckpoint :
    string -> UntypedDeployment -> result VersionedCheckpoint;
  ErrNoPreviousDeployment : error;
}.
Arguments ParseReference {W} _. Arguments getHistory {W} _.
Arguments saveCheckpoint {W} _. Arguments GetEnvironmentTagsForCurrentStack {W} _.
Arguments StoreAccount {W} _. Arguments Infof {W} _.
Arguments QName_Name {W} _. Arguments ValidateStackProperties {W} _.
Arguments MarshalUntypedDeploymentToVersionedCheckpoint {W} _.
Arguments ErrNoPreviousDeployment {W} _.

(** A function of [filestate] run here: it acts on the world, and the
    entries it records are added to the record. *)
Definition base {W A} (m : M W Entry A) : M W Event A :=
  fun s =>
    let r := m {| world := world s; calls := [] |} in
    (r.1, {| world := world r.2; calls := calls s ++ map inl (calls r.2) |}).

Definition callS {W A} (c : A -> StackCall) (f : W -> A * W) : M W Event A :=
  call (fun a => inr (c a)) f.

Section Operations.
Context {W : Type} (E : Env W) (S : StackEnv W).

Local Abbreviation M := (M W Event).

Definition parseStackReference (b : localBackend) (stackRef : string)
  : M (result localBackendReference) :=
  callS (cParseReference b stackRef) (ParseReference S b stackRef).

Definition RenameStack (b : localBackend) (stack : Stack) (newName : string)
  : M (result localBackendReference) :=
  do r <- base (getReference E b (Ref stack));;
  match r with
  | Err err => ret (Err err)
  | Ok localStackRef =>
      (* Ensure the new stack name is valid. *)
      do r <- parseStackReference b newName;;
      match r with
      | Err err => ret (Err err)
      | Ok newRef =>
          do err <- base (renameStack E b localStackRef newRef);;
          match err with
          | Some err => ret (Err err)
          | None => ret (Ok newRef)
          end
      end
  end.

(** [CreateStack]; [opts] says whether options were given. *)
Definition CreateStack (b : localBackend) (stackRef : StackReference) (root : string)
    (opts : bool) : M (result localStack) :=
  do r <- base (getReference E b stackRef);;
  match r with
  | Err err => ret (Err err)
  | Ok localStackRef =>
  do err <- base (callE (cLock stackRef) (Lock E b stackRef));;
  match err with
  | Some err => ret (Err err)
  | None =>
  defer (base (callE (cUnlock stackRef) (Unlock E b stackRef)))
    (do contradicts <- base (currentProjectContradictsWorkspace E localStackRef);;
     if (contradicts : bool) then
       ret (Err (errNew ("provided project name "
                         ++ strconv_Quote E (project localStackRef)
                         ++ " doesn't match Pulumi.yaml")))
     else
     if opts then panic "opts: local stacks do not support any options"
     else
     let stackName := localBackendReference_FullyQualifiedName localStackRef in
     if decide (stackName = "") then ret (Err (errNew "invalid empty stack name"))
     else
     do r <- base (callE (cgetStack localStackRef) (getStack E localStackRef));;
     match r with
     | Ok _ => ret (Err (StackAlreadyExistsError stackName))
     | Err _ =>
     do tags <- callS (cGetEnvironmentTagsForCurrentStack root (currentProject b))
                     (GetEnvironmentTagsForCurrentStack S root (currentProject b));;
     match ValidateStackProperties S (QName_Name S stackName) tags with
     | Some err => ret (Err (errWrap "validating stack properties" err))
     | None =>
     do r <- base (callE (csaveStack localStackRef None) (saveStack E localStackRef None));;
     match r with
     | Err err => ret (Err err)
     | Ok file =>
         let stack := newStack localStackRef file None b in
         do _ <- callS (fun _ => cInfof "Created stack '%s'"
                                   [localBackendReference_String b (ls_ref stack)])
                      (Infof S "Created stack '%s'"
                         [localBackendReference_String b (ls_ref stack)]);;
         ret (Ok stack)
     end
     end
     end)
  end
  end.

Definition GetHistory (b : localBackend) (stackRef : StackReference)
    (pageSize page : Z) : M (result (list UpdateInfo)) :=
  do r <- base (getReference E b stackRef);;
  match r with
  | Err err => ret (Err err)
  | Ok localStackRef =>
      do r <- callS (cgetHistory localStackRef pageSize page)
                   (getHistory S localStackRef pageSize page);;
      match r with
      | Err err => ret (Err err)
      | Ok updates => ret (Ok updates)
      end
  end.

Definition GetLatestConfiguration (b : localBackend) (stack : Stack)
  : M (result config_Map) :=
  do r <- GetHistory b (Ref stack) 1 (* pageSize *) 1 (* page *);;
  match r with
  | Err err => ret (Err err)
  | Ok hist =>
      match hist with
      | [] => ret (Err (ErrNoPreviousDeployment S))
      | first :: _ => ret (Ok (ui_Config first))
      end
  end.

Definition ImportDeployment (b : localBackend) (stk : Stack)
    (deployment : UntypedDeployment) : M (option error) :=
  do r <- base (getReference E b (Ref stk));;
  match r with
  | Err err => ret (Some err)
  | Ok localStackRef =>
      do err <- base (callE (cLock (localRef localStackRef))
                           (Lock E b (localRef localStackRef)));;
      match err with
      | Some err => ret (Some err)
      | None =>
          defer (base (callE (cUnlock (localRef localStackRef))
                             (Unlock E b (localRef localStackRef))))
            (let stackName := localBackendReference_FullyQualifiedName localStackRef in
             match MarshalUntypedDeploymentToVersionedCheckpoint S stackName deployment with
             | Err err => ret (Some err)
             | Ok chk =>
                 do r <- callS (csaveCheckpoint localStackRef chk)
                              (saveCheckpoint S localStackRef chk);;
                 match r with
                 | Err err => ret (Some err)
                 | Ok _ => ret None
                 end
             end)
      end
  end.

(** [Login]: the backend of [New] is given back with the error of
    [workspace.StoreAccount], if any. *)
Definition Login (url : string) (project : option Project)
  : M (option localBackend * option error) :=
  do r <- base (New E url project);;
  match r with
  | Err err => ret (None, Some err)
  | Ok be =>
      do err <- callS (cStoreAccount (originalURL be)) (StoreAccount S (originalURL be));;
      ret (Some be, err)
  end.

(** The type of [apply], as [backend.PreviewThenPromptThenExecute] and
    takes it. *)
Definition Applier : Type :=
  UpdateKind -> Stack -> UpdateOperation -> ApplierOptions -> bool ->
  M (option Plan * ResourceChanges * option Result).

Variable PreviewThenPromptThenExecute :
  UpdateKind -> Stack -> UpdateOperation -> Applier -> M (ResourceChanges * option Result).

Definition b_apply (b : localBackend) : Applier :=
  fun kind stack op opts events => base (apply E b kind stack op opts events).

Definition Update (b : localBackend) (stack : Stack) (op : UpdateOperation)
  : M (ResourceChanges * option Result) :=
  do err <- base (callE (cLock (Ref stack)) (Lock E b (Ref stack)));;
  match err with
  | Some err => ret ([], Some (FromError err))
  | None =>
      defer (base (callE (cUnlock (Ref stack)) (Unlock E b (Ref stack))))
        (PreviewThenPromptThenExecute UpdateUpdate stack op (b_apply b))
  end.

Definition Import (b : localBackend) (stack : Stack) (op : UpdateOperation)
    (imports : list string) : M (ResourceChanges * option Result) :=
  do err <- base (callE (cLock (Ref stack)) (Lock E b (Ref stack)));;
  match err with
  | Some err => ret ([], Some (FromError err))
  | None =>
      defer (base (callE (cUnlock (Ref stack)) (Unlock E b (Ref stack))))
        (let op := {| op_Proj := op_Proj op; op_Message := op_Message op;
                      op_Environment := op_Environment op; op_Display := op_Display op;
                      op_Imports := imports |} in
         PreviewThenPromptThenExecute ResourceImportUpdate stack op (b_apply b))
  end.

Definition Refresh (b : localBackend) (stack : Stack) (op : UpdateOperation)
  : M (ResourceChanges * option Result) :=
  do err <- base (callE (cLock (Ref stack)) (Lock E b (Ref stack)));;
  match err with
  | Some err => ret ([], Some (FromError err))
  | None =>
      defer (base (callE (cUnlock (Ref stack)) (Unlock E b (Ref stack))))
        (PreviewThenPromptThenExecute RefreshUpdate stack op (b_apply b))
  end.

Definition Destroy (b : localBackend) (stack : Stack) (op : UpdateOperation)
  : M (ResourceChanges * option Result) :=
  do err <- base (callE (cLock (Ref stack)) (Lock E b (Ref stack)));;
  match err with
  | Some err => ret ([], Some (FromError err))
  | None =>
      defer (base (callE (cUnlock (Ref stack)) (Unlock E b (Ref stack))))
        (PreviewThenPromptThenExecute DestroyUpdate stack op (b_apply b))
  end.

End Operations.

End filestate_stacks.

(** ** Instances of the collaborators

    Small, executable stand-ins for the code outside the sources, on which
    the functions above can be run. *)

Module instances.
Import workspace secrets.

(** *** [encoding/base64]'s [StdEncoding] *)

Definition alphabet : string :=
  "ABCDEFGHIJKLMNOPQRSTUVWXYZabcdefghijklmnopqrstuvwxyz0123456789+/".

Definition pad : ascii := ascii_of_nat 61.

Definition digit (n : N) : ascii :=
  match String.get (N.to_nat n) alphabet with
  | Some c => c
  | None => pad
  end.

Fixpoint index_of (c : ascii) (s : string) (i : N) : option N :=
  match s with
  | EmptyString => None
  | String c' s' => if Ascii.eqb c c' then Some i else index_of c s' (N.succ i)
  end.

Definition value (c : ascii) : option N := index_of c alphabet 0%N.

Definition byte_of (n : N) : byte :=
  match Byte.of_N (n mod 256) with
  | Some b => b
  | None => x00
  end.

Fixpoint encode (src : list byte) : string :=
  match src with
  | [] => ""
  | [a] =>
      let n := Byte.to_N a in
      String (digit (n / 4)) (String (digit ((n mod 4) * 16))
        (String pad (String pad "")))
  | [a; b] =>
      let n := (Byte.to_N a * 256 + Byte.to_N b)%N in
      String (digit (n / 1024)) (String (digit ((n / 16) mod 64))
        (String (digit ((n mod 16) * 4)) (String pad "")))
  | a :: b :: c :: rest =>
      let n := (Byte.to_N a * 65536 + Byte.to_N b * 256 + Byte.to_N c)%N in
      String (digit (n / 262144)) (String (digit ((n / 4096) mod 64))
        (String (digit ((n / 64) mod 64)) (String (digit (n mod 64)) (encode rest))))
  end.

(** The quanta of four characters; padding is accepted in the last one
    only. *)
Fixpoint decode_quanta (src : list ascii) : option (list byte) :=
  match src with
  | [] => Some []
  | a :: b :: c :: d :: rest =>
      match value a, value b, value c, value d with
      | Some va, Some vb, Some vc, Some vd =>
          let n := (va * 262144 + vb * 4096 + vc * 64 + vd)%N in
          match decode_quanta rest with
          | Some out =>
              Some (byte_of (n / 65536) :: byte_of (n / 256) :: byte_of n :: out)
          | None => None
          end
      | Some va, Some vb, Some vc, None =>
          if Ascii.eqb d pad && match rest with [] => true | _ => false end then
            let n := (va * 4096 + vb * 64 + vc)%N in
            Some [byte_of (n / 1024); byte_of (n / 4)]
          else None
      | Some va, Some vb, None, None =>
          if Ascii.eqb c pad && Ascii.eqb d pad
             && match rest with [] => true | _ => false end then
            Some [byte_of ((va * 64 + vb) / 16)]
          else None
      | _, _, _, _ => None
      end
  | _ => None
  end.

(** [DecodeString]: carriage returns and line feeds are skipped. *)
Definition decode (s : string) : result (list byte) :=
  let src := filter (fun c => negb (Ascii.eqb c (ascii_of_nat 10))
                              && negb (Ascii.eqb c (ascii_of_nat 13)))
                    (list_ascii_of_string s) in
  match decode_quanta src with
  | Some out => Ok out
  | None => Err (errNew "illegal base64 data")
  end.

(** *** The service and the workspace *)

(** The world of the service's package: the per-stack configuration files
    by path, and whether the service is reachable. *)
Record ServiceWorld := {
  files : gmap string ProjectStack;
  online : bool;
}.

Definition stackConfigPath (stackName : string) : string :=
  "Pulumi." ++ stackName ++ ".yaml".

(** The "encryption" of this stand-in for the service reverses the bytes. *)
Definition serviceEnv : service.Env ServiceWorld := {|
  service.client_EncryptValue := fun _ _ plaintext w =>
    if online w then (Ok (rev plaintext), w)
    else (Err (errNew "service unreachable"), w);
  service.client_DecryptValue := fun _ _ ciphertext w =>
    if online w then (Ok (rev ciphertext), w)
    else (Err (errNew "service unreachable"), w);
  service.client_BulkDecryptValue := fun _ _ secrets w =>
    if online w
    then (Ok (list_to_map (map (fun c => (encode c, rev c)) secrets)), w)
    else (Err (errNew "service unreachable"), w);
  service.DetectProjectStackPath := fun stackName w =>
    (Ok ({| Name := "infra" |}, stackConfigPath stackName), w);
  service.LoadProjectStack := fun _ path w =>
    match files w !! path with
    | Some info => (Ok info, w)
    | None => (Ok {| SecretsProvider := ""; EncryptedKey := "";
                     EncryptionSalt := ""; Config := [] |}, w)
    end;
  service.SaveProjectStack := fun stackName info w =>
    (None, {| files := <[stackConfigPath stackName := info]> (files w);
              online := online w |});
  service.EncodeToString := encode;
  service.DecodeString := decode;
|}.

(** *** The command line *)

(** The world of [getStackSecretsManager]: the stack's persisted
    configuration. *)
Definition cryptoEnv : crypto.Env ProjectStack := {|
  crypto.readProject := fun w => (Ok ({| Name := "infra" |}, "Pulumi.yaml"), w);
  crypto.loadProjectStack := fun _ _ w => (Ok w, w);
  crypto.getProjectStackPath := fun s w => (Ok (stackConfigPath (crypto.Ref_Name s)), w);
  crypto.NewCloudSecretsManager := fun _ _ secretsProvider _ w =>
    (Ok (externalManager "cloud" secretsProvider), w);
  crypto.NewPromptingPassphraseSecretsManager := fun _ configFile _ w =>
    (Ok (externalManager "passphrase" configFile), w);
  crypto.DefaultSecretManager := fun s _ w =>
    (Ok (externalManager "default" (crypto.backendName s)), w);
  crypto.passphrase_Type := "passphrase";
|}.

(** *** The bucket of the self-managed backend

    lock.go, state.go, store.go, meta.go and the bucket are not among the
    sources: what follows is modelled from the design document. *)

Import filestate.

(** Modelled from the spec: the objects of a bucket (section 3): raw bytes
    such as the layout manifest, a checkpoint, a history record, a lock
    marker, and a timestamped backup of another object.  A checkpoint is kept
    deserialized, with the reference it was saved under. *)
Inductive Object :=
| oBytes (data : string)
| oCheckpoint (ref : localBackendReference) (chk : CheckpointV3)
| oHistory (info : UpdateInfo)
| oLock (lockID : string)
| oBackup (stamp : Z) (original : Object).

(** Modelled from the spec: the bucket as "a uniform byte-addressable"
    key/value store, with the clock, what another process is about to delete
    (the keys in [racing] go right after our next listing), what the engine
    will report, and the project of the working directory. *)
Record BucketWorld := {
  objects : gmap string Object;
  clock : Z;
  racing : list string;
  engineOutcome : EngineOutcome;
  workspaceProject : option Project;
}.

Definition with_objects (w : BucketWorld) (m : gmap string Object) : BucketWorld :=
  {| objects := m; clock := clock w; racing := racing w;
     engineOutcome := engineOutcome w; workspaceProject := workspaceProject w |}.

(** Modelled from the spec: "Legacy variant: stack paths are
    stacks/<name>.json", "Versioned-project variant: stack paths are
    <project>/<name>.json". *)
Definition modelStackPath (r : localBackendReference) : string :=
  match store r with
  | legacyReferenceStore => "stacks/" ++ name r ++ ".json"
  | projectReferenceStore => project r ++ "/" ++ name r ++ ".json"
  end.

(** Modelled from the spec: the "path accessors for checkpoint/history/backup
    directories" and the "per-stack lock directory", whose shape the document
    leaves open. *)
Definition modelHistoryDir (r : localBackendReference) : string :=
  "history/" ++ localBackendReference_FullyQualifiedName r.

Definition modelBackupDir (r : localBackendReference) : string :=
  "backups/" ++ localBackendReference_FullyQualifiedName r.

Definition modelLockDir (fqn : string) : string := "locks/" ++ fqn.

Definition modelLockPath (b : localBackend) (ref : StackReference) : string :=
  modelLockDir (StackReference_FullyQualifiedName ref) ++ "/" ++ lockID b ++ ".json".

(** The keys of a bucket under a directory, with their objects. *)
Definition under (dir : string) (m : gmap string Object) : list (string * Object) :=
  filter (fun '(k, _) => strings_HasPrefix k (dir ++ "/")) (map_to_list m).

Definition hasSlash (s : string) : bool :=
  match index 0 "/" s with Some _ => true | None => false end.

(** Modelled from the spec: "List(prefix) -> sequence of {key, isDir}"; a
    directory with nothing under it is reported as not found; the keys of
    [racing] are deleted by another process once the listing is made. *)
Definition modelListBucket (dir : string) (w : BucketWorld)
  : result (list ListObject) * BucketWorld :=
  let entries := under dir (objects w) in
  let w' := {| objects := foldr delete (objects w) (racing w); clock := clock w;
               racing := []; engineOutcome := engineOutcome w;
               workspaceProject := workspaceProject w |} in
  match entries with
  | [] => (Err (errCode NotFound ("no such directory: " ++ dir)), w')
  | _ =>
      (Ok (map (fun '(k, _) =>
                  {| Key := k;
                     IsDir := hasSlash (strings_TrimPrefix k (dir ++ "/")) |})
               entries), w')
  end.

(** Modelled from the spec: "Delete(key) -> ok | NotFound". *)
Definition modelDelete (key : string) (w : BucketWorld) : option error * BucketWorld :=
  match objects w !! key with
  | Some _ => (None, with_objects w (delete key (objects w)))
  | None => (Some (errCode NotFound ("no such object: " ++ key)), w)
  end.

(** Modelled from the spec: "Exists(key) -> bool" and "WriteAll(key, bytes,
    opts)". *)
Definition modelExists (key : string) (w : BucketWorld) : result bool * BucketWorld :=
  (Ok (bool_decide (is_Some (objects w !! key))), w).

Definition modelWriteAll (key data : string) (w : BucketWorld)
  : option error * BucketWorld :=
  (None, with_objects w (<[key := oBytes data]> (objects w))).

(** Modelled from the spec: [ListReferences] of store.go: the stacks stored
    under a layout, that is the checkpoints found at the path of their own
    reference. *)
Definition listedAt (s : referenceStore) (entry : string * Object)
  : option localBackendReference :=
  match entry.2 with
  | oCheckpoint r _ =>
      if decide (store r = s /\ entry.1 = modelStackPath r) then Some r else None
  | _ => None
  end.

Definition listed (s : referenceStore) (m : gmap string Object)
  : list localBackendReference :=
  omap (listedAt s) (map_to_list m).

Definition modelListReferences (s : referenceStore) (w : BucketWorld)
  : result (list localBackendReference) * BucketWorld :=
  (Ok (listed s (objects w)), w).

(** Modelled from the spec: "ValidateReference(ref) -> ok | error": the name
    is not empty, and the project is empty exactly under the legacy layout. *)
Definition modelValidateReference (r : localBackendReference) (w : BucketWorld)
  : option error * BucketWorld :=
  if decide (name r = "") then (Some (errNew "invalid empty stack name"), w)
  else
    match store r with
    | legacyReferenceStore =>
        if decide (project r = "") then (None, w)
        else (Some (errNew "a legacy stack has no project"), w)
    | projectReferenceStore =>
        if decide (project r = "") then (Some (errNew "a stack needs a project"), w)
        else (None, w)
    end.

(** Modelled from the spec: [Lock] and [Unlock] of lock.go (section 4.3):
    "write a marker object named with a process-unique id into the stack's lock
    directory; conditional on the directory being empty -- if any marker (from
    any process) already exists, fail with a Locked error naming the stack";
    "delete only the marker this process created". *)
Definition modelLock (b : localBackend) (ref : StackReference) (w : BucketWorld)
  : option error * BucketWorld :=
  match under (modelLockDir (StackReference_FullyQualifiedName ref)) (objects w) with
  | [] => (None, with_objects w (<[modelLockPath b ref := oLock (lockID b)]> (objects w)))
  | _ => (Some (errNew ("the stack is currently locked: "
                        ++ StackReference_FullyQualifiedName ref)), w)
  end.

Definition modelUnlock (b : localBackend) (ref : StackReference) (w : BucketWorld)
  : unit * BucketWorld :=
  (tt, with_objects w (delete (modelLockPath b ref) (objects w))).

(** Modelled from the spec: [getCheckpoint] and [getStack] of state.go:
    "GetCheckpoint(ref) -> Checkpoint | NotFound: read and deserialize". *)
Definition modelGetCheckpoint (r : localBackendReference) (w : BucketWorld)
  : result CheckpointV3 * BucketWorld :=
  match objects w !! modelStackPath r with
  | Some (oCheckpoint _ chk) => (Ok chk, w)
  | Some _ => (Err (errNew "unmarshalling checkpoint"), w)
  | None => (Err (errCode NotFound ("no such object: " ++ modelStackPath r)), w)
  end.

Definition modelGetStack (r : localBackendReference) (w : BucketWorld)
  : result (option Snapshot * string) * BucketWorld :=
  match modelGetCheckpoint r w with
  | (Ok chk, w') => (Ok (Latest chk, modelStackPath r), w')
  | (Err err, w') => (Err (errWrap "failed to load checkpoint" err), w')
  end.

(** Modelled from the spec: [backupTarget] of state.go: "a timestamped copy
    of a checkpoint or a removed stack file"; the original goes unless it is to
    be kept ("the object is moved to backup, not hard-deleted"). *)
Definition modelBackupTarget (file : string) (keepOriginal : bool) (w : BucketWorld)
  : string * BucketWorld :=
  let bck := file ++ "." ++ pretty (clock w) ++ ".bak" in
  match objects w !! file with
  | Some o =>
      let m := <[bck := oBackup (clock w) o]> (objects w) in
      (bck, with_objects w (if keepOriginal then m else delete file m))
  | None => (bck, w)
  end.

(** Modelled from the spec: [saveStack] of state.go: "SaveCheckpoint(ref,
    checkpoint) -> path: serialize and write, after first copying the existing
    object at that path to a timestamped backup path (skipped if no prior
    object exists)". *)
Definition modelSaveStack (r : localBackendReference) (snap : option Snapshot)
    (w : BucketWorld) : result string * BucketWorld :=
  let file := modelStackPath r in
  let w1 := (modelBackupTarget file true w).2 in
  let chk := {| chk_Stack := localBackendReference_FullyQualifiedName r;
                Latest := snap |} in
  (Ok file, with_objects w1 (<[file := oCheckpoint r chk]> (objects w1))).

Definition isHistory (o : Object) : bool :=
  match o with oHistory _ => true | _ => false end.

(** Modelled from the spec: [renameHistory] of state.go: "relocates the
    history directory". *)
Definition modelRenameHistory (old new : localBackendReference) (w : BucketWorld)
  : option error * BucketWorld :=
  let moved := filter (fun '(_, o) => isHistory o) (under (modelHistoryDir old) (objects w)) in
  (None,
   with_objects w
     (foldr (fun '(k, o) m =>
               <[modelHistoryDir new ++ "/"
                 ++ strings_TrimPrefix k (modelHistoryDir old ++ "/") := o]>
                 (delete k m))
            (objects w) moved)).

(** Modelled from the spec: [removeStack] of state.go: "backs up (rather than
    hard-deletes) the checkpoint object", and drops the history. *)
Definition modelRemoveStack (r : localBackendReference) (w : BucketWorld)
  : option error * BucketWorld :=
  let w1 := (modelBackupTarget (modelStackPath r) false w).2 in
  (None,
   with_objects w1 (foldr (fun '(k, _) m => delete k m) (objects w1)
                          (under (modelHistoryDir r) (objects w1)))).

(** Modelled from the spec: [addToHistory] and [backupStack] of state.go:
    "append-only write of a new history object under the stack's history path,
    named to preserve chronological listing order", and a timestamped copy of
    the checkpoint. *)
Definition modelAddToHistory (r : localBackendReference) (info : UpdateInfo)
    (w : BucketWorld) : option error * BucketWorld :=
  (None,
   with_objects w
     (<[modelHistoryDir r ++ "/" ++ name r ++ "-" ++ pretty (clock w) ++ ".history.json"
        := oHistory info]> (objects w))).

Definition modelBackupStack (r : localBackendReference) (w : BucketWorld)
  : option error * BucketWorld :=
  match objects w !! modelStackPath r with
  | Some o =>
      (None,
       with_objects w
         (<[modelBackupDir r ++ "/" ++ name r ++ "." ++ pretty (clock w) ++ ".json"
            := oBackup (clock w) o]> (objects w)))
  | None => (Some (errCode NotFound ("no such object: " ++ modelStackPath r)), w)
  end.

Definition modelNewUpdate (r : localBackendReference) (op : UpdateOperation)
    (w : BucketWorld) : result Update * BucketWorld :=
  match modelGetStack r w with
  | (Ok (snap, _), w') => (Ok {| target_Snapshot := snap; target_Config := [] |}, w')
  | (Err err, w') => (Err err, w')
  end.

(** The manifest as YAML, and back. *)
Definition modelMarshal (m : pulumiMeta) : result string :=
  Ok ("version: " ++ pretty (Version m) ++ LF).

Definition modelUnmarshal (data : string) : result pulumiMeta :=
  if strings_HasPrefix data "version: " && strings_HasSuffix data LF then
    let digits := substring 9 (String.length data - 10) data in
    match DecimalString.NilZero.int_of_string digits with
    | Some d => Ok {| Version := Z.of_int d |}
    | None => Err (errNew "could not unmarshal 'Pulumi.yaml'")
    end
  else Err (errNew "could not unmarshal 'Pulumi.yaml'").

(** Modelled from the spec: [ensurePulumiMeta] of meta.go: the manifest is
    "a single YAML document at bucket root, schema {version: int}.  Version 0
    implies legacy layout (also implied by the manifest being entirely
    absent)". *)
Definition modelEnsurePulumiMeta (w : BucketWorld) : result pulumiMeta * BucketWorld :=
  match objects w !! "Pulumi.yaml" with
  | None => (Ok {| Version := 0 |}, w)
  | Some (oBytes data) => (modelUnmarshal data, w)
  | Some _ => (Err (errNew "could not unmarshal 'Pulumi.yaml'"), w)
  end.

(** The parts of a string between the occurrences of a separator. *)
Fixpoint splitOn (sep : string) (skip : nat) (part s : string) : list string :=
  match s with
  | EmptyString => [part]
  | String c s' =>
      match skip with
      | S skip' => splitOn sep skip' part s'
      | O =>
          if String.prefix sep s && negb (String.eqb sep "")
          then part :: splitOn sep (String.length sep - 1) "" s'
          else splitOn sep 0 (part ++ String c "") s'
      end
  end.

(** A URN reads [urn:pulumi:<stack>::<project>::<type>::<name>]. *)
Definition modelURNProject (urn : string) : string :=
  match splitOn "::" 0 "" urn with
  | _ :: proj :: _ => proj
  | _ => ""
  end.

Definition modelRenameURN (newName : string) (res : Resource) : Resource :=
  match splitOn "::" 0 "" (URN res) with
  | _ :: rest => {| URN := strings_Join (("urn:pulumi:" ++ newName) :: rest) "::" |}
  | [] => res
  end.

Definition modelURLParse (u : string) : result (string * string) :=
  match splitOn "://" 0 "" u with
  | [scheme; rest] =>
      match index 0 "/" rest with
      | Some i => Ok (scheme, substring i (String.length rest - i) rest)
      | None => Ok (scheme, "")
      end
  | _ => Ok ("", u)
  end.

Fixpoint modelTrimLeft (s cutset : string) : string :=
  match s with
  | String c s' =>
      match index 0 (String c "") cutset with
      | Some _ => modelTrimLeft s' cutset
      | None => s
      end
  | EmptyString => s
  end.

Definition modelActionLabel (kind : UpdateKind) (dryRun : bool) : string :=
  match kind, dryRun with
  | UpdateUpdate, true | PreviewUpdate, _ => "Previewing update"
  | UpdateUpdate, false => "Updating"
  | RefreshUpdate, true => "Previewing refresh"
  | RefreshUpdate, false => "Refreshing"
  | DestroyUpdate, true => "Previewing destroy"
  | DestroyUpdate, false => "Destroying"
  | ResourceImportUpdate, true => "Previewing import"
  | ResourceImportUpdate, false => "Importing"
  | otherUpdateKind k, _ => k
  end.

Definition tick (w : BucketWorld) : Z * BucketWorld :=
  (clock w,
   {| objects := objects w; clock := clock w + 1; racing := racing w;
      engineOutcome := engineOutcome w; workspaceProject := workspaceProject w |}).

Definition bucketEnv : filestate.Env BucketWorld := {|
  ValidateReference := modelValidateReference;
  ListReferences := modelListReferences;
  stackPath := modelStackPath;
  Lock := modelLock;
  Unlock := modelUnlock;
  stackLockDir := modelLockDir;
  getStack := modelGetStack;
  getCheckpoint := modelGetCheckpoint;
  saveStack := modelSaveStack;
  removeStack := modelRemoveStack;
  backupTarget := modelBackupTarget;
  renameHistory := modelRenameHistory;
  addToHistory := modelAddToHistory;
  backupStack := modelBackupStack;
  newUpdate := modelNewUpdate;
  bucket_Exists := modelExists;
  bucket_WriteAll := modelWriteAll;
  bucket_Delete := modelDelete;
  bucket_SignedURL := fun key w => (Err (errNew "signed URLs are not supported"), w);
  listBucket := modelListBucket;
  ensurePulumiMeta := modelEnsurePulumiMeta;
  DetectProjectPath := fun w =>
    (Ok match workspaceProject w with Some _ => "Pulumi.yaml" | None => "" end, w);
  LoadProject := fun _ w =>
    (match workspaceProject w with
     | Some p => Ok p
     | None => Err (errNew "no project file")
     end, w);
  user_Current := fun w => (Ok "/home/operator", w);
  filepath_Abs := fun path w =>
    (Ok (if strings_HasPrefix path "/" then path else "/work/" ++ path), w);
  PrefixedBucket := fun _ w => (tt, w);
  GoogleCredentialsMux := fun w => (None, w);
  OpenBucket := fun _ w => (None, w);
  uuid_NewV4 := fun w => (Ok ("7c9e6679-" ++ pretty (clock w)), (tick w).2);
  os_Getenv := fun _ w => ("", w);
  time_Now := tick;
  engine := fun _ _ _ _ w => (engineOutcome w, w);
  Printf := fun _ _ w => (tt, w);
  Warningf := fun _ _ w => (tt, w);
  URN_Project := modelURNProject;
  edit_RenameStack := fun snap newName _ =>
    Ok {| Resources := map (modelRenameURN newName) (Resources snap) |};
  yaml_Marshal := modelMarshal;
  url_Parse := modelURLParse;
  ValidBucketScheme := fun scheme =>
    bool_decide (scheme ∈ ["azblob"; "file"; "gs"; "s3"]);
  BucketSchemes := ["azblob"; "file"; "gs"; "s3"];
  IsTruthy := fun v => bool_decide (v = "1" \/ v = "true");
  ActionLabel := modelActionLabel;
  Colorize := fun text => text;
  strconv_Quote := fun v => String (ascii_of_nat 34) (v ++ String (ascii_of_nat 34) "");
  filepath_Join := fun dir file => dir ++ "/" ++ file;
  filepath_ToSlash := fun path => path;
  os_PathSeparator := "/";
  gcsblob_Scheme := "gs";
  strings_TrimLeft := modelTrimLeft;
  fileLink := fun u path => u ++ "/" ++ path;
  colors_SpecHeadline := "<{%bold}>";
  colors_Reset := "<{%reset}>";
  colors_Underline := "<{%underline}>";
  colors_BrightBlue := "<{%fg 12}>";
|}.

(** Modelled from the spec: the same bucket under a retention policy, where
    the file of a stack cannot be deleted: [backupTarget] makes its "timestamped
    copy", the deletion of the original fails, and [backupTarget], which returns
    the path of the backup only, gives no sign of it. *)
Definition retainingEnv : filestate.Env BucketWorld := {|
  ValidateReference := ValidateReference bucketEnv;
  ListReferences := ListReferences bucketEnv;
  stackPath := stackPath bucketEnv;
  Lock := Lock bucketEnv;
  Unlock := Unlock bucketEnv;
  stackLockDir := stackLockDir bucketEnv;
  getStack := getStack bucketEnv;
  getCheckpoint := getCheckpoint bucketEnv;
  saveStack := saveStack bucketEnv;
  removeStack := removeStack bucketEnv;
  backupTarget := fun file _ w => modelBackupTarget file true w;
  renameHistory := renameHistory bucketEnv;
  addToHistory := addToHistory bucketEnv;
  backupStack := backupStack bucketEnv;
  newUpdate := newUpdate bucketEnv;
  bucket_Exists := bucket_Exists bucketEnv;
  bucket_WriteAll := bucket_WriteAll bucketEnv;
  bucket_Delete := bucket_Delete bucketEnv;
  bucket_SignedURL := bucket_SignedURL bucketEnv;
  listBucket := listBucket bucketEnv;
  ensurePulumiMeta := ensurePulumiMeta bucketEnv;
  DetectProjectPath := DetectProjectPath bucketEnv;
  LoadProject := LoadProject bucketEnv;
  user_Current := user_Current bucketEnv;
  filepath_Abs := filepath_Abs bucketEnv;
  PrefixedBucket := PrefixedBucket bucketEnv;
  GoogleCredentialsMux := GoogleCredentialsMux bucketEnv;
  OpenBucket := OpenBucket bucketEnv;
  uuid_NewV4 := uuid_NewV4 bucketEnv;
  os_Getenv := os_Getenv bucketEnv;
  time_Now := time_Now bucketEnv;
  engine := engine bucketEnv;
  Printf := Printf bucketEnv;
  Warningf := Warningf bucketEnv;
  URN_Project := URN_Project bucketEnv;
  edit_RenameStack := edit_RenameStack bucketEnv;
  yaml_Marshal := yaml_Marshal bucketEnv;
  url_Parse := url_Parse bucketEnv;
  ValidBucketScheme := ValidBucketScheme bucketEnv;
  BucketSchemes := BucketSchemes bucketEnv;
  IsTruthy := IsTruthy bucketEnv;
  ActionLabel := ActionLabel bucketEnv;
  Colorize := Colorize bucketEnv;
  strconv_Quote := strconv_Quote bucketEnv;
  filepath_Join := filepath_Join bucketEnv;
  filepath_ToSlash := filepath_ToSlash bucketEnv;
  os_PathSeparator := os_PathSeparator bucketEnv;
  gcsblob_Scheme := gcsblob_Scheme bucketEnv;
  strings_TrimLeft := strings_TrimLeft bucketEnv;
  fileLink := fileLink bucketEnv;
  colors_SpecHeadline := colors_SpecHeadline bucketEnv;
  colors_Reset := colors_Reset bucketEnv;
  colors_Underline := colors_Underline bucketEnv;
  colors_BrightBlue := colors_BrightBlue bucketEnv;
|}.

End instances.

(** * Properties *)

(** ** Stepping through the monad *)

Lemma run_bind {W Ev A B} (m : M W Ev A) (k : A -> M W Ev B) (s : St W Ev) :
  bind m k s =
    match m s with
    | (Returns a, s') => k a s'
    | (Panics msg, s') => (Panics msg, s')
    end.
Proof. reflexivity. Qed.

Lemma run_call {W Ev A} (e : A -> Ev) (f : W -> A * W) (s : St W Ev) :
  call e f s =
    (Returns (f (world s)).1,
     {| world := (f (world s)).2; calls := (calls s ++ [e (f (world s)).1])%list |}).
Proof. unfold call. destruct (f (world s)); reflexivity. Qed.

(** Unfold the monad, and split on what the next collaborator gives back. *)
Ltac unfold_monad :=
  unfold run, call_, bind, call, ret, panic, defer in *; simpl in *.

Ltac split_call :=
  match goal with
  | |- context [let '(_, _) := ?f in _] => destruct f as [? ?] eqn:?; simpl in *
  | |- context [match ?f with (_, _) => _ end] => destruct f as [? ?] eqn:?; simpl in *
  | H : context [let '(_, _) := ?f in _] |- _ => destruct f as [? ?] eqn:?; simpl in *
  end.

(** ** Reasoning about runs *)

Section Runs.
Context {W Ev : Type}.

(** [post m s Q]: running [m] from [s] ends in an outcome and a state that
    satisfy [Q]. *)
Definition post {A} (m : M W Ev A) (s : St W Ev) (Q : outcome A -> St W Ev -> Prop)
  : Prop :=
  Q (m s).1 (m s).2.

(** [emits P m]: [m] only adds to the record of calls, and what it adds
    satisfies [P]. *)
Definition emits {A} (P : Ev -> Prop) (m : M W Ev A) : Prop :=
  forall s, exists tr, calls (m s).2 = (calls s ++ tr)%list /\ Forall P tr.

Lemma post_ret {A} (a : A) s (Q : outcome A -> St W Ev -> Prop) :
  Q (Returns a) s -> post (ret a) s Q.
Proof. intros H. exact H. Qed.

Lemma post_panic {A} msg s (Q : outcome A -> St W Ev -> Prop) :
  Q (Panics msg) s -> post (panic msg) s Q.
Proof. intros H. exact H. Qed.

Lemma post_call {A} (e : A -> Ev) (f : W -> A * W) s (Q : outcome A -> St W Ev -> Prop) :
  Q (Returns (f (world s)).1)
    {| world := (f (world s)).2; calls := (calls s ++ [e (f (world s)).1])%list |} ->
  post (call e f) s Q.
Proof. intros H. unfold post. rewrite run_call. exact H. Qed.

Lemma post_bind {A B} (m : M W Ev A) (k : A -> M W Ev B) s
    (Q : outcome B -> St W Ev -> Prop) :
  post m s (fun out s1 =>
              match out with
              | Returns a => post (k a) s1 Q
              | Panics msg => Q (Panics msg) s1
              end) ->
  post (bind m k) s Q.
Proof.
  unfold post. rewrite run_bind. destruct (m s) as [[a|msg] s1]; simpl; auto.
Qed.

(** The rule of consequence, with the cut that forgets how [m] ran. *)
Lemma post_bind_cut {A B} (I : outcome A -> St W Ev -> Prop) (m : M W Ev A)
    (k : A -> M W Ev B) s (Q : outcome B -> St W Ev -> Prop) :
  post m s I ->
  (forall a s1, I (Returns a) s1 -> post (k a) s1 Q) ->
  (forall msg s1, I (Panics msg) s1 -> Q (Panics msg) s1) ->
  post (bind m k) s Q.
Proof.
  intros Hm Hk Hp. apply post_bind. unfold post in *.
  destruct (m s) as [[a|msg] s1]; simpl in *; auto.
Qed.

Lemma post_defer {A} (d : M W Ev unit) (body : M W Ev A) s
    (Q : outcome A -> St W Ev -> Prop) :
  post body s (fun out s1 =>
                 post d s1 (fun dout s2 =>
                              match dout with
                              | Returns _ => Q out s2
                              | Panics msg => Q (Panics msg) s2
                              end)) ->
  post (defer d body) s Q.
Proof.
  unfold post, defer. destruct (body s) as [out s1]. simpl.
  destruct (d s1) as [[[]|msg] s2]; simpl; auto.
Qed.

Lemma emits_ret {A} P (a : A) : emits P (ret a).
Proof. intros s. exists []. rewrite app_nil_r. split; [reflexivity|constructor]. Qed.

Lemma emits_panic {A} P msg : emits P (@panic W Ev A msg).
Proof. intros s. exists []. rewrite app_nil_r. split; [reflexivity|constructor]. Qed.

Lemma emits_call {A} (P : Ev -> Prop) (e : A -> Ev) (f : W -> A * W) :
  (forall a, P (e a)) -> emits P (call e f).
Proof.
  intros He s. rewrite run_call. simpl. eexists. split; [reflexivity|].
  constructor; [apply He|constructor].
Qed.

Lemma emits_bind {A B} P (m : M W Ev A) (k : A -> M W Ev B) :
  emits P m -> (forall a, emits P (k a)) -> emits P (bind m k).
Proof.
  intros Hm Hk s. rewrite run_bind. destruct (Hm s) as (tr1 & Htr1 & HP1).
  destruct (m s) as [[a|msg] s1]; simpl in *.
  - destruct (Hk a s1) as (tr2 & Htr2 & HP2). exists (tr1 ++ tr2)%list.
    rewrite Htr2, Htr1, app_assoc. split; [reflexivity|]. apply Forall_app; auto.
  - exists tr1. auto.
Qed.

Lemma emits_defer {A} P (d : M W Ev unit) (body : M W Ev A) :
  emits P body -> emits P d -> emits P (defer d body).
Proof.
  intros Hb Hd s. unfold defer. destruct (Hb s) as (tr1 & Htr1 & HP1).
  destruct (body s) as [out s1]. simpl in *.
  destruct (Hd s1) as (tr2 & Htr2 & HP2).
  destruct (d s1) as [[[]|msg] s2]; simpl in *;
    (exists (tr1 ++ tr2)%list; rewrite Htr2, Htr1, app_assoc;
     split; [reflexivity|apply Forall_app; auto]).
Qed.

Lemma emits_weaken {A} (P Q : Ev -> Prop) (m : M W Ev A) :
  (forall e, P e -> Q e) -> emits P m -> emits Q m.
Proof.
  intros HPQ Hm s. destruct (Hm s) as (tr & Htr & HP). exists tr.
  split; [assumption|]. eapply Forall_impl; eauto.
Qed.

(** What holds of every call so far holds after a run that emits only such
    calls. *)
Lemma emits_post {A} P (m : M W Ev A) s :
  emits P m -> Forall P (calls s) -> post m s (fun _ s1 => Forall P (calls s1)).
Proof.
  intros Hm Hs. unfold post. destruct (Hm s) as (tr & -> & HP).
  apply Forall_app; auto.
Qed.

(** [returns m]: [m] does not panic. *)
Definition returns {A} (m : M W Ev A) : Prop :=
  forall s, exists a, (m s).1 = Returns a.

Lemma returns_ret {A} (a : A) : returns (ret a).
Proof. intros s. exists a. reflexivity. Qed.

Lemma returns_call {A} (e : A -> Ev) (f : W -> A * W) : returns (call e f).
Proof. intros s. rewrite run_call. eexists. reflexivity. Qed.

Lemma returns_bind {A B} (m : M W Ev A) (k : A -> M W Ev B) :
  returns m -> (forall a, returns (k a)) -> returns (bind m k).
Proof.
  intros Hm Hk s. rewrite run_bind. destruct (Hm s) as (a & Ha).
  destruct (m s) as [out s1]. simpl in Ha. subst out. apply Hk.
Qed.

Lemma returns_defer {A} (d : M W Ev unit) (body : M W Ev A) :
  returns body -> returns d -> returns (defer d body).
Proof.
  intros Hb Hd s. unfold defer. destruct (Hb s) as (a & Ha).
  destruct (body s) as [out s1]. simpl in Ha. subst out.
  destruct (Hd s1) as ([] & Hu). destruct (d s1) as [dout s2]. simpl in Hu.
  subst dout. exists a. reflexivity.
Qed.

End Runs.

Arguments post : simpl never.

Create HintDb emits.
Create HintDb returns.

(** Prove [emits P m] along the structure of [m]. *)
Ltac emits_step :=
  lazymatch goal with
  | |- emits _ (bind _ _) => apply emits_bind; [|intros ?]
  | |- emits _ (ret _) => apply emits_ret
  | |- emits _ (panic _) => apply emits_panic
  | |- emits _ (call _ _) => apply emits_call; intros ?
  | |- emits _ (call_ _ _) => apply emits_call; intros ?
  | |- emits _ (defer _ _) => apply emits_defer
  | |- emits _ (match ?x with _ => _ end) => destruct x
  | |- emits _ (let '(_, _) := ?x in _) => destruct x
  end.

(** Prove [returns m] along the structure of [m]. *)
Ltac returns_step :=
  lazymatch goal with
  | |- returns (bind _ _) => apply returns_bind; [|intros ?]
  | |- returns (ret _) => apply returns_ret
  | |- returns (call _ _) => apply returns_call
  | |- returns (call_ _ _) => apply returns_call
  | |- returns (defer _ _) => apply returns_defer
  | |- returns (match ?x with _ => _ end) => destruct x
  | |- returns (let '(_, _) := ?x in _) => destruct x
  end.

(** Membership in a list that is written out. *)
Ltac elem_inv H :=
  repeat first [ rewrite elem_of_app in H | rewrite elem_of_cons in H
               | rewrite elem_of_nil in H ];
  repeat match type of H with
         | _ \/ _ => destruct H as [H|H]
         | False => destruct H
         end.

Ltac elem_here :=
  repeat first [ rewrite elem_of_app | rewrite elem_of_cons | rewrite elem_of_nil ];
  tauto.

(** Split a conjunction into its parts. *)
Ltac split_all := repeat match goal with |- _ /\ _ => split end.

(** ** Stack references *)

Module filestate_facts.
Import workspace filestate.

(** C7.  The reference with project "infra" and name "prod" is written
    "prod" when the backend's current project is named "infra", and
    "organization/infra/prod" when the backend has no current project or one of
    another name; a reference with an empty project is written as its name.
    The first two hold for every project and name in place of "infra" and
    "prod". *)
Theorem String_elides_the_current_project :
  let ref := {| name := "prod"; project := "infra"; store := projectReferenceStore |} in
  (forall b, currentProject b = Some {| Name := "infra" |} ->
             localBackendReference_String b ref = "prod")
  /\ (forall b, currentProject b = None ->
                localBackendReference_String b ref = "organization/infra/prod")
  /\ (forall b p, currentProject b = Some p -> Name p <> "infra" ->
                  localBackendReference_String b ref = "organization/infra/prod")
  /\ (forall b nm st,
        localBackendReference_String b {| name := nm; project := ""; store := st |} = nm)
  /\ (forall b r, project r <> "" ->
        localBackendReference_String b r =
          match currentProject b with
          | Some p => if decide (project r = Name p) then name r
                      else "organization/" ++ project r ++ "/" ++ name r
          | None => "organization/" ++ project r ++ "/" ++ name r
          end).
Proof.
  cbv zeta. split_all.
  - intros b Hb. unfold localBackendReference_String. rewrite Hb. reflexivity.
  - intros b Hb. unfold localBackendReference_String. rewrite Hb. reflexivity.
  - intros b p Hb Hne. unfold localBackendReference_String. rewrite Hb. simpl.
    destruct (decide ("infra" = Name p)) as [Heq|_]; [congruence | reflexivity].
  - intros b nm st. reflexivity.
  - intros b r Hr. unfold localBackendReference_String.
    destruct (decide (project r = "")); [contradiction | reflexivity].
Qed.

(** *** Case analysis on a run *)

(** Split on the next thing that is matched on, collaborators' answers
    included. *)
Ltac split_match :=
  match goal with
  | |- context [match ?x with _ => _ end] =>
      lazymatch x with
      | context [match _ with _ => _ end] => fail
      | _ => destruct x eqn:?; simpl
      end
  end.

Section Facts.
Context {W : Type} (E : Env W).

Definition isWarning (e : Entry) : Prop :=
  exists format args, e = (cWarningf format args, aUnit).

Lemma warnLegacy_run refs (s : St W Entry) :
  exists w' tr,
    warnLegacy E refs s = (Returns tt, {| world := w'; calls := calls s ++ tr |})
    /\ Forall isWarning tr.
Proof.
  revert s. induction refs as [|ref refs IH]; intros s; simpl.
  - exists (world s), []. rewrite app_nil_r. destruct s; split; [reflexivity|constructor].
  - unfold callE. rewrite run_bind, run_call. simpl.
    match goal with
    | |- context [warnLegacy E refs ?s'] =>
        destruct (IH s') as (w' & tr & -> & Htr)
    end.
    simpl. eexists w', (_ :: tr). split.
    + rewrite <- app_assoc. reflexivity.
    + constructor; [|assumption]. eexists _, _. reflexivity.
Qed.

End Facts.

(** C5.  Take a stack whose reference is valid, whose lock is acquired and
    whose snapshot is loaded.  Without the force flag, if the snapshot has a
    resource, [RemoveStack] returns the error "refusing to remove stack because
    it still contains resources", having called nothing but the validation, the
    lock, the load and the unlock: whatever those four leave as it is, the
    checkpoint object among it, is as it was.  With the force flag, or when the
    snapshot has no resource, it calls [removeStack] and returns its error. *)
Theorem RemoveStack_refuses_while_resources_remain {W : Type} (E : Env W) b stack r
    w w0 w1 snapshot path w2 :
  Ref stack = localRef r ->
  ValidateReference E r w = (None, w0) ->
  Lock E b (localRef r) w0 = (None, w1) ->
  getStack E r w1 = (Ok (snapshot, path), w2) ->
  let loaded := [(cValidateReference r, aError None);
                 (cLock (localRef r), aError None);
                 (cgetStack r, aStack (Ok (snapshot, path)))] in
  let unlock := (cUnlock (localRef r), aUnit) in
  let hasResources := exists snap, snapshot = Some snap /\ Resources snap <> [] in
  (hasResources ->
   run (RemoveStack E b stack false) w
   = (Returns (true, Some (errNew
        "refusing to remove stack because it still contains resources")),
      {| world := (Unlock E b (localRef r) w2).2; calls := loaded ++ [unlock] |})
   /\ forall (A : Type) (checkpoint : W -> A),
        checkpoint w0 = checkpoint w -> checkpoint w1 = checkpoint w0 ->
        checkpoint w2 = checkpoint w1 ->
        checkpoint (Unlock E b (localRef r) w2).2 = checkpoint w2 ->
        checkpoint (world (run (RemoveStack E b stack false) w).2) = checkpoint w)
  /\ (forall force, force = true \/ ~ hasResources ->
      let removed := removeStack E r w2 in
      run (RemoveStack E b stack force) w
      = (Returns (false, removed.1),
         {| world := (Unlock E b (localRef r) removed.2).2;
            calls := loaded ++ [(cremoveStack r, aError removed.1); unlock] |})).
Proof.
  intros Href Hvalid Hlock Hload loaded unlock hasResources.
  subst loaded unlock hasResources.
  assert (forall force,
    run (RemoveStack E b stack force) w
    = if negb force && match snapshot with
                       | Some snap => (0 <? length (Resources snap))%nat
                       | None => false
                       end
      then (Returns (true, Some (errNew
              "refusing to remove stack because it still contains resources")),
            {| world := (Unlock E b (localRef r) w2).2;
               calls := [(cValidateReference r, aError None);
                         (cLock (localRef r), aError None);
                         (cgetStack r, aStack (Ok (snapshot, path)));
                         (cUnlock (localRef r), aUnit)] |})
      else (Returns (false, (removeStack E r w2).1),
            {| world := (Unlock E b (localRef r) (removeStack E r w2).2).2;
               calls := [(cValidateReference r, aError None);
                         (cLock (localRef r), aError None);
                         (cgetStack r, aStack (Ok (snapshot, path)));
                         (cremoveStack r, aError (removeStack E r w2).1);
                         (cUnlock (localRef r), aUnit)] |})) as Hrun.
  { intros force. unfold RemoveStack, getReference, callE. rewrite Href.
    unfold_monad. rewrite Hvalid. simpl. rewrite Hlock. simpl. rewrite Hload. simpl.
    destruct (negb force && _); simpl.
    - destruct (Unlock E b (localRef r) w2) as [[] w3]. reflexivity.
    - destruct (removeStack E r w2) as [err w3]. simpl.
      destruct (Unlock E b (localRef r) w3) as [[] w4]. reflexivity. }
  split.
  - intros (snap & -> & Hres).
    assert (run (RemoveStack E b stack false) w
      = (Returns (true, Some (errNew
           "refusing to remove stack because it still contains resources")),
         {| world := (Unlock E b (localRef r) w2).2;
            calls := [(cValidateReference r, aError None);
                      (cLock (localRef r), aError None);
                      (cgetStack r, aStack (Ok (Some snap, path)));
                      (cUnlock (localRef r), aUnit)] |})) as Hrefused.
    { rewrite Hrun. simpl. destruct (Resources snap); [contradiction | reflexivity]. }
    split; [exact Hrefused|].
    intros A checkpoint H0 H1 H2 H3. rewrite Hrefused. simpl. congruence.
  - intros force Hforce. cbv zeta. rewrite Hrun.
    assert (negb force && match snapshot with
                          | Some snap => (0 <? length (Resources snap))%nat
                          | None => false
                          end = false) as ->; [|reflexivity].
    destruct Hforce as [->|Hnone]; [reflexivity|].
    destruct force; [reflexivity|]. simpl.
    destruct snapshot as [snap|]; [|reflexivity].
    destruct (Resources snap) eqn:Hres; [reflexivity|].
    exfalso. apply Hnone. exists snap. split; [reflexivity|]. rewrite Hres. discriminate.
Qed.

(** *** Opening a backend *)

Section NewFacts.
Context {W : Type} (E : Env W).

(** The calls that [New] makes before it reads the manifest. *)
Definition beforeManifest (e : Entry) : Prop :=
  e.1 <> censurePulumiMeta /\ e.1 <> cNewV4.

Lemma massageBlobPath_emits path : emits beforeManifest (massageBlobPath E path).
Proof.
  unfold massageBlobPath, callE.
  repeat (emits_step; try (split; discriminate)).
Qed.

Lemma warnLegacy_post refs s (Q : outcome unit -> St W Entry -> Prop) :
  (forall w' tr, Forall isWarning tr ->
                 Q (Returns tt) {| world := w'; calls := calls s ++ tr |}) ->
  post (warnLegacy E refs) s Q.
Proof.
  intros HQ. unfold post. destruct (warnLegacy_run E refs s) as (w' & tr & -> & Htr).
  simpl. auto.
Qed.

(** What C9 says of the outcome of [New] and of the calls it made. *)
Definition New_post (out : outcome (result localBackend)) (s' : St W Entry) : Prop :=
  (forall meta lockID,
      (censurePulumiMeta, aMeta (Ok meta)) ∈ calls s' ->
      (cNewV4, aString (Ok lockID)) ∈ calls s' ->
      (Version meta = 0%Z ->
       exists b, out = Returns (Ok b) /\ b_store b = legacyReferenceStore)
      /\ (Version meta = 1%Z ->
          exists b, out = Returns (Ok b) /\ b_store b = projectReferenceStore)
      /\ (Version meta <> 0%Z -> Version meta <> 1%Z ->
          out = Returns (Err (unsupportedVersion (Version meta)))))
  /\ (forall b, out = Returns (Ok b) ->
        exists meta,
          (censurePulumiMeta, aMeta (Ok meta)) ∈ calls s'
          /\ ((Version meta = 0%Z /\ b_store b = legacyReferenceStore)
              \/ (Version meta = 1%Z /\ b_store b = projectReferenceStore))).

Lemma New_post_early s (e : error) :
  Forall beforeManifest (calls s) -> New_post (Returns (Err e)) s.
Proof.
  intros Hs. split.
  - intros meta lockID Hmeta _. rewrite Forall_forall in Hs.
    destruct (Hs _ Hmeta) as [H _]. contradiction.
  - intros b [=].
Qed.

End NewFacts.

#[global] Hint Resolve massageBlobPath_emits : emits.

Ltac early Hs := apply post_ret, New_post_early; exact Hs.

(** Run the next step of [New], keeping of it only that its calls come
    before the manifest is read. *)
Ltac cut_before Hs a s1 :=
  apply post_bind_cut with (I := fun _ s1 => Forall beforeManifest (calls s1));
  [ apply emits_post;
    [ first [ solve [auto with emits]
            | unfold callE; repeat (emits_step; try (split; discriminate)) ]
    | exact Hs ]
  | clear Hs; intros a s1 Hs
  | let H := fresh in
    intros ? ? H; split;
    [ intros meta lockID Hmeta _; rewrite Forall_forall in H;
      destruct (H _ Hmeta) as [? _]; contradiction
    | intros ? [=] ] ].

Ltac old_entry Hs :=
  match goal with
  | H : _ ∈ calls _ |- _ =>
      rewrite Forall_forall in Hs; destruct (Hs _ H) as [? ?]; contradiction
  | H : _ ∈ ?tr, Htr : Forall isWarning ?tr |- _ =>
      rewrite Forall_forall in Htr; destruct (Htr _ H) as (? & ? & ?);
      discriminate
  end.

(** Close a leaf of [New]: the calls after [calls s] are written out. *)
Ltac New_leaf Hs :=
  split;
  [ intros ? ? Hmeta Hid; simpl in Hmeta, Hid;
    elem_inv Hmeta; try old_entry Hs; try discriminate;
    injection Hmeta as ->;
    elem_inv Hid; try old_entry Hs; try discriminate;
    simpl;
    split_all; intros; try congruence; try lia;
    try (eexists; split; reflexivity)
  | intros b Hb;
    first [ discriminate
          | injection Hb as <-; eexists; split; [simpl; elem_here | simpl; auto] ] ].

Lemma New_holds {W : Type} (E : Env W) originalURL proj w :
  post (New E originalURL proj) {| world := w; calls := [] |} (New_post (W:=W)).
Proof.
  unfold New.
  assert (Forall beforeManifest (calls {| world := w; calls := @nil Entry |})) as Hs
    by constructor.
  generalize dependent (mkSt w (@nil Entry)). intros s Hs.
  destruct (negb _); [early Hs|].
  cut_before Hs r s1. destruct r as [u|err]; [|early Hs].
  destruct (url_Parse E u) as [[p_Scheme p_Path]|err]; [|early Hs].
  cut_before Hs muxErr s2. destruct muxErr as [err|]; [early Hs|].
  cut_before Hs err s3. destruct err as [err|]; [early Hs|].
  cut_before Hs u0 s4.
  apply post_bind, post_call. simpl.
  destruct (ensurePulumiMeta E (world s4)) as [[pulumiState|err] w1]; simpl.
  2:{ apply post_ret. New_leaf Hs. }
  apply post_bind, post_call. simpl.
  destruct (uuid_NewV4 E w1) as [[lockID|err] w2]; simpl.
  2:{ apply post_ret. New_leaf Hs. }
  apply post_bind, post_call. simpl.
  destruct (os_Getenv E PulumiFilestateGzipEnvVar w2) as [env w3]; simpl.
  destruct pulumiState as [v]; simpl.
  destruct v as [|[p|p|]|p]; try (apply post_ret; New_leaf Hs).
  apply post_bind, post_call. simpl.
  destruct (ListReferences E legacyReferenceStore w3) as [[refs|err] w4]; simpl.
  - apply post_bind, warnLegacy_post. intros w' tr Htr. simpl.
    apply post_ret. New_leaf Hs.
  - apply post_ret. New_leaf Hs.
Qed.

(** **** The run of [New] from what its collaborators answer *)

Section NewRun.
Context {W : Type} (E : Env W).

Definition legacyWarning (ref : localBackendReference) : Entry :=
  (cWarningf "Found legacy stack file '%s', you should run 'pulumi state upgrade'"
     [name ref], aUnit).

Lemma warnLegacy_exact refs (s : St W Entry) :
  exists w',
    warnLegacy E refs s
    = (Returns tt, {| world := w'; calls := (calls s ++ map legacyWarning refs)%list |}).
Proof.
  revert s. induction refs as [|ref refs IH]; intros s; simpl.
  - exists (world s). rewrite app_nil_r. destruct s; reflexivity.
  - unfold callE. rewrite run_bind, run_call. simpl.
    match goal with
    | |- context [warnLegacy E refs ?s'] => destruct (IH s') as (w' & ->)
    end.
    simpl. exists w'. rewrite <- app_assoc. reflexivity.
Qed.

(** The directory that [New] binds the bucket to, for a bucket that is not
    a local one and a URL that names a directory. *)
Definition bucketDir (u p_Path : string) : option string :=
  if negb (strings_HasPrefix u FilePathPrefix) then
    let bucketSubDir := strings_TrimLeft E p_Path "/" in
    if decide (bucketSubDir <> "") then
      Some (if negb (strings_HasSuffix bucketSubDir "/")
            then bucketSubDir ++ "/" else bucketSubDir)
    else None
  else None.

(** [New] gets as far as the manifest: the URL has the scheme of a bucket,
    its path is made absolute, as [u], which parses, the credentials of Google
    are found if they are asked for, and the bucket opens.  [s4] is the world
    this leaves, with the calls made. *)
Definition opens (originalURL u : string) (w : W) (s4 : St W Entry) : Prop :=
  IsFileStateBackendURL E originalURL = true
  /\ exists s1 p_Scheme p_Path w2 w3,
       run (massageBlobPath E originalURL) w = (Returns (Ok u), s1)
       /\ url_Parse E u = Ok (p_Scheme, p_Path)
       /\ (if decide (p_Scheme = gcsblob_Scheme E)
           then GoogleCredentialsMux E (world s1) else (None, world s1)) = (None, w2)
       /\ OpenBucket E u w2 = (None, w3)
       /\ s4 = {| world := match bucketDir u p_Path with
                           | Some dir => (PrefixedBucket E dir w3).2
                           | None => w3
                           end;
                  calls := (calls s1
                            ++ (if decide (p_Scheme = gcsblob_Scheme E)
                                then [(cGoogleCredentialsMux, aError None)] else [])
                            ++ (cOpenBucket u, aError None)
                            :: match bucketDir u p_Path with
                               | Some dir => [(cPrefixedBucket dir, aUnit)]
                               | None => []
                               end)%list |}.

(** The backend that [New] makes of the manifest [m], or the error. *)
Definition selected (originalURL u lockID : string) (gzipCompression : bool)
    (proj : option Project) (m : pulumiMeta) : result localBackend :=
  match Version m with
  | 0%Z => Ok (mkBackend originalURL u lockID gzipCompression proj legacyReferenceStore)
  | 1%Z => Ok (mkBackend originalURL u lockID gzipCompression proj projectReferenceStore)
  | v => Err (unsupportedVersion v)
  end.

Lemma New_run originalURL proj u w s4 :
  opens originalURL u w s4 ->
  let r := run (New E originalURL proj) w in
  let meta := ensurePulumiMeta E (world s4) in
  let id := uuid_NewV4 E meta.2 in
  let env := os_Getenv E PulumiFilestateGzipEnvVar id.2 in
  let listing := ListReferences E legacyReferenceStore env.2 in
  r.1 = Returns match meta.1, id.1 with
                | Err err, _ => Err err
                | Ok _, Err err => Err err
                | Ok m, Ok lockID => selected originalURL u lockID (IsTruthy E env.1) proj m
                end
  /\ calls r.2
     = (calls s4
        ++ (censurePulumiMeta, aMeta meta.1)
        :: match meta.1 with
           | Err _ => []
           | Ok m =>
               (cNewV4, aString id.1)
               :: match id.1 with
                  | Err _ => []
                  | Ok _ =>
                      (cGetenv PulumiFilestateGzipEnvVar, aText env.1)
                      :: if decide (Version m = 1%Z) then
                           (cListReferences legacyReferenceStore, aRefs listing.1)
                           :: match listing.1 with
                              | Ok refs => map legacyWarning refs
                              | Err _ => []
                              end
                         else []
                  end
           end)%list.
Proof.
  intros (Hurl & s1 & p_Scheme & p_Path & w2 & w3 & Hmassage & Hparse & Hmux & Hopen & ->).
  cbv zeta. unfold run, New in *. rewrite Hurl. change (negb true) with false. cbv iota.
  rewrite run_bind, Hmassage, Hparse. clear Hmassage.
  unfold bucketDir, selected.
  destruct (negb (strings_HasPrefix u FilePathPrefix));
    [destruct (decide (strings_TrimLeft E p_Path "/" <> ""))|];
    (destruct (decide (p_Scheme = gcsblob_Scheme E)); [|injection Hmux as <-]).
  all: unfold callE, bind, call, ret; unfold Entry in *; cbn [world calls fst snd].
  all: rewrite ?Hmux; cbn [world calls fst snd]; rewrite Hopen; cbn [world calls fst snd].
  all: repeat match goal with
         | |- context [PrefixedBucket E ?d ?w] =>
             destruct (PrefixedBucket E d w) as [[] ?]; cbn [world calls fst snd]
         end.
  all: destruct (ensurePulumiMeta E _) as [[m|err] w5]; cbn [world calls fst snd];
    [|split; [reflexivity|rewrite <- ?app_assoc; reflexivity]].
  all: destruct (uuid_NewV4 E w5) as [[lockID|err] w6]; cbn [world calls fst snd];
    [|split; [reflexivity|rewrite <- ?app_assoc; reflexivity]].
  all: destruct (os_Getenv E PulumiFilestateGzipEnvVar w6) as [env w7];
    cbn [world calls fst snd].
  all: destruct m as [v]; cbn [Version].
  all: destruct v as [|[p|p|]|p]; cbn [world calls fst snd];
    try (split; [reflexivity|rewrite <- ?app_assoc; reflexivity]).
  all: destruct (ListReferences E legacyReferenceStore w7) as [[refs|err] w8];
    cbn [world calls fst snd];
    try (split; [reflexivity|rewrite <- ?app_assoc; reflexivity]).
  all: match goal with
       | |- context [warnLegacy E ?refs ?s'] =>
           destruct (warnLegacy_exact refs s') as (w' & ->)
       end.
  all: cbn [world calls fst snd]; split; [reflexivity|rewrite <- ?app_assoc; reflexivity].
Qed.

End NewRun.

(** On the bucket modelled from the spec every URL with the scheme of a
    bucket opens, and opening leaves the bucket as it is. *)
Lemma bucketEnv_opens originalURL (bucket : instances.BucketWorld) :
  IsFileStateBackendURL instances.bucketEnv originalURL = true ->
  exists u s4, opens instances.bucketEnv originalURL u bucket s4 /\ world s4 = bucket.
Proof.
  intros Hurl.
  assert (exists u s1,
             run (massageBlobPath instances.bucketEnv originalURL) bucket
             = (Returns (Ok u), s1) /\ world s1 = bucket) as (u & s1 & Hm & Hw).
  { unfold massageBlobPath, callE. unfold_monad.
    repeat match goal with
           | |- context [if ?c then _ else _] => destruct c; simpl
           end; eexists _, _; split; reflexivity. }
  assert (exists p_Scheme p_Path,
             url_Parse instances.bucketEnv u = Ok (p_Scheme, p_Path))
    as (p_Scheme & p_Path & Hparse).
  { simpl. unfold instances.modelURLParse.
    destruct (instances.splitOn "://" 0 "" u) as [|a [|c [|d l]]]; eauto.
    destruct (index 0 "/" c); eauto. }
  exists u. eexists. split.
  - split; [exact Hurl|]. exists s1, p_Scheme, p_Path, bucket, bucket.
    split_all; try reflexivity; try assumption.
    rewrite Hw. destruct (decide _); reflexivity.
  - simpl. destruct (bucketDir instances.bucketEnv u p_Path); reflexivity.
Qed.


(** *** Cancelling the current update *)

Section CancelFacts.
Context {W : Type} (E : Env W).

(** When no deletion answers with an error, the loop of
    [CancelCurrentUpdate] deletes every file of the listing, in order, and
    returns no error. *)
Lemma CancelCurrentUpdate_loop_deletes_all files s :
  post (CancelCurrentUpdate_loop E files) s (fun out s' =>
    exists tr,
      calls s' = (calls s ++ tr)%list
      /\ ((forall key err, (cDelete key, aError (Some err)) ∉ tr) ->
          out = Returns None
          /\ tr = map (fun f => (cDelete (Key f), aError None))
                      (filter (fun f => IsDir f = false) files))).
Proof.
  revert s. induction files as [|file files IH]; intros s; simpl.
  - apply post_ret. exists []. rewrite app_nil_r. auto.
  - destruct file as [key [|]]; simpl.
    + assert (filter (fun f => IsDir f = false)
                     ({| Key := key; IsDir := true |} :: files)
              = filter (fun f => IsDir f = false) files) as ->
        by (apply filter_cons_False; simpl; discriminate).
      apply IH.
    + unfold callE. apply post_bind, post_call. simpl.
      destruct (bucket_Delete E key (world s)) as [[err|] w'] eqn:Hdel; simpl.
      * assert (forall out : outcome (option error),
                  exists tr, (calls s ++ [(cDelete key, aError (Some err))])%list
                             = (calls s ++ tr)%list
                    /\ ((forall key0 err0, (cDelete key0, aError (Some err0)) ∉ tr) ->
                        out = Returns None
                        /\ tr = (cDelete key, aError None)
                                :: map (fun f => (cDelete (Key f), aError None))
                                     (filter (fun f => IsDir f = false) files))) as Hbad.
        { intros out. eexists. split; [reflexivity|]. intros Hnone. exfalso.
          apply (Hnone key err). left. }
        destruct (decide _); apply post_ret; apply Hbad.
      * match goal with |- post _ ?s' _ => specialize (IH s') end.
        unfold post in *. destruct IH as (tr & Htr & Hall). simpl in Htr.
        exists ((cDelete key, aError None) :: tr). split.
        { rewrite Htr, <- app_assoc. reflexivity. }
        intros Hnone. destruct Hall as [Hout ->].
        { intros k e Hin. apply (Hnone k e). right. exact Hin. }
        auto.
Qed.

(** An absent lock directory is no error, and nothing is deleted. *)
Lemma CancelCurrentUpdate_absent_directory b stackRef w err w' :
  listBucket E (stackLockDir E (StackReference_FullyQualifiedName stackRef)) w
  = (Err err, w') ->
  error_Code err = NotFound ->
  run (CancelCurrentUpdate E b stackRef) w
  = (Returns None,
     {| world := w';
        calls := [(clistBucket
                     (stackLockDir E (StackReference_FullyQualifiedName stackRef)),
                   aObjects (Err err))] |}).
Proof.
  intros Hlist Hcode. unfold CancelCurrentUpdate, callE. unfold_monad.
  rewrite Hlist. simpl. rewrite Hcode. reflexivity.
Qed.

End CancelFacts.

(** *** Upgrading to the project layout *)

Section UpgradeFacts.
Context {W : Type} (E : Env W).

(** [keeps listed f]: [f] adds no stack to the legacy listing. *)
Definition keeps {A} (listed : W -> list localBackendReference) (f : W -> A * W)
  : Prop :=
  forall w, listed (f w).2 ⊆ listed w.

(** What [Upgrade] relies on from store.go, state.go, lock.go and the
    bucket, none of which it defines: [listed w] is what the legacy store lists
    in the world [w]; no collaborator that [Upgrade] calls adds a stack to it
    (a checkpoint saved under the project layout is not a legacy stack), and
    backing up a stack's file without keeping the original takes the stack off
    it. *)
Record legacyListing (listed : W -> list localBackendReference) : Prop := {
  listing_reads : forall w refs w',
    ListReferences E legacyReferenceStore w = (Ok refs, w') -> refs = listed w;
  listing_keeps : keeps listed (ListReferences E legacyReferenceStore);
  getCheckpoint_keeps : forall r, keeps listed (getCheckpoint E r);
  Lock_keeps : forall b r, keeps listed (Lock E b r);
  Unlock_keeps : forall b r, keeps listed (Unlock E b r);
  getStack_keeps : forall r, keeps listed (getStack E r);
  Exists_keeps : forall key, keeps listed (bucket_Exists E key);
  saveStack_keeps : forall r snap,
    store r = projectReferenceStore -> keeps listed (saveStack E r snap);
  backupTarget_keeps : forall file keepOriginal,
    keeps listed (backupTarget E file keepOriginal);
  backupTarget_moves : forall old w,
    old ∉ listed (backupTarget E (stackPath E old) false w).2;
  renameHistory_keeps : forall old new, keeps listed (renameHistory E old new);
  WriteAll_keeps : forall key data, keeps listed (bucket_WriteAll E key data);
}.

(** The calls of [renameStack old new]. *)
Definition isRenameOf (old new : localBackendReference) (e : Entry) : Prop :=
  e.1 = cLock (localRef old) \/ e.1 = cUnlock (localRef old) \/ e.1 = cgetStack old
  \/ e.1 = cExists (stackPath E new) \/ (exists snap, e.1 = csaveStack new snap)
  \/ e.1 = cbackupTarget (stackPath E old) false \/ e.1 = crenameHistory old new.

(** [old] was moved to [new]: saved there, backed up without keeping the
    original, and its history renamed. *)
Definition movedTo (tr : list Entry) (old new : localBackendReference) : Prop :=
  exists snap path bck,
    (csaveStack new snap, aString (Ok path)) ∈ tr
    /\ (cbackupTarget (stackPath E old) false, aText bck) ∈ tr
    /\ (crenameHistory old new, aError None) ∈ tr.

Variable listed : W -> list localBackendReference.
Hypothesis HL : legacyListing listed.

Definition renameStack_post (old new : localBackendReference) (s : St W Entry)
    (out : outcome (option error)) (s' : St W Entry) : Prop :=
  exists tr,
    calls s' = (calls s ++ tr)%list
    /\ Forall (isRenameOf old new) tr
    /\ (exists err, out = Returns err)
    /\ (store new = projectReferenceStore -> listed (world s') ⊆ listed (world s))
    /\ (out = Returns None -> (crenameHistory old new, aError None) ∈ tr)
    /\ (forall o n, (crenameHistory o n, aError None) ∈ tr ->
          store new = projectReferenceStore ->
          out = Returns None /\ movedTo tr old new /\ old ∉ listed (world s')).

(** The stack a call reads or moves. *)
Definition source (c : Call) : option localBackendReference :=
  match c with
  | cgetCheckpoint r | cgetStack r => Some r
  | cLock (localRef r) | cUnlock (localRef r) => Some r
  | crenameHistory old _ => Some old
  | _ => None
  end.

(** Where [Upgrade] moves a stack: under the project of its checkpoint. *)
Definition target (chk : CheckpointV3) (old : localBackendReference)
  : localBackendReference :=
  newReference projectReferenceStore (checkpointProject E chk) (name old).

(** [old] was migrated: its checkpoint was read, named a project, and the
    stack was moved under it. *)
Definition migrated (tr : list Entry) (old : localBackendReference) : Prop :=
  exists chk,
    (cgetCheckpoint old, aCheckpoint (Ok chk)) ∈ tr
    /\ checkpointProject E chk <> ""
    /\ movedTo tr old (target chk old).

Definition noProject (b : localBackend) (old : localBackendReference) : error :=
  errNew ("no project found for stack " ++ localBackendReference_String b old).

(** A call of the migration of [olds]: about one of them, and no write to the
    bucket of [Upgrade]'s own. *)
Definition migrates (olds : list localBackendReference) (e : Entry) : Prop :=
  (forall old, source e.1 = Some old -> old ∈ olds)
  /\ (forall key data, e.1 <> cWriteAll key data)
  /\ (forall st, e.1 <> cListReferences st).

Definition Upgrade_loop_post (b : localBackend) (olds : list localBackendReference)
    (s : St W Entry) (out : outcome (option error)) (s' : St W Entry) : Prop :=
  exists tr done rest,
    calls s' = (calls s ++ tr)%list
    /\ olds = (done ++ rest)%list
    /\ (exists err, out = Returns err)
    /\ (out = Returns None -> rest = [])
    /\ listed (world s') ⊆ listed (world s)
    /\ Forall (migrates olds) tr
    /\ (forall old, old ∈ done -> migrated tr old /\ old ∉ listed (world s'))
    /\ (forall old chk, (cgetCheckpoint old, aCheckpoint (Ok chk)) ∈ tr ->
          checkpointProject E chk = "" -> out = Returns (Some (noProject b old)))
    /\ (forall old new, (crenameHistory old new, aError None) ∈ tr -> old ∈ done).

(** A checkpoint without resources. *)
Definition noResources (chk : CheckpointV3) : Prop :=
  Latest chk = None \/ exists latest, Latest chk = Some latest /\ Resources latest = [].

(** The write of the layout manifest. *)
Definition manifestWrite (data : string) (err : option error) : Entry :=
  (cWriteAll "Pulumi.yaml" data, aError err).

(** What a run of [Upgrade] from [s] comes to. *)
Definition migration (b : localBackend) (s : St W Entry)
    (out : outcome (option error * localBackend)) (s' : St W Entry) : Prop :=
  exists answer tr,
    calls s' = (calls s ++ (cListReferences legacyReferenceStore, aRefs answer) :: tr)%list
    /\ answer = (ListReferences E legacyReferenceStore (world s)).1
    /\ (forall err, answer = Err err ->
          tr = [] /\ out = Returns (Some (errWrap "read old references" err), b))
    /\ forall olds, answer = Ok olds ->
         exists done rest,
           olds = (done ++ rest)%list
           /\ (forall old, old ∈ done -> migrated tr old /\ old ∉ listed (world s'))
           /\ (forall old chk,
                 (cgetCheckpoint old, aCheckpoint (Ok chk)) ∈ tr -> noResources chk ->
                 out = Returns (Some (noProject b old), b))
           /\ (forall key data a,
                 (cWriteAll key data, a) ∈ tr ->
                 rest = [] /\ key = "Pulumi.yaml"
                 /\ yaml_Marshal E {| Version := 1 |} = Ok data
                 /\ last tr = Some (cWriteAll key data, a))
           /\ (forall b', out = Returns (None, b') ->
                 b' = set_store b projectReferenceStore /\ rest = []
                 /\ exists data, manifestWrite data None ∈ tr)
           /\ (forall err b', out = Returns (Some err, b') ->
                 b' = b /\ forall data, manifestWrite data None ∉ tr)
           /\ (rest <> [] ->
                 (exists err, out = Returns (Some err, b))
                 /\ forall key data a, (cWriteAll key data, a) ∉ tr)
           /\ (forall e old, e ∈ tr -> source e.1 = Some old -> old ∈ olds)
           /\ (forall old new, (crenameHistory old new, aError None) ∈ tr -> old ∈ done).

(** From what a collaborator answered in a world, that it kept the
    listing. *)
Ltac keeps_facts HL :=
  repeat match goal with
    | Heq : ?f ?w = (?a, ?w') |- _ =>
        lazymatch goal with
        | _ : listed w' ⊆ listed w |- _ => fail
        | _ =>
            assert (listed w' ⊆ listed w)
              by (replace w' with (f w).2 by (rewrite Heq; reflexivity);
                  first [ apply (listing_keeps _ HL)
                        | apply (getCheckpoint_keeps _ HL)
                        | apply (Lock_keeps _ HL)
                        | apply (Unlock_keeps _ HL)
                        | apply (getStack_keeps _ HL)
                        | apply (Exists_keeps _ HL)
                        | apply (saveStack_keeps _ HL); assumption
                        | apply (backupTarget_keeps _ HL)
                        | apply (renameHistory_keeps _ HL)
                        | apply (WriteAll_keeps _ HL) ])
        end
    end;
  repeat match goal with
    | Heq : backupTarget E (stackPath E ?old) false ?w = (?a, ?w') |- _ =>
        lazymatch goal with
        | _ : old ∉ listed w' |- _ => fail
        | _ =>
            assert (old ∉ listed w')
              by (replace w' with (backupTarget E (stackPath E old) false w).2
                    by (rewrite Heq; reflexivity);
                  apply (backupTarget_moves _ HL))
        end
    end.

(** Follow a stack of the listing back through the worlds. *)
Ltac follow H :=
  repeat first
    [ assumption
    | contradiction
    | match goal with
      | K : listed ?w' ⊆ listed ?w |- _ =>
          match type of H with _ ∈ listed w' => apply K in H end
      end ].

(** What was called after [calls s], read off the record. *)
Ltac since l :=
  lazymatch l with
  | calls _ => constr:(@nil Entry)
  | (?l' ++ ?t)%list => let r := since l' in constr:((r ++ t)%list)
  end.

Lemma renameStack_holds b old new s :
  post (renameStack E b old new) s (renameStack_post old new s).
Proof using HL.
  unfold post, renameStack, callE. unfold_monad.
  repeat split_match.
  all: lazymatch goal with
    | |- renameStack_post _ _ _ _ {| world := _; calls := ?l |} =>
        let tr := since l in
        exists tr; cbn; split; [rewrite <- ?app_assoc; reflexivity|]
    end.
  all: (split;
          [repeat first
             [ exact (List.Forall_nil _)
             | apply Forall_cons; split; [unfold isRenameOf; simpl; solve [eauto 10]|] ]
          |]).
  all: (split; [eexists; reflexivity|]).
  all: (split; [intros Hstore; keeps_facts HL; intros x Hx; follow Hx|]).
  all: (split; [intros [= ->]; cbn; elem_here|]).
  all: intros o' n' Hin Hstore; elem_inv Hin; try discriminate.
  all: cbn in Hin; injection Hin as Ho Hn Hr; subst o' n'; symmetry in Hr; subst.
  all: split; [reflexivity|].
  all: split;
    [ match goal with
      | Hs : saveStack E _ ?snap _ = (Ok ?path, _),
        Hb : backupTarget E _ false _ = (?bck, _) |- _ => exists snap, path, bck
      end; cbn; split_all; elem_here
    | keeps_facts HL; intros Hx; follow Hx ].
Qed.

Lemma movedTo_mono tr tr' old new :
  tr ⊆ tr' -> movedTo tr old new -> movedTo tr' old new.
Proof.
  intros Hsub (snap & path & bck & H1 & H2 & H3).
  exists snap, path, bck. auto.
Qed.

Lemma migrated_mono tr tr' old : tr ⊆ tr' -> migrated tr old -> migrated tr' old.
Proof.
  intros Hsub (chk & H1 & H2 & H3). exists chk.
  split_all; auto. eapply movedTo_mono; eauto.
Qed.

Lemma isRenameOf_migrates old new olds e :
  old ∈ olds -> isRenameOf old new e -> migrates olds e.
Proof.
  intros Hin H. unfold migrates.
  destruct H as [H|[H|[H|[H|[[snap H]|[H|H]]]]]]; rewrite H; simpl;
    split_all; intros; try discriminate; congruence.
Qed.

Lemma isRenameOf_not_getCheckpoint old new tr r a :
  Forall (isRenameOf old new) tr -> (cgetCheckpoint r, a) ∉ tr.
Proof.
  intros Hall Hin. rewrite Forall_forall in Hall. apply Hall in Hin.
  destruct Hin as [H|[H|[H|[H|[[snap H]|[H|H]]]]]]; discriminate.
Qed.

Lemma isRenameOf_renameHistory old new tr o n a :
  Forall (isRenameOf old new) tr -> (crenameHistory o n, a) ∈ tr -> o = old.
Proof.
  intros Hall Hin. rewrite Forall_forall in Hall. apply Hall in Hin.
  destruct Hin as [H|[H|[H|[H|[[snap H]|[H|H]]]]]]; try discriminate.
  injection H as -> _. reflexivity.
Qed.

Lemma Upgrade_loop_holds b olds s :
  post (Upgrade_loop E b olds) s (Upgrade_loop_post b olds s).
Proof using HL.
  revert s. induction olds as [|old olds IH]; intros s; simpl.
  - apply post_ret. exists [], [], []. rewrite app_nil_r.
    split_all; eauto; try reflexivity.
    + intros old Hin. elem_inv Hin.
    + intros old chk Hin. elem_inv Hin.
    + intros o n Hin. elem_inv Hin.
  - unfold callE at 1. apply post_bind, post_call. simpl.
    destruct (getCheckpoint E old (world s)) as [[chk|err] w1] eqn:Hget; simpl.
    2: { apply post_ret. exists [(cgetCheckpoint old, aCheckpoint (Err err))], [], (old :: olds).
         split_all; eauto; try discriminate.
         - keeps_facts HL. assumption.
         - apply Forall_cons. split; [|exact (List.Forall_nil _)].
           unfold migrates; simpl. split_all; intros; try discriminate.
           injection H as <-. left.
         - intros o Hin. elem_inv Hin.
         - intros o c Hin. elem_inv Hin. discriminate.
         - intros o n Hin. elem_inv Hin. discriminate. }
    destruct (decide (checkpointProject E chk = "")) as [Hnone|Hproj].
    { apply post_ret. exists [(cgetCheckpoint old, aCheckpoint (Ok chk))], [], (old :: olds).
      split_all; eauto; try discriminate.
      - keeps_facts HL. assumption.
      - apply Forall_cons. split; [|exact (List.Forall_nil _)].
        unfold migrates; simpl. split_all; intros; try discriminate.
        injection H as <-. left.
      - intros o Hin. elem_inv Hin.
      - intros o c Hin _. elem_inv Hin. injection Hin as -> ->. reflexivity.
      - intros o n Hin. elem_inv Hin. discriminate. }
    eapply post_bind_cut; [apply renameStack_holds| |].
    2: { intros msg s1 (tr & _ & _ & [err Hout] & _). discriminate. }
    intros err s1 (tr & Htr & Hren & _ & Hkeep & Hdone & Hmoved).
    simpl in Htr. specialize (Hkeep eq_refl).
    assert (listed w1 ⊆ listed (world s)) as Hw1 by (keeps_facts HL; assumption).
    simpl in Hkeep.
    destruct err as [err|].
    { apply post_ret.
      exists ((cgetCheckpoint old, aCheckpoint (Ok chk)) :: tr), [], (old :: olds).
      split_all; eauto; try discriminate.
      - rewrite Htr, <- app_assoc. reflexivity.
      - etrans; eassumption.
      - apply Forall_cons. split.
        + unfold migrates; simpl. split_all; intros; try discriminate.
          injection H as <-. left.
        + eapply Forall_impl; [exact Hren|]. intros e.
          apply isRenameOf_migrates. left.
      - intros o Hin. elem_inv Hin.
      - intros o c Hin Hc. elem_inv Hin.
        + injection Hin as -> ->. contradiction.
        + exfalso. eapply isRenameOf_not_getCheckpoint; eauto.
      - intros o n Hin. elem_inv Hin; [discriminate|].
        destruct (Hmoved _ _ Hin eq_refl) as (Hout & _). discriminate. }
    specialize (Hdone eq_refl).
    destruct (Hmoved _ _ Hdone eq_refl) as (_ & Hmv & Hgone).
    specialize (IH s1). unfold post in *.
    destruct IH as (tr2 & done & rest & Htr2 & Holds & Hret & Hrest & Hkeep2
                    & Hmig & Hdone2 & Hfail & Hrenamed).
    exists ((cgetCheckpoint old, aCheckpoint (Ok chk)) :: tr ++ tr2)%list,
           (old :: done), rest.
    split_all.
    + rewrite Htr2, Htr, <- !app_assoc. reflexivity.
    + rewrite Holds. reflexivity.
    + exact Hret.
    + exact Hrest.
    + etrans; [exact Hkeep2|]. etrans; eassumption.
    + apply Forall_cons. split.
      * unfold migrates; simpl. split_all; intros; try discriminate.
        injection H as <-. left.
      * apply Forall_app. split.
        -- eapply Forall_impl; [exact Hren|]. intros e.
           apply isRenameOf_migrates. left.
        -- eapply Forall_impl; [exact Hmig|]. intros e (H1 & H2 & H3).
           unfold migrates. split_all; auto. intros o Ho. right. auto.
    + intros o Hin. apply elem_of_cons in Hin. destruct Hin as [->|Hin].
      * split.
        -- exists chk. split_all; [left|exact Hproj|].
           eapply movedTo_mono; [|exact Hmv].
           intros e He. right. apply elem_of_app. left. exact He.
        -- intros Ho. apply Hgone. apply Hkeep2. exact Ho.
      * destruct (Hdone2 o Hin) as [Hm Hg]. split; [|exact Hg].
        eapply migrated_mono; [|exact Hm].
        intros e He. right. apply elem_of_app. right. exact He.
    + intros o c Hin Hc. apply elem_of_cons in Hin. destruct Hin as [Hin|Hin].
      * injection Hin as -> ->. contradiction.
      * apply elem_of_app in Hin. destruct Hin as [Hin|Hin].
        -- exfalso. eapply isRenameOf_not_getCheckpoint; eauto.
        -- eauto.
    + intros o n Hin. apply elem_of_cons in Hin.
      destruct Hin as [Hin|Hin]; [discriminate|].
      apply elem_of_app in Hin. apply elem_of_cons. destruct Hin as [Hin|Hin].
      * left. eapply isRenameOf_renameHistory; eauto.
      * right. eauto.
Qed.
Lemma noResources_checkpointProject chk : noResources chk -> checkpointProject E chk = "".
Proof.
  unfold checkpointProject. intros [->|(latest & -> & ->)]; reflexivity.
Qed.

Lemma migrates_not_WriteAll olds tr key data a :
  Forall (migrates olds) tr -> (cWriteAll key data, a) ∉ tr.
Proof.
  intros Hall Hin. rewrite Forall_forall in Hall.
  destruct (Hall _ Hin) as (_ & Hw & _). eapply Hw. reflexivity.
Qed.

Lemma migrates_source olds tr e old :
  Forall (migrates olds) tr -> e ∈ tr -> source e.1 = Some old -> old ∈ olds.
Proof.
  intros Hall Hin. rewrite Forall_forall in Hall.
  destruct (Hall _ Hin) as (Hs & _). apply Hs.
Qed.

Lemma Upgrade_holds b s : post (Upgrade E b) s (migration b s).
Proof using HL.
  unfold Upgrade, callE. apply post_bind, post_call. simpl.
  destruct (ListReferences E legacyReferenceStore (world s)) as [[olds|err] w1] eqn:Hlist;
    simpl.
  2: { apply post_ret. exists (Err err), []. split_all;
      try reflexivity; try (rewrite Hlist; reflexivity).
       - intros e [= ->]. auto.
       - discriminate. }
  eapply post_bind_cut; [apply Upgrade_loop_holds| |].
  2: { intros msg s1 (tr & done & rest & _ & _ & [err Hout] & _). discriminate. }
  intros err s1 (tr & done & rest & Htr & Holds & _ & Hrest & Hkeep & Hmig & Hdone
                 & Hfail & Hrenamed).
  simpl in Htr, Hkeep.
  destruct err as [err|].
  { apply post_ret. exists (Ok olds), tr. split_all;
      try reflexivity; try (rewrite Hlist; reflexivity).
    - rewrite Htr, <- app_assoc. reflexivity.
    - discriminate.
    - intros ? [= <-]. exists done, rest. split_all.
      + exact Holds.
      + exact Hdone.
      + intros old chk Hin Hno.
        specialize (Hfail old chk Hin (noResources_checkpointProject chk Hno)).
        injection Hfail as ->. reflexivity.
      + intros key data a Hin. exfalso. eapply migrates_not_WriteAll; eauto.
      + discriminate.
      + intros e b' [= <- <-]. split; [reflexivity|].
        intros data. eapply migrates_not_WriteAll; eauto.
      + intros _. split; [eauto|]. intros key data a.
        eapply migrates_not_WriteAll; eauto.
      + intros e old. eapply migrates_source; eauto.
      + exact Hrenamed. }
  specialize (Hrest eq_refl). subst rest.
  destruct (yaml_Marshal E {| Version := 1 |}) as [data|merr] eqn:Hyaml.
  2: { apply post_panic. exists (Ok olds), tr. split_all;
      try reflexivity; try (rewrite Hlist; reflexivity).
       - rewrite Htr, <- app_assoc. reflexivity.
       - discriminate.
       - intros ? [= <-]. exists done, []. split_all.
         + exact Holds.
         + exact Hdone.
         + intros old chk Hin Hno.
           specialize (Hfail old chk Hin (noResources_checkpointProject chk Hno)).
           discriminate.
         + intros key data a Hin. exfalso. eapply migrates_not_WriteAll; eauto.
         + discriminate.
         + discriminate.
         + intros Hne. contradiction.
         + intros e old. eapply migrates_source; eauto.
         + exact Hrenamed. }
  apply post_bind, post_call. simpl.
  destruct (bucket_WriteAll E "Pulumi.yaml" data (world s1)) as [werr w2] eqn:Hwrite.
  simpl.
  assert (listed w2 ⊆ listed (world s1)) as Hw2 by (keeps_facts HL; assumption).
  assert (forall key d a,
            (cWriteAll key d, a) ∈ (tr ++ [manifestWrite data werr])%list ->
            key = "Pulumi.yaml" /\ d = data /\ a = aError werr) as Hmanifest.
  { intros key d a Hin. apply elem_of_app in Hin. destruct Hin as [Hin|Hin].
    - exfalso. eapply migrates_not_WriteAll; eauto.
    - elem_inv Hin. injection Hin as -> -> ->. auto. }
  assert (forall old, old ∈ done ->
            migrated (tr ++ [manifestWrite data werr]) old /\ old ∉ listed w2) as Hdone'.
  { intros old Hin. destruct (Hdone old Hin) as [Hm Hg]. split.
    - eapply migrated_mono; [|exact Hm]. intros e He. apply elem_of_app. left. exact He.
    - intros Ho. apply Hg, Hw2, Ho. }
  assert (forall e old, e ∈ (tr ++ [manifestWrite data werr])%list ->
            source e.1 = Some old -> old ∈ olds) as Hsource.
  { intros e old Hin. apply elem_of_app in Hin. destruct Hin as [Hin|Hin].
    - eapply migrates_source; eauto.
    - elem_inv Hin. subst e. discriminate. }
  assert (forall old chk,
            (cgetCheckpoint old, aCheckpoint (Ok chk)) ∈ (tr ++ [manifestWrite data werr])%list ->
            noResources chk -> False) as Hnone.
  { intros old chk Hin Hno. apply elem_of_app in Hin. destruct Hin as [Hin|Hin].
    - specialize (Hfail old chk Hin (noResources_checkpointProject chk Hno)).
      discriminate.
    - elem_inv Hin. discriminate. }
  assert (forall old new,
            (crenameHistory old new, aError None) ∈ (tr ++ [manifestWrite data werr])%list ->
            old ∈ done) as Hrenamed'.
  { intros old new Hin. apply elem_of_app in Hin. destruct Hin as [Hin|Hin].
    - eauto.
    - elem_inv Hin. discriminate. }
  destruct werr as [werr|]; apply post_ret.
  - exists (Ok olds), (tr ++ [manifestWrite data (Some werr)])%list.
    split_all; try (rewrite Hlist; reflexivity); try discriminate.
    { simpl. rewrite Htr, <- !app_assoc. reflexivity. }
    intros ? [= <-]. exists done, []. split_all.
    + exact Holds.
    + exact Hdone'.
    + intros old chk Hin Hno. exfalso. eapply Hnone; eauto.
    + intros key d a Hin. destruct (Hmanifest _ _ _ Hin) as (-> & -> & ->).
      split_all; try reflexivity; [exact Hyaml|apply last_snoc].
    + discriminate.
    + intros e b' [= <- <-]. split; [reflexivity|].
      intros d Hin. destruct (Hmanifest _ _ _ Hin) as (_ & _ & Ha). discriminate.
    + intros Hne. contradiction.
    + exact Hsource.
    + exact Hrenamed'.
  - exists (Ok olds), (tr ++ [manifestWrite data None])%list.
    split_all; try (rewrite Hlist; reflexivity); try discriminate.
    { simpl. rewrite Htr, <- !app_assoc. reflexivity. }
    intros ? [= <-]. exists done, []. split_all.
    + exact Holds.
    + exact Hdone'.
    + intros old chk Hin Hno. exfalso. eapply Hnone; eauto.
    + intros key d a Hin. destruct (Hmanifest _ _ _ Hin) as (-> & -> & ->).
      split_all; try reflexivity; [exact Hyaml|apply last_snoc].
    + intros b' [= <-]. split_all; try reflexivity.
      exists data. apply elem_of_app. right. left.
    + discriminate.
    + intros Hne. contradiction.
    + exact Hsource.
    + exact Hrenamed'.
Qed.

End UpgradeFacts.

(** **** The run of [Upgrade] from what its collaborators answer *)

Section UpgradeRun.
Context {W : Type} (E : Env W).

(** The snapshot that [renameStack] saves under the new name: the URNs of
    the old one renamed, or none when there was none. *)
Definition renamedSnapshot (snap : option Snapshot) (newName : string)
  : result (option Snapshot) :=
  match snap with
  | Some sn =>
      match edit_RenameStack E sn newName "" with
      | Ok sn' => Ok (Some sn')
      | Err err => Err err
      end
  | None => Ok None
  end.

Definition locked (old : localBackendReference) (err : option error) : Entry :=
  (cLock (localRef old), aError err).

Definition unlocked (old : localBackendReference) : Entry :=
  (cUnlock (localRef old), aUnit).

(** The calls of a [renameStack] that moved [old] to [new], in order. *)
Definition moved (old new : localBackendReference) (snap : option Snapshot)
    (file : string) (snap' : option Snapshot) (path bck : string) : list Entry :=
  [locked old None;
   (cgetStack old, aStack (Ok (snap, file)));
   (cExists (stackPath E new), aBool (Ok false));
   (csaveStack new snap', aString (Ok path));
   (cbackupTarget (stackPath E old) false, aText bck);
   (crenameHistory old new, aError None);
   unlocked old].

(** The calls of a [renameStack] that failed with [err], in order: up to the
    answer that made it fail, and the release of the lock if it was held. *)
Inductive renameFailed (b : localBackend) (old new : localBackendReference)
  : list Entry -> error -> Prop :=
| lock_refused err :
    renameFailed b old new [locked old (Some err)] err
| stack_unread err :
    renameFailed b old new
      [locked old None; (cgetStack old, aStack (Err err)); unlocked old] err
| destination_unchecked snap file err :
    renameFailed b old new
      [locked old None; (cgetStack old, aStack (Ok (snap, file)));
       (cExists (stackPath E new), aBool (Err err)); unlocked old] err
| destination_exists snap file :
    renameFailed b old new
      [locked old None; (cgetStack old, aStack (Ok (snap, file)));
       (cExists (stackPath E new), aBool (Ok true)); unlocked old]
      (errNew ("a stack named " ++ localBackendReference_String b new
               ++ " already exists"))
| snapshot_unrenamed snap file err :
    renamedSnapshot snap (name new) = Err err ->
    renameFailed b old new
      [locked old None; (cgetStack old, aStack (Ok (snap, file)));
       (cExists (stackPath E new), aBool (Ok false)); unlocked old] err
| stack_unsaved snap file snap' err :
    renamedSnapshot snap (name new) = Ok snap' ->
    renameFailed b old new
      [locked old None; (cgetStack old, aStack (Ok (snap, file)));
       (cExists (stackPath E new), aBool (Ok false));
       (csaveStack new snap', aString (Err err)); unlocked old] err
| history_unrenamed snap file snap' path bck err :
    renamedSnapshot snap (name new) = Ok snap' ->
    renameFailed b old new
      [locked old None; (cgetStack old, aStack (Ok (snap, file)));
       (cExists (stackPath E new), aBool (Ok false));
       (csaveStack new snap', aString (Ok path));
       (cbackupTarget (stackPath E old) false, aText bck);
       (crenameHistory old new, aError (Some err)); unlocked old] err.

Lemma renameStack_run b old new (s : St W Entry) :
  exists out w' tr,
    renameStack E b old new s
    = (Returns out, {| world := w'; calls := (calls s ++ tr)%list |})
    /\ match out with
       | None =>
           exists snap file snap' path bck,
             renamedSnapshot snap (name new) = Ok snap'
             /\ tr = moved old new snap file snap' path bck
       | Some err => renameFailed b old new tr err
       end.
Proof.
  unfold renameStack, callE. unfold_monad.
  repeat split_match.
  all: eexists _, _, _; (split; [rewrite <- ?app_assoc; reflexivity|]); simpl.
  all: repeat match goal with u : unit |- _ => destruct u end.
  all: try match goal with |- match ?o with _ => _ end => destruct o end.
  all: cbv [reply Reply_unit Reply_error Reply_stack Reply_string Reply_text Reply_bool].
  all: unfold renamedSnapshot.
  all: try (eexists _, _, _, _, _; split; [|reflexivity]).
  all: try solve [ simpl;
                   repeat match goal with H : _ = _ |- _ => rewrite H end; reflexivity ].
  all: try solve [ econstructor; unfold renamedSnapshot; simpl;
                   repeat match goal with H : _ = _ |- _ => rewrite H end; reflexivity ].
Qed.


(** The calls of the migration of the legacy stack [old], when it succeeds:
    its checkpoint is read and names a project, and the stack is moved under
    that project. *)
Definition migrationOf (old : localBackendReference) (seg : list Entry) : Prop :=
  exists chk snap file snap' path bck,
    checkpointProject E chk <> ""
    /\ renamedSnapshot snap (name (target E chk old)) = Ok snap'
    /\ seg = (cgetCheckpoint old, aCheckpoint (Ok chk))
             :: moved old (target E chk old) snap file snap' path bck.

(** The calls of the migration of [old] when it fails with [err]: the
    checkpoint cannot be read, or names no project, or the move fails. *)
Definition migrationFailed (b : localBackend) (old : localBackendReference)
    (seg : list Entry) (err : error) : Prop :=
  (seg = [(cgetCheckpoint old, aCheckpoint (Err err))])
  \/ (exists chk,
        seg = [(cgetCheckpoint old, aCheckpoint (Ok chk))]
        /\ checkpointProject E chk = "" /\ err = noProject b old)
  \/ (exists chk tr e,
        checkpointProject E chk <> ""
        /\ seg = (cgetCheckpoint old, aCheckpoint (Ok chk)) :: tr
        /\ renameFailed b old (target E chk old) tr e
        /\ err = errWrap ("upgrade stack " ++ localBackendReference_String b old
                          ++ " to "
                          ++ localBackendReference_String b (target E chk old)) e).

(** How far a migration of [olds] got: the stacks [done] were migrated, in
    order, with the calls [segs]; [rest] was left, because its first stack
    failed with the calls [tail] and the error [out], unless none was left. *)
Definition migratedUpTo (b : localBackend) (olds done rest : list localBackendReference)
    (segs : list (list Entry)) (tail : list Entry) (out : option error) : Prop :=
  olds = (done ++ rest)%list
  /\ Forall2 migrationOf done segs
  /\ match rest with
     | [] => tail = [] /\ out = None
     | old :: _ => exists err, migrationFailed b old tail err /\ out = Some err
     end.

Lemma Upgrade_loop_run b olds (s : St W Entry) :
  exists out w' done rest segs tail,
    Upgrade_loop E b olds s
    = (Returns out, {| world := w'; calls := (calls s ++ concat segs ++ tail)%list |})
    /\ migratedUpTo b olds done rest segs tail out.
Proof.
  revert s. induction olds as [|old olds IH]; intros s; simpl.
  - exists None, (world s), [], [], [], []. simpl. rewrite app_nil_r.
    destruct s. split; [reflexivity|].
    unfold migratedUpTo. split_all; try reflexivity. constructor.
  - unfold callE at 1. rewrite run_bind, run_call. cbn [fst snd world calls].
    cbv [reply Reply_checkpoint].
    match goal with
    | |- context [getCheckpoint E old ?w] =>
        destruct (getCheckpoint E old w) as [[chk|err] w1]; cbn [fst snd]
    end.
    2: { exists (Some err), w1, [], (old :: olds), [], [(cgetCheckpoint old, aCheckpoint (Err err))].
         split; [reflexivity|]. unfold migratedUpTo. split_all; [reflexivity|constructor|].
         exists err. split; [left; reflexivity|reflexivity]. }
    destruct (decide (checkpointProject E chk = "")) as [Hnone|Hproj].
    { exists (Some (noProject b old)), w1, [], (old :: olds), [],
             [(cgetCheckpoint old, aCheckpoint (Ok chk))].
      split; [reflexivity|]. unfold migratedUpTo. split_all; [reflexivity|constructor|].
      eexists. split; [right; left; eauto|reflexivity]. }
    rewrite run_bind.
    match goal with
    | |- context [renameStack E b old ?new ?s1] =>
        destruct (renameStack_run b old new s1) as (out & w2 & tr & -> & Hout)
    end.
    cbn [fst snd world calls] in *.
    destruct out as [err|].
    { eexists _, w2, [], (old :: olds), [], (_ :: tr).
      split; [unfold ret; rewrite <- app_assoc; reflexivity|].
      unfold migratedUpTo. split_all; [reflexivity|constructor|].
      eexists. split; [right; right; eauto 10|reflexivity]. }
    destruct Hout as (snap & file & snap' & path & bck & Hsnap & ->).
    match goal with
    | |- context [Upgrade_loop E b olds ?s2] =>
        destruct (IH s2) as (out & w3 & done & rest & segs & tail & -> & Holds)
    end.
    cbn [calls].
    exists out, w3, (old :: done), rest,
           (((cgetCheckpoint old, aCheckpoint (Ok chk))
             :: moved old (target E chk old) snap file snap' path bck) :: segs), tail.
    split.
    { cbn [concat]. rewrite <- !app_assoc. reflexivity. }
    destruct Holds as (Holds & Hdone & Hrest). unfold migratedUpTo. split_all.
    + rewrite Holds. reflexivity.
    + constructor; [|exact Hdone]. exists chk, snap, file, snap', path, bck. auto.
    + exact Hrest.
Qed.

(** The run of [Upgrade], from the answer of the listing. *)
Lemma Upgrade_run b w :
  let r := run (Upgrade E b) w in
  let listing := ListReferences E legacyReferenceStore w in
  let listed := (cListReferences legacyReferenceStore, aRefs listing.1) in
  (forall err, listing.1 = Err err ->
     r = (Returns (Some (errWrap "read old references" err), b),
          {| world := listing.2; calls := [listed] |}))
  /\ (forall olds, listing.1 = Ok olds ->
        exists done rest segs tail out,
          migratedUpTo b olds done rest segs tail out
          /\ match out, yaml_Marshal E {| Version := 1 |} with
             | Some err, _ =>
                 calls r.2 = (listed :: concat segs ++ tail)%list
                 /\ r.1 = Returns (Some err, b)
             | None, Err _ =>
                 calls r.2 = (listed :: concat segs)%list
                 /\ r.1 = Panics "Could not marshal filestate.pulumiState to yaml"
             | None, Ok data =>
                 exists werr,
                   calls r.2 = (listed :: concat segs ++ [manifestWrite data werr])%list
                   /\ r.1 = Returns
                              match werr with
                              | Some err =>
                                  (Some (errWrap "could not write 'Pulumi.yaml'" err), b)
                              | None => (None, set_store b projectReferenceStore)
                              end
             end).
Proof.
  cbv zeta. unfold run, Upgrade, callE. rewrite run_bind, run_call.
  cbn [fst snd world calls app]. cbv [reply Reply_refs].
  destruct (ListReferences E legacyReferenceStore w) as [[olds|err] w1]; cbn [fst snd].
  2: { split; [|discriminate]. intros ? [= <-]. reflexivity. }
  split; [discriminate|]. intros ? [= <-]. rewrite run_bind.
  match goal with
  | |- context [Upgrade_loop E b olds ?s1] =>
      destruct (Upgrade_loop_run b olds s1)
        as (out & w2 & done & rest & segs & tail & -> & Hup)
  end.
  exists done, rest, segs, tail, out. split; [exact Hup|].
  cbn [calls app]. destruct out as [err|].
  { split; reflexivity. }
  destruct Hup as (_ & _ & Hrest). destruct rest as [|old rest].
  2: { destruct Hrest as (? & _ & [=]). }
  destruct Hrest as [-> _]. rewrite app_nil_r.
  destruct (yaml_Marshal E {| Version := 1 |}) as [data|merr].
  2: { split; reflexivity. }
  rewrite run_bind, run_call. cbn [fst snd world calls]. cbv [reply Reply_error].
  destruct (bucket_WriteAll E "Pulumi.yaml" data w2) as [[werr|] w3]; cbn [fst snd].
  - exists (Some werr). split; reflexivity.
  - exists None. split; reflexivity.
Qed.

End UpgradeRun.


(** *** Applying an update *)

Definition isHistoryAppend (e : Entry) : Prop :=
  exists ref info, e.1 = caddToHistory ref info.

Definition isBackup (e : Entry) : Prop :=
  exists ref, e.1 = cbackupStack ref.

Definition isEngine (e : Entry) : Prop :=
  exists op dryRun, e.1 = cengine op dryRun.

(** A call that is neither to the engine, nor an append to the history, nor
    a backup of the checkpoint. *)
Definition quiet (e : Entry) : Prop :=
  ~ isEngine e /\ ~ isHistoryAppend e /\ ~ isBackup e.

Ltac quiet_entry :=
  unfold quiet, isEngine, isHistoryAppend, isBackup; simpl; split_all;
  (let H := fresh in intros H;
   repeat match type of H with ex _ => destruct H as [? H] end; discriminate).

Section ApplyFacts.
Context {W : Type} (E : Env W).

Lemma forwardEvents_emits events evs : emits quiet (forwardEvents (W:=W) events evs).
Proof.
  induction evs as [|e evs IH]; simpl; unfold callE.
  - emits_step.
  - repeat (emits_step; try assumption); quiet_entry.
Qed.

Lemma forwardEvents_returns events evs : returns (forwardEvents (W:=W) events evs).
Proof.
  induction evs as [|e evs IH]; simpl; unfold callE;
    repeat (returns_step; try assumption).
Qed.

Lemma printPermalink_emits b ref op opts : emits quiet (printPermalink E b ref op opts).
Proof.
  unfold printPermalink, callE. repeat (emits_step; try quiet_entry).
Qed.

Lemma printPermalink_returns b ref op opts : returns (printPermalink E b ref op opts).
Proof. unfold printPermalink, callE. repeat returns_step. Qed.

Lemma getReference_emits b ref : emits quiet (getReference E b ref).
Proof. unfold getReference, callE. repeat (emits_step; try quiet_entry). Qed.

Lemma currentProjectContradictsWorkspace_emits ref :
  emits quiet (currentProjectContradictsWorkspace E ref).
Proof.
  unfold currentProjectContradictsWorkspace, callE.
  repeat (emits_step; try quiet_entry).
Qed.

Lemma currentProjectContradictsWorkspace_returns ref :
  returns (currentProjectContradictsWorkspace E ref).
Proof. unfold currentProjectContradictsWorkspace, callE. repeat returns_step. Qed.

End ApplyFacts.

#[global] Hint Resolve forwardEvents_returns printPermalink_returns : returns.
#[global] Hint Resolve forwardEvents_emits printPermalink_emits getReference_emits
  currentProjectContradictsWorkspace_emits : emits.

(** **** The run of [apply] from what its collaborators answer *)

Section ApplyRun.
Context {W : Type} (E : Env W).

(** The engine's entry point that [apply] dispatches a kind of update to,
    and whether it is asked for a dry run; a preview is always one. *)
Definition engineOf (kind : UpdateKind) (opts : ApplierOptions) : option (EngineOp * bool) :=
  match kind with
  | PreviewUpdate => Some (engine_Update, true)
  | UpdateUpdate => Some (engine_Update, DryRun opts)
  | ResourceImportUpdate => Some (engine_Import, DryRun opts)
  | RefreshUpdate => Some (engine_Refresh, DryRun opts)
  | DestroyUpdate => Some (engine_Destroy, DryRun opts)
  | otherUpdateKind _ => None
  end.

(** The banner that [apply] prints before it starts the update, unless the
    display is JSON or a watch. *)
Definition banner (b : localBackend) (kind : UpdateKind) (stackRef : StackReference)
    (op : UpdateOperation) (opts : ApplierOptions) : M W Entry unit :=
  if negb (JSONDisplay (op_Display op)
           || match Type_ (op_Display op) with DisplayWatch => true | _ => false end)
  then
    let format := Colorize E (colors_SpecHeadline E ++ "%s (%s):" ++ colors_Reset E ++ LF) in
    callE (cPrintf format [ActionLabel E kind (DryRun opts);
                           StackReference_String b stackRef])
          (Printf E format [ActionLabel E kind (DryRun opts);
                            StackReference_String b stackRef])
  else ret tt.

(** The events of the engine as [apply] forwards them: each to the display
    and, when the caller gave a channel, to the caller. *)
Definition forwarded (events : bool) (engineEvents : list Event) : list Entry :=
  flat_map (fun e => (cdisplayEvent e, aUnit)
                     :: if events then [(ccallerEvent e, aUnit)] else [])
           engineEvents.

Lemma forwardEvents_run events evs (s : St W Entry) :
  forwardEvents events evs s
  = (Returns tt, {| world := world s; calls := (calls s ++ forwarded events evs)%list |}).
Proof.
  revert s. induction evs as [|e evs IH]; intros s; simpl.
  - unfold ret. rewrite app_nil_r. destruct s; reflexivity.
  - unfold callE. rewrite run_bind, run_call. cbn [fst snd world calls].
    rewrite run_bind. destruct events.
    + rewrite run_call. cbn [fst snd world calls]. rewrite IH. cbn [world calls].
      rewrite <- !app_assoc. reflexivity.
    + unfold ret at 1. rewrite IH. cbn [world calls]. rewrite <- !app_assoc. reflexivity.
Qed.

(** A run that does not panic and only makes quiet calls. *)
Lemma quiet_run {A} (m : M W Entry A) (s : St W Entry) :
  emits quiet m -> returns m ->
  exists a w' tr,
    m s = (Returns a, {| world := w'; calls := (calls s ++ tr)%list |})
    /\ Forall quiet tr.
Proof.
  intros He Hr. destruct (He s) as (tr & Htr & Hq). destruct (Hr s) as (a & Hret).
  destruct (m s) as [out [w' l]]. simpl in *. subst.
  exists a, w', tr. auto.
Qed.

Lemma printPermalink_run b ref op opts (s : St W Entry) :
  exists w' tr,
    printPermalink E b ref op opts s
    = (Returns tt, {| world := w'; calls := (calls s ++ tr)%list |})
    /\ Forall quiet tr.
Proof.
  destruct (quiet_run (printPermalink E b ref op opts) s) as ([] & w' & tr & H);
    [apply printPermalink_emits|apply printPermalink_returns|eauto].
Qed.

Lemma banner_run b kind stackRef op opts (s : St W Entry) :
  exists w' tr,
    banner b kind stackRef op opts s
    = (Returns tt, {| world := w'; calls := (calls s ++ tr)%list |})
    /\ Forall quiet tr.
Proof.
  destruct (quiet_run (banner b kind stackRef op opts) s) as ([] & w' & tr & H);
    [| |eauto].
  - unfold banner, callE. repeat (emits_step; try quiet_entry).
  - unfold banner, callE. repeat returns_step.
Qed.

Lemma forwarded_quiet events evs : Forall quiet (forwarded events evs).
Proof.
  induction evs as [|e evs IH]; simpl; [constructor|].
  apply Forall_cons. split; [quiet_entry|].
  destruct events; simpl; [apply Forall_cons; split; [quiet_entry|]|]; exact IH.
Qed.

(** What [apply] returns after the engine: the engine's failure if it
    failed, else the failure to append to the history, else the failure to back
    up, else nothing. *)
Definition ranked (res : option Result) (saveErr backupErr : option error)
  : option Result :=
  match res, saveErr, backupErr with
  | Some res, _, _ => Some res
  | None, Some err, _ => Some (FromError (errWrap "saving update info" err))
  | None, None, Some err => Some (FromError (errWrap "saving backup" err))
  | None, None, None => None
  end.

End ApplyRun.

Ltac norm_run H :=
  cbv [reply Reply_unit Reply_error Reply_refs Reply_stack Reply_checkpoint
       Reply_string Reply_text Reply_bool Reply_objects Reply_meta Reply_project
       Reply_update Reply_time Reply_engine] in H;
  cbn [fst snd world calls] in H.

Ltac run_leaf H :=
  norm_run H; rewrite H; unfold ret; cbn [fst snd calls world];
  repeat (progress (rewrite <- ?app_assoc; cbn [app])); rewrite ?app_nil_r;
  split; reflexivity.

(** C1, amended.  [apply] on a reference of another backend, on a
    reference that does not validate, on a stack of another project than the
    workspace's, or of which the update cannot be set up, returns that error
    having made quiet calls only: nothing is appended to the history and nothing
    backed up; the comparison with the workspace's project always answers.
    Otherwise it runs the engine, for the kind of update (an
    unrecognized kind panics), forwards its events and reads the clock; up to
    there no call appended or backed up.  Then, exactly when the operation is
    not a dry run, and whether the engine reported success or failure, it
    appends to the history of this stack the record of this update (its kind,
    message, environment and configuration, the times read, the engine's
    changes, and the result: failed or succeeded) and then backs up the
    checkpoint of this stack; nothing else is appended or backed up.  What is
    returned is the engine's failure if it failed, whatever the append and the
    backup did; else the append's error, wrapped as "saving update info",
    whatever the backup did; else the backup's error, wrapped as "saving
    backup"; else no error. *)
Theorem apply_records_once_the_engine_has_run {W : Type} (E : Env W) b kind stack
    op opts events w :
  let r := run (apply E b kind stack op opts events) w in
  (forall fqn, Ref stack = foreignRef fqn ->
     r = (Returns (None, [], Some (FromError (errNew "bad stack reference type"))),
          {| world := w; calls := [] |}))
  /\ (forall ref, Ref stack = localRef ref ->
        let valid := ValidateReference E ref w in
        let validated := (cValidateReference ref, aError valid.1) in
        (forall err, valid.1 = Some err ->
           r = (Returns (None, [], Some (FromError err)),
                {| world := valid.2; calls := [validated] |}))
        /\ (valid.1 = None ->
            let c := currentProjectContradictsWorkspace E ref
                       {| world := valid.2; calls := [validated] |} in
            Forall quiet (calls c.2)
            /\ (exists contradicts, c.1 = Returns contradicts)
            /\ (c.1 = Returns true ->
                r = (Returns (None, [],
                              Some (FromError (errNew
                                ("provided project name " ++ strconv_Quote E (project ref)
                                 ++ " doesn't match Pulumi.yaml")))), c.2))
            /\ (c.1 = Returns false ->
                let s2 := (banner E b kind (Ref stack) op opts c.2).2 in
                let started := newUpdate E ref op (world s2) in
                Forall quiet (calls s2)
                /\ (forall err, started.1 = Err err ->
                      r = (Returns (None, [], Some (FromError err)),
                           {| world := started.2;
                              calls := (calls s2
                                        ++ [(cnewUpdate ref, aUpdate (Err err))])%list |}))
                /\ (forall update, started.1 = Ok update ->
                      let start := time_Now E started.2 in
                      let before := (calls s2 ++ [(cnewUpdate ref, aUpdate (Ok update));
                                                  (cNow, aTime start.1)])%list in
                      (forall k, kind = otherUpdateKind k ->
                         r = (Panics ("Unrecognized update kind: " ++ k),
                              {| world := start.2; calls := before |}))
                      /\ (forall engineOp dryRun,
                            engineOf kind opts = Some (engineOp, dryRun) ->
                            let o := engine E engineOp update op dryRun start.2 in
                            let end_ := time_Now E o.2 in
                            let info :=
                              {| ui_Kind := kind; ui_StartTime := start.1;
                                 ui_Message := op_Message op;
                                 ui_Environment := op_Environment op;
                                 ui_Config := target_Config update;
                                 ui_Result := match eng_res o.1 with
                                              | Some _ => FailedResult
                                              | None => SucceededResult
                                              end;
                                 ui_EndTime := end_.1;
                                 ui_ResourceChanges := eng_changes o.1 |} in
                            let saved := addToHistory E ref info end_.2 in
                            let backed := backupStack E ref saved.2 in
                            let ran := (before
                                        ++ (cengine engineOp dryRun, aEngine o.1)
                                        :: forwarded events (eng_events o.1)
                                        ++ [(cNow, aTime end_.1)])%list in
                            let plan := match kind with
                                        | PreviewUpdate => eng_plan o.1
                                        | _ => None
                                        end in
                            exists rest,
                              Forall quiet rest
                              /\ (DryRun opts = true ->
                                  calls r.2 = (ran ++ rest)%list
                                  /\ r.1 = Returns (plan, eng_changes o.1, eng_res o.1))
                              /\ (DryRun opts = false ->
                                  calls r.2
                                  = (ran ++ [(caddToHistory ref info, aError saved.1);
                                             (cbackupStack ref, aError backed.1)]
                                         ++ rest)%list
                                  /\ r.1 = Returns (plan, eng_changes o.1,
                                                    ranked (eng_res o.1) saved.1
                                                           backed.1))))))).
Proof.
  cbv zeta. unfold run.
  set (r := apply E b kind stack op opts events {| world := w; calls := [] |}).
  assert (r = apply E b kind stack op opts events {| world := w; calls := [] |}) as Hr
    by reflexivity.
  clearbody r. unfold apply in Hr. split.
  - intros fqn Href. rewrite Href in Hr. exact Hr.
  - intros ref Href. rewrite Href in *. rewrite run_bind in Hr.
    unfold getReference at 1, callE at 1 in Hr.
    rewrite run_bind, run_call in Hr. norm_run Hr. cbn [app] in Hr.
    destruct (ValidateReference E ref w) as [[err|] w0]; cbn [fst snd] in *.
    { split; [|discriminate]. intros ? [= <-]. exact Hr. }
    split; [discriminate|]. intros _. unfold ret at 1 in Hr. cbv beta iota in Hr. rewrite run_bind in Hr.
    pose proof (currentProjectContradictsWorkspace_emits E ref
                  {| world := w0; calls := [(cValidateReference ref, aError None)] |})
      as (trc & Htrc & Hqc).
    pose proof (currentProjectContradictsWorkspace_returns E ref
                  {| world := w0; calls := [(cValidateReference ref, aError None)] |})
      as (contradicts & Hc).
    destruct (currentProjectContradictsWorkspace E ref
                {| world := w0; calls := [(cValidateReference ref, aError None)] |})
      as [c s1]. cbn [fst snd] in *.
    assert (Forall quiet (calls s1)) as Hs1.
    { rewrite Htrc. apply Forall_cons. split; [quiet_entry|exact Hqc]. }
    clear Htrc Hqc trc.
    split; [exact Hs1|]. split; [eauto|]. clear Hc contradicts. split.
    { intros ->. exact Hr. }
    intros ->. rewrite run_bind in Hr.
    match type of Hr with
    | context [match ?m s1 with _ => _ end] =>
        change m with (banner E b kind (localRef ref) op opts) in Hr
    end.
    destruct (banner_run E b kind (localRef ref) op opts s1) as (w2 & trb & Hb & Hqb).
    rewrite Hb in *. cbn [fst snd world calls] in *.
    assert (Forall quiet (calls s1 ++ trb)) as Hs2 by (apply Forall_app; auto).
    split; [exact Hs2|].
    clear Hb Hqb. revert Hr Hs2. generalize (calls s1 ++ trb)%list. intros l2 Hr Hs2.
    unfold callE at 1 in Hr. rewrite run_bind, run_call in Hr.
    cbn [fst snd world calls] in Hr.
    destruct (newUpdate E ref op w2) as [[update|err] w3]; cbn [fst snd] in *.
    2: { split; [|discriminate]. intros ? [= <-]. exact Hr. }
    split; [discriminate|]. intros ? [= <-].
    unfold callE at 1 in Hr. rewrite run_bind, run_call in Hr.
    cbn [fst snd world calls] in Hr.
    destruct (time_Now E w3) as [start w4]; cbn [fst snd] in *.
    rewrite <- !app_assoc in Hr. cbn [app] in Hr. rewrite run_bind in Hr. split.
    { intros k Hk. rewrite Hk in Hr. rewrite <- ?app_assoc. exact Hr. }
    intros engineOp dryRun Hop.
    assert (exists plan,
              plan = match kind with
                     | PreviewUpdate => eng_plan (engine E engineOp update op dryRun w4).1
                     | _ => None
                     end
              /\ r = (let o := (engine E engineOp update op dryRun w4).1 in
                      let s5 := {| world := (engine E engineOp update op dryRun w4).2;
                                   calls := (l2 ++ [(cnewUpdate ref, aUpdate (Ok update));
                                                    (cNow, aTime start);
                                                    (cengine engineOp dryRun, aEngine o)])%list
                                |} in
                      (do _ <- forwardEvents events (eng_events o);;
                       do end_ <- callE cNow (time_Now E);;
                       do errs <-
                         (if negb (DryRun opts) then
                            do saveErr <-
                              callE (caddToHistory ref
                                       {| ui_Kind := kind; ui_StartTime := start;
                                          ui_Message := op_Message op;
                                          ui_Environment := op_Environment op;
                                          ui_Config := target_Config update;
                                          ui_Result := match eng_res o with
                                                       | Some _ => FailedResult
                                                       | None => SucceededResult
                                                       end;
                                          ui_EndTime := end_;
                                          ui_ResourceChanges := eng_changes o |})
                                    (addToHistory E ref
                                       {| ui_Kind := kind; ui_StartTime := start;
                                          ui_Message := op_Message op;
                                          ui_Environment := op_Environment op;
                                          ui_Config := target_Config update;
                                          ui_Result := match eng_res o with
                                                       | Some _ => FailedResult
                                                       | None => SucceededResult
                                                       end;
                                          ui_EndTime := end_;
                                          ui_ResourceChanges := eng_changes o |});;
                            do backupErr <- callE (cbackupStack ref) (backupStack E ref);;
                            ret (saveErr, backupErr)
                          else ret (None, None));;
                       let '(saveErr, backupErr) := errs in
                       match eng_res o with
                       | Some res => ret (plan, eng_changes o, Some res)
                       | None =>
                           match saveErr with
                           | Some saveErr =>
                               ret (plan, eng_changes o,
                                    Some (FromError (errWrap "saving update info" saveErr)))
                           | None =>
                               match backupErr with
                               | Some backupErr =>
                                   ret (plan, eng_changes o,
                                        Some (FromError (errWrap "saving backup" backupErr)))
                               | None =>
                                   do _ <- printPermalink E b ref op opts;;
                                   ret (plan, eng_changes o, None)
                               end
                           end
                       end) s5)) as (plan & Hplan & Hr').
    { eexists. split; [reflexivity|]. rewrite Hr. clear Hr.
      destruct kind; simpl in Hop; try discriminate; injection Hop as <- <-;
        unfold callE at 1; rewrite run_bind, run_call; cbn [fst snd world calls];
        unfold ret at 1; rewrite <- !app_assoc; reflexivity. }
    clear Hr. rename Hr' into Hr. cbv zeta in Hr.
    rewrite <- Hplan. clear Hplan.
    destruct (engine E engineOp update op dryRun w4) as [o w5]. cbn [fst snd] in *.
    rewrite run_bind, forwardEvents_run in Hr. cbn [fst snd world calls] in Hr.
    unfold callE at 1 in Hr. rewrite run_bind, run_call in Hr.
    cbn [fst snd world calls] in Hr.
    destruct (time_Now E w5) as [end_ w6]; cbn [fst snd] in *.
    rewrite run_bind in Hr.
    destruct (DryRun opts) eqn:Hdry; cbn [negb] in Hr.
    + unfold ret at 1 in Hr. cbv iota beta in Hr.
      destruct (eng_res o) as [res|] eqn:Hres.
      * exists []. split; [constructor|]. split; [|discriminate]. intros _.
        run_leaf Hr.
      * rewrite run_bind in Hr.
        match type of Hr with
        | context [printPermalink E b ref op opts ?s] =>
            destruct (printPermalink_run E b ref op opts s) as (w' & tr & Hp & Hq)
        end.
        rewrite Hp in Hr.
        exists tr. split; [exact Hq|]. split; [|discriminate]. intros _.
        run_leaf Hr.
    + unfold callE in Hr. rewrite !run_bind, run_call in Hr. norm_run Hr.
      match type of Hr with
      | context [addToHistory E ref ?i w6] =>
          destruct (addToHistory E ref i w6) as [saveErr w7]
      end.
      cbn [fst snd] in *. cbv beta iota in Hr.
      rewrite ?run_bind, run_call in Hr. norm_run Hr.
      destruct (backupStack E ref w7) as [backupErr w8]. cbn [fst snd] in *.
      unfold ret at 1 in Hr. cbv iota beta in Hr.
      destruct (eng_res o) as [res|] eqn:Hres;
        [|destruct saveErr as [saveErr|]; [|destruct backupErr as [backupErr|]]].
      1-3: exists []; (split; [constructor|]); (split; [discriminate|]); intros _;
        run_leaf Hr.
      rewrite run_bind in Hr.
      match type of Hr with
      | context [printPermalink E b ref op opts ?s] =>
          destruct (printPermalink_run E b ref op opts s) as (w' & tr & Hp & Hq)
      end.
      rewrite Hp in Hr.
      exists tr. split; [exact Hq|]. split; [discriminate|]. intros _.
      run_leaf Hr.
Qed.

End filestate_facts.

(** ** The service's secrets manager *)

Module service_facts.
Import workspace secrets service.

Section Facts.
Context {W : Type} (E : Env W).

Lemma decodeSecrets_app_bad acc good bad rest err :
  Forall (fun s => exists ct, DecodeString E s = Ok ct) good ->
  DecodeString E bad = Err err ->
  decodeSecrets E acc (good ++ bad :: rest) = Err err.
Proof.
  intros Hgood Hbad. revert acc.
  induction Hgood as [|s good [ct Hs] _ IH]; intros acc; simpl.
  - rewrite Hbad. reflexivity.
  - rewrite Hs. apply IH.
Qed.

Lemma decodeSecrets_all_good acc secrets cts :
  Forall2 (fun s ct => DecodeString E s = Ok ct) secrets cts ->
  decodeSecrets E acc secrets = Ok (acc ++ cts)%list.
Proof.
  intros H. revert acc.
  induction H as [|s ct secrets cts Hs _ IH]; intros acc; simpl.
  - rewrite app_nil_r. reflexivity.
  - rewrite Hs, IH, <- app_assoc. reflexivity.
Qed.

Lemma decodeSecrets_Err acc secrets err :
  decodeSecrets E acc secrets = Err err ->
  exists good bad rest,
    secrets = (good ++ bad :: rest)%list
    /\ Forall (fun s => exists ct, DecodeString E s = Ok ct) good
    /\ DecodeString E bad = Err err.
Proof.
  revert acc. induction secrets as [|s secrets IH]; intros acc; simpl; [discriminate|].
  destruct (DecodeString E s) as [ct|e] eqn:Hs.
  - intros H. destruct (IH _ H) as (good & bad & rest & -> & Hgood & Hbad).
    exists (s :: good), bad, rest. repeat split; eauto.
  - intros [= ->]. exists [], s, secrets. repeat split; eauto.
Qed.

End Facts.

(** C8.  [DecryptValue] and [BulkDecrypt] decode base64 first: a value that
    does not decode makes them return the decoder's error, with no plaintext
    and no map, without calling the service ([BulkDecrypt]: the error of the
    first such value); a value that decodes is sent to the service decoded.
    [EncryptValue] returns the base64 encoding of the service's
    ciphertext. *)
Theorem serviceCrypter_base64 {W : Type} (E : Env W) (c : serviceCrypter) :
  (forall cipherstring err w,
      DecodeString E cipherstring = Err err ->
      run (DecryptValue E c cipherstring) w
      = (Returns ("", Some err), {| world := w; calls := [] |}))
  /\ (forall cipherstring ciphertext w,
        DecodeString E cipherstring = Ok ciphertext ->
        run (DecryptValue E c cipherstring) w
        = let r := client_DecryptValue E (c_client c) (c_stack c) ciphertext w in
          (Returns match r.1 with
                   | Ok plaintext => (string_of_bytes plaintext, None)
                   | Err e => ("", Some e)
                   end,
           {| world := r.2; calls := [cDecryptValue (c_stack c) ciphertext] |}))
  /\ (forall good bad rest err w,
        Forall (fun s => exists ct, DecodeString E s = Ok ct) good ->
        DecodeString E bad = Err err ->
        run (BulkDecrypt E c (good ++ bad :: rest)) w
        = (Returns (None, Some err), {| world := w; calls := [] |}))
  /\ (forall secrets ciphertexts w,
        Forall2 (fun s ct => DecodeString E s = Ok ct) secrets ciphertexts ->
        run (BulkDecrypt E c secrets) w
        = let r := client_BulkDecryptValue E (c_client c) (c_stack c) ciphertexts w in
          (Returns match r.1 with
                   | Ok decryptedList => (Some (string_of_bytes <$> decryptedList), None)
                   | Err e => (None, Some e)
                   end,
           {| world := r.2; calls := [cBulkDecryptValue (c_stack c) ciphertexts] |}))
  /\ (forall plaintext w,
        run (EncryptValue E c plaintext) w
        = let r := client_EncryptValue E (c_client c) (c_stack c)
                     (bytes_of_string plaintext) w in
          (Returns match r.1 with
                   | Ok ciphertext => (EncodeToString E ciphertext, None)
                   | Err e => ("", Some e)
                   end,
           {| world := r.2;
              calls := [cEncryptValue (c_stack c) (bytes_of_string plaintext)] |})).
Proof.
  split_all.
  - intros cipherstring err w Hdec. unfold run, DecryptValue. rewrite Hdec. reflexivity.
  - intros cipherstring ciphertext w Hdec. unfold run, DecryptValue. rewrite Hdec.
    unfold_monad. destruct (client_DecryptValue E _ _ _ w) as [[pt|e] w']; reflexivity.
  - intros good bad rest err w Hgood Hbad. unfold run, BulkDecrypt.
    rewrite (decodeSecrets_app_bad E [] good bad rest err Hgood Hbad). reflexivity.
  - intros secrets cts w Hall. unfold run, BulkDecrypt.
    rewrite (decodeSecrets_all_good E [] secrets cts Hall). simpl.
    unfold_monad. destruct (client_BulkDecryptValue E _ _ _ w) as [[m|e] w']; reflexivity.
  - intros plaintext w. unfold run, EncryptValue. unfold_monad.
    destruct (client_EncryptValue E _ _ _ w) as [[ct|e] w']; reflexivity.
Qed.

(** What [NewServiceSecretsManager] gives back when it succeeds. *)
Definition theManager (client : Client) (id : StackIdentifier) : Manager :=
  serviceSecretsManager
    {| st_URL := client_URL client; st_Owner := id_Owner id;
       st_Project := id_Project id; st_Stack := id_Stack id |}
    (newServiceCrypter client id).

(** A descriptor with the three fields of the previous kind emptied. *)
Definition cleared (info : ProjectStack) : ProjectStack :=
  {| SecretsProvider := ""; EncryptedKey := ""; EncryptionSalt := "";
     Config := Config info |}.

Definition nothingToClear (info : ProjectStack) : Prop :=
  SecretsProvider info = "" /\ EncryptedKey info = "" /\ EncryptionSalt info = "".

#[global] Instance nothingToClear_dec info : Decision (nothingToClear info).
Proof. unfold nothingToClear. apply _. Defined.

Lemma changeProjectStackSecretDetails_spec (info : ProjectStack) :
  changeProjectStackSecretDetails info
  = (if decide (nothingToClear info) then (false, info) else (true, cleared info)).
Proof.
  destruct info as [sp ek es cfg]. unfold changeProjectStackSecretDetails, cleared.
  unfold nothingToClear. simpl.
  destruct (decide (sp = "")) as [->|Hsp], (decide (ek = "")) as [->|Hek],
    (decide (es = "")) as [->|Hes]; simpl;
    repeat match goal with
      | |- context [decide (?x <> "")] => destruct (decide (x <> "")); simpl
      | |- context [decide (?P /\ ?Q)] => destruct (decide (P /\ Q)); simpl
      end;
    try reflexivity; try tauto; try congruence.
Qed.

Lemma NewServiceSecretsManager_run {W : Type} (E : Env W) client id stackName
    configFile w project path w1 info w2 :
  stackName <> "" ->
  DetectProjectStackPath E stackName w = (Ok (project, path), w1) ->
  LoadProjectStack E project configFile w1 = (Ok info, w2) ->
  run (NewServiceSecretsManager E client id stackName configFile) w
  = if decide (nothingToClear info) then
      (Returns (Ok (theManager client id)),
       {| world := w2;
          calls := [cDetectProjectStackPath stackName;
                    cLoadProjectStack project configFile] |})
    else
      let r := SaveProjectStack E stackName (cleared info) w2 in
      (Returns match r.1 with
               | Some err => Err err
               | None => Ok (theManager client id)
               end,
       {| world := r.2;
          calls := [cDetectProjectStackPath stackName;
                    cLoadProjectStack project configFile;
                    cSaveProjectStack stackName (cleared info)] |}).
Proof.
  intros Hname Hdetect Hload. unfold NewServiceSecretsManager.
  destruct (decide (stackName = "")); [contradiction|].
  unfold_monad. rewrite Hdetect. simpl. rewrite Hload. simpl.
  rewrite changeProjectStackSecretDetails_spec.
  destruct (decide (nothingToClear info)); simpl; [reflexivity|].
  destruct (SaveProjectStack E stackName (cleared info) w2) as [[err|] w3]; reflexivity.
Qed.


(** C10.  Once the descriptor of a named stack is loaded,
    [NewServiceSecretsManager] calls [SaveProjectStack] exactly when one of
    [SecretsProvider], [EncryptedKey], [EncryptionSalt] is not empty; when all
    three are empty it makes no call besides the two that read, the world is
    the one those left, and the manager is returned. *)
Theorem config_rewritten_only_when_cleared {W : Type} (E : Env W) client id stackName
    configFile w project path w1 info w2 :
  stackName <> "" ->
  DetectProjectStackPath E stackName w = (Ok (project, path), w1) ->
  LoadProjectStack E project configFile w1 = (Ok info, w2) ->
  let r := run (NewServiceSecretsManager E client id stackName configFile) w in
  ((exists i, cSaveProjectStack stackName i ∈ calls r.2)
   <-> (SecretsProvider info <> "" \/ EncryptedKey info <> ""
        \/ EncryptionSalt info <> ""))
  /\ (forall n i, cSaveProjectStack n i ∈ calls r.2 ->
        n = stackName /\ i = cleared info)
  /\ (SecretsProvider info = "" -> EncryptedKey info = "" -> EncryptionSalt info = "" ->
      r = (Returns (Ok (theManager client id)),
           {| world := w2;
              calls := [cDetectProjectStackPath stackName;
                        cLoadProjectStack project configFile] |})).
Proof.
  intros Hname Hdetect Hload. cbv zeta.
  rewrite (NewServiceSecretsManager_run E client id stackName configFile w
             project path w1 info w2 Hname Hdetect Hload).
  destruct (decide (nothingToClear info)) as [(H1 & H2 & H3)|Hdirty]; simpl.
  - split_all.
    + split.
      * intros [i Hi]. elem_inv Hi; discriminate.
      * intros [?|[?|?]]; contradiction.
    + intros n i Hi. elem_inv Hi; discriminate.
    + reflexivity.
  - split_all.
    + split.
      * intros _. unfold nothingToClear in Hdirty.
        destruct (decide (SecretsProvider info = "")); [|tauto].
        destruct (decide (EncryptedKey info = "")); [|tauto].
        destruct (decide (EncryptionSalt info = "")); tauto.
      * intros _. exists (cleared info). elem_here.
    + intros n i Hi. elem_inv Hi; try discriminate.
      injection Hi as -> ->. auto.
    + intros H1 H2 H3. exfalso. apply Hdirty. repeat split; assumption.
Qed.

End service_facts.

(** ** Choosing a stack's secrets manager *)

Module crypto_facts.
Import workspace secrets crypto.

(** The provider recorded is one that names a cloud key: neither the
    passphrase kind, nor "default", nor empty. *)
Definition isCloudProvider {W : Type} (E : Env W) (ps : ProjectStack) : Prop :=
  SecretsProvider ps <> passphrase_Type E /\ SecretsProvider ps <> "default"
  /\ SecretsProvider ps <> "".

#[global] Instance isCloudProvider_dec {W : Type} (E : Env W) ps :
  Decision (isCloudProvider E ps).
Proof. unfold isCloudProvider. apply _. Defined.

(** What [getStackSecretsManager] returns once a constructor has answered:
    its error, or its manager inside a caching manager. *)
Definition cached (r : result Manager) : result Manager :=
  match r with
  | Ok sm => Ok (cachingSecretsManager sm)
  | Err err => Err err
  end.

(** C3.  Once the project, the stack's configuration [ps] and the path of
    its file are read, [getStackSecretsManager] calls one constructor and no
    other: the cloud one, with the provider recorded, when [SecretsProvider] is
    neither the passphrase kind, "default" nor empty; otherwise the prompting
    passphrase one when [EncryptionSalt] is not empty; otherwise the stack's
    default one.  It returns the constructor's error, or its manager inside a
    caching manager. *)
Theorem getStackSecretsManager_resolution_order {W : Type} (E : Env W) (s : Stack)
    w project path w1 ps w2 configFile w3 :
  readProject E w = (Ok (project, path), w1) ->
  loadProjectStack E project s w1 = (Ok ps, w2) ->
  getProjectStackPath E s w2 = (Ok configFile, w3) ->
  let reads := [creadProject; cloadProjectStack project s; cgetProjectStackPath s] in
  let chooses (made : result Manager * W) (c : Call) :=
    run (getStackSecretsManager E s) w
    = (Returns (cached made.1), {| world := made.2; calls := reads ++ [c] |}) in
  (isCloudProvider E ps ->
   chooses (NewCloudSecretsManager E (Ref_Name s) configFile (SecretsProvider ps) false w3)
           (cNewCloudSecretsManager (Ref_Name s) configFile (SecretsProvider ps) false))
  /\ (~ isCloudProvider E ps -> EncryptionSalt ps <> "" ->
      chooses (NewPromptingPassphraseSecretsManager E (Ref_Name s) configFile false w3)
              (cNewPromptingPassphraseSecretsManager (Ref_Name s) configFile false))
  /\ (~ isCloudProvider E ps -> EncryptionSalt ps = "" ->
      chooses (DefaultSecretManager E s configFile w3)
              (cDefaultSecretManager s configFile))
  /\ (forall sm st, run (getStackSecretsManager E s) w = (Returns (Ok sm), st) ->
        exists inner, sm = cachingSecretsManager inner).
Proof.
  intros Hproject Hload Hpath reads chooses. subst reads chooses. cbv beta.
  assert (run (getStackSecretsManager E s) w
    = if decide (isCloudProvider E ps) then
        (let made := NewCloudSecretsManager E (Ref_Name s) configFile
                       (SecretsProvider ps) false w3 in
         (Returns (cached made.1),
          {| world := made.2;
             calls := [creadProject; cloadProjectStack project s;
                       cgetProjectStackPath s;
                       cNewCloudSecretsManager (Ref_Name s) configFile
                         (SecretsProvider ps) false] |}))
      else if decide (EncryptionSalt ps <> "") then
        (let made := NewPromptingPassphraseSecretsManager E (Ref_Name s) configFile
                       false w3 in
         (Returns (cached made.1),
          {| world := made.2;
             calls := [creadProject; cloadProjectStack project s;
                       cgetProjectStackPath s;
                       cNewPromptingPassphraseSecretsManager (Ref_Name s) configFile
                         false] |}))
      else
        (let made := DefaultSecretManager E s configFile w3 in
         (Returns (cached made.1),
          {| world := made.2;
             calls := [creadProject; cloadProjectStack project s;
                       cgetProjectStackPath s;
                       cDefaultSecretManager s configFile] |}))) as Hrun.
  { unfold getStackSecretsManager. unfold_monad.
    rewrite Hproject. simpl. rewrite Hload. simpl. rewrite Hpath. simpl.
    unfold isCloudProvider.
    destruct (decide (_ /\ _ /\ _)) as [(H1 & H2 & H3)|Hn].
    - rewrite !bool_decide_eq_true_2 by assumption. simpl.
      destruct (NewCloudSecretsManager E _ _ _ _ w3) as [[sm|err] w4]; reflexivity.
    - assert (bool_decide (SecretsProvider ps <> passphrase_Type E)
              && bool_decide (SecretsProvider ps <> "default")
              && bool_decide (SecretsProvider ps <> "") = false) as ->.
      { apply not_true_is_false. rewrite !andb_true_iff, !bool_decide_eq_true. tauto. }
      destruct (decide (EncryptionSalt ps <> "")) as [Hsalt|Hsalt].
      + rewrite bool_decide_eq_true_2 by assumption. simpl.
        destruct (NewPromptingPassphraseSecretsManager E _ _ _ w3) as [[sm|err] w4];
          reflexivity.
      + rewrite bool_decide_eq_false_2 by assumption. simpl.
        destruct (DefaultSecretManager E _ _ w3) as [[sm|err] w4]; reflexivity. }
  split_all.
  - intros Hcloud. rewrite Hrun. rewrite decide_True by assumption. reflexivity.
  - intros Hcloud Hsalt. rewrite Hrun. rewrite decide_False by assumption.
    rewrite decide_True by assumption. reflexivity.
  - intros Hcloud Hsalt. rewrite Hrun. rewrite decide_False by assumption.
    rewrite decide_False by (intros H; apply H; assumption). reflexivity.
  - intros sm st. rewrite Hrun.
    repeat match goal with
           | |- context [decide ?P] => destruct (decide P)
           end; cbv zeta;
      match goal with
      | |- context [cached ?r] => destruct r as [inner|err]
      end; simpl; intros [= <- _]; eauto.
Qed.

End crypto_facts.

(** * Further properties of the code *)

(** ** Strings *)

(** [s] holds no [c]. *)
Definition without (c : ascii) (s : string) : Prop := index 0 (String c "") s = None.

Lemma prefix_char c d s :
  String.prefix (String c "") (String d s) = bool_decide (c = d).
Proof.
  simpl. destruct (ascii_dec c d) as [->|Hne].
  - rewrite bool_decide_true by reflexivity. destruct s; reflexivity.
  - rewrite bool_decide_false by assumption. reflexivity.
Qed.

Lemma index_char_cons c d s :
  index 0 (String c "") (String d s)
  = if bool_decide (c = d) then Some 0
    else match index 0 (String c "") s with Some n => Some (S n) | None => None end.
Proof. cbn [index]. rewrite prefix_char. reflexivity. Qed.

Lemma without_cons c d s : without c (String d s) <-> c <> d /\ without c s.
Proof.
  unfold without. rewrite index_char_cons. case_bool_decide.
  - split; [discriminate|tauto].
  - destruct (index 0 (String c "") s); split; try discriminate; try tauto.
    intros [_ [=]].
Qed.

Lemma without_nil c : without c "".
Proof. reflexivity. Qed.

(** The first [c] of [k ++ c ++ rest], when [k] holds none, comes right
    after [k]. *)
Lemma index_after k c rest :
  without c k -> index 0 (String c "") (k ++ String c rest) = Some (String.length k).
Proof.
  induction k as [|d k IH]; intros Hk.
  - change ("" ++ String c rest) with (String c rest).
    rewrite index_char_cons, bool_decide_true by reflexivity. reflexivity.
  - apply without_cons in Hk. destruct Hk as [Hne Hk].
    change (String d k ++ String c rest) with (String d (k ++ String c rest)).
    rewrite index_char_cons, bool_decide_false by assumption.
    rewrite (IH Hk). reflexivity.
Qed.

Lemma substring_prefix k rest : substring 0 (String.length k) (k ++ rest) = k.
Proof.
  induction k as [|d k IH]; simpl.
  - destruct rest; reflexivity.
  - rewrite IH. reflexivity.
Qed.

(** Two strings cut at a [c] that neither holds before the cut. *)
Lemma app_char_inj c k1 k2 r1 r2 :
  without c k1 -> without c k2 ->
  k1 ++ String c r1 = k2 ++ String c r2 -> k1 = k2 /\ r1 = r2.
Proof.
  revert k2. induction k1 as [|d k1 IH]; intros [|e k2] H1 H2 Heq; simpl in Heq.
  - injection Heq as ->. auto.
  - injection Heq as <- _. apply without_cons in H2. tauto.
  - injection Heq as -> _. apply without_cons in H1. tauto.
  - injection Heq as -> Heq. apply without_cons in H1, H2.
    destruct (IH k2) as [-> ->]; tauto.
Qed.

(** ** The kinds of secrets providers *)

Module crypto_validate_facts.
Import crypto_validate.

Lemma isSupported_spec kind kinds : isSupported kind kinds = true <-> kind ∈ kinds.
Proof.
  induction kinds as [|k kinds IH]; simpl.
  - split; [discriminate|]. intros H. inversion H.
  - rewrite elem_of_cons. destruct (decide (kind = k)) as [->|Hne]; [tauto|].
    rewrite IH. tauto.
Qed.

Lemma kind_alone kind :
  without ":" kind -> nth 0 (strings_SplitN2 kind ":") "" = kind.
Proof. intros Hk. unfold strings_SplitN2. rewrite Hk. reflexivity. Qed.

Lemma kind_before_colon kind rest :
  without ":" kind -> nth 0 (strings_SplitN2 (kind ++ ":" ++ rest) ":") "" = kind.
Proof.
  intros Hk. unfold strings_SplitN2. simpl ("" ++ _).
  change (":" ++ rest) with (String ":" rest).
  rewrite (index_after _ _ _ Hk). simpl nth. apply substring_prefix.
Qed.

(** X1.  [validateSecretsProvider] looks at the text before the first colon
    only.  For a kind without a colon, alone or followed by a colon and
    anything: when the kind is one of default, passphrase, awskms,
    azurekeyvault, gcpkms and hashivault, nil is returned; otherwise the error
    names the kind, not what follows it, and lists the supported ones. *)
Theorem validateSecretsProvider_reads_the_kind (kind rest : string) :
  without ":" kind ->
  let unknown :=
    errNew ("unknown secrets provider type '" ++ kind
            ++ "' (supported values: "
            ++ "default,passphrase,awskms,azurekeyvault,gcpkms,hashivault)") in
  (kind ∈ supportedKinds ->
   validateSecretsProvider kind = None
   /\ validateSecretsProvider (kind ++ ":" ++ rest) = None)
  /\ (kind ∉ supportedKinds ->
      validateSecretsProvider kind = Some unknown
      /\ validateSecretsProvider (kind ++ ":" ++ rest) = Some unknown).
Proof.
  intros Hk unknown. unfold validateSecretsProvider.
  rewrite (kind_alone _ Hk), (kind_before_colon _ rest Hk).
  destruct (isSupported kind supportedKinds) eqn:Hs.
  - apply isSupported_spec in Hs. split; [auto|]. intros Hn. contradiction.
  - split.
    + intros Hin. apply isSupported_spec in Hin. congruence.
    + intros _. split; reflexivity.
Qed.

End crypto_validate_facts.

(** ** The service's secrets manager *)

Module service_more_facts.
Import workspace secrets service.

(** X2.  [changeProjectStackSecretDetails] never touches the configuration
    values of the stack; run again on what it gave back it reports no change
    and changes nothing; and when it reports no change the descriptor is the
    one it was given. *)
Theorem changeProjectStackSecretDetails_settles (info : ProjectStack) :
  let r := changeProjectStackSecretDetails info in
  Config r.2 = Config info
  /\ changeProjectStackSecretDetails r.2 = (false, r.2)
  /\ (r.1 = false -> r.2 = info).
Proof.
  destruct info as [sp ek es cfg].
  destruct (decide (sp = "")) as [->|Hsp], (decide (ek = "")) as [->|Hek],
           (decide (es = "")) as [->|Hes];
    unfold changeProjectStackSecretDetails; simpl;
    repeat (destruct (decide _) as [?|?]; simpl; try congruence; try tauto);
    split_all; intros; try reflexivity; try discriminate.
Qed.

(** X3.  What [EncryptValue] returns, [DecryptValue] turns back into the
    plaintext, when the service decrypts what it encrypted and the base64
    decoding of the encoded ciphertext is that ciphertext. *)
Theorem DecryptValue_inverts_EncryptValue {W : Type} (E : Env W) (c : serviceCrypter)
    (plaintext : string) (w w1 w2 : W) (ciphertext : bytes) :
  client_EncryptValue E (c_client c) (c_stack c) (bytes_of_string plaintext) w
  = (Ok ciphertext, w1) ->
  DecodeString E (EncodeToString E ciphertext) = Ok ciphertext ->
  client_DecryptValue E (c_client c) (c_stack c) ciphertext w1
  = (Ok (bytes_of_string plaintext), w2) ->
  let encrypted := run (EncryptValue E c plaintext) w in
  encrypted.1 = Returns (EncodeToString E ciphertext, None)
  /\ world encrypted.2 = w1
  /\ (run (DecryptValue E c (EncodeToString E ciphertext)) w1).1
     = Returns (plaintext, None).
Proof.
  intros Henc Hb64 Hdec. unfold EncryptValue, DecryptValue. unfold_monad.
  rewrite Henc. simpl. rewrite Hb64. simpl. rewrite Hdec. simpl.
  unfold string_of_bytes, bytes_of_string. rewrite string_of_list_byte_of_string.
  auto.
Qed.

End service_more_facts.

(** ** Stack references *)

Module reference_facts.
Import workspace filestate.

(** X4.  Two references whose names and projects hold no slash and that
    have the same fully qualified name have the same name and the same
    project. *)
Theorem FullyQualifiedName_tells_references_apart (r1 r2 : localBackendReference) :
  without "/" (name r1) -> without "/" (project r1) ->
  without "/" (name r2) -> without "/" (project r2) ->
  localBackendReference_FullyQualifiedName r1
  = localBackendReference_FullyQualifiedName r2 ->
  name r1 = name r2 /\ project r1 = project r2.
Proof.
  intros Hn1 Hp1 Hn2 Hp2. unfold localBackendReference_FullyQualifiedName.
  destruct (decide (project r1 = "")) as [E1|E1],
           (decide (project r2 = "")) as [E2|E2]; intros Heq.
  - split; congruence.
  - exfalso. rewrite Heq in Hn1. cbn [append] in Hn1.
    repeat (apply without_cons in Hn1; destruct Hn1 as [? Hn1]). congruence.
  - exfalso. rewrite <- Heq in Hn2. cbn [append] in Hn2.
    repeat (apply without_cons in Hn2; destruct Hn2 as [? Hn2]). congruence.
  - simpl in Heq. injection Heq as Heq.
    destruct (app_char_inj "/" _ _ _ _ Hp1 Hp2 Heq) as [-> ->]. auto.
Qed.

End reference_facts.

Lemma prefix_append p x : String.prefix p (p ++ x) = true.
Proof.
  induction p as [|c p IH]; simpl.
  - destruct x; reflexivity.
  - destruct (ascii_dec c c); [exact IH|congruence].
Qed.

(** ** The order of calls *)

(** [e1] is in [l] before an [e2]. *)
Definition precedes {A} (e1 e2 : A) (l : list A) : Prop :=
  exists l1 l2 l3, l = (l1 ++ e1 :: l2 ++ e2 :: l3)%list.

Lemma precedes_head {A} (e1 e2 : A) l : e2 ∈ l -> precedes e1 e2 (e1 :: l).
Proof.
  intros Hin. apply list_elem_of_split in Hin. destruct Hin as (l2 & l3 & ->).
  exists [], l2, l3. reflexivity.
Qed.

Lemma precedes_tail {A} (e1 e2 x : A) l : precedes e1 e2 l -> precedes e1 e2 (x :: l).
Proof. intros (l1 & l2 & l3 & ->). exists (x :: l1), l2, l3. reflexivity. Qed.

Ltac precedes_here :=
  simpl; solve [repeat first [apply precedes_head; elem_here | apply precedes_tail]].

(** ** The self-managed backend *)

Module backend_facts.
Import workspace filestate filestate_facts.

(** *** Opening a backend *)

(** X5.  [massageBlobPath] gives back a path that is not a [file://] one as
    it is, consulting nothing.  For a [file://] path it does not panic; the
    current user is looked up only when the path after [file://] starts with a
    tilde; and the path it returns, if any, is again a [file://] one, made of
    what [filepath.Abs] answered last. *)
Theorem massageBlobPath_leaves_other_schemes_alone {W : Type} (E : Env W) path w :
  let r := run (massageBlobPath E path) w in
  let rest := strings_TrimPrefix path FilePathPrefix in
  (strings_HasPrefix path FilePathPrefix = false ->
   r = (Returns (Ok path), {| world := w; calls := [] |}))
  /\ (strings_HasPrefix path FilePathPrefix = true ->
      (exists res, r.1 = Returns res)
      /\ (strings_HasPrefix rest "~" = false ->
          forall usr, (cuser_Current, usr) ∉ calls r.2)
      /\ (forall u, r.1 = Returns (Ok u) ->
            strings_HasPrefix u FilePathPrefix = true
            /\ exists arg abs,
                 last (calls r.2) = Some (cfilepath_Abs arg, aString (Ok abs))
                 /\ (u = FilePathPrefix ++ filepath_ToSlash E abs
                     \/ u = FilePathPrefix ++ "/" ++ filepath_ToSlash E abs
                        /\ os_PathSeparator E <> "/"))).
Proof.
  cbv zeta. unfold massageBlobPath, callE. unfold_monad.
  destruct (strings_HasPrefix path FilePathPrefix) eqn:Hfile; simpl.
  2: { split; [reflexivity|discriminate]. }
  split; [discriminate|]. intros _.
  repeat split_match.
  all: split_all; try (eexists; reflexivity); try discriminate.
  all: try (intros _ usr Hin; elem_inv Hin; discriminate).
  all: intros u [= <-]; split; [apply prefix_append|].
  all: eexists _, _; split; [first [reflexivity | apply last_snoc]|].
  all: try (left; reflexivity).
  all: right; split; [reflexivity|].
  all: match goal with H : _ && _ = true |- _ => apply andb_prop in H; destruct H as [H _];
         apply bool_decide_eq_true in H; exact H end.
Qed.


Section Opening.
Context {W : Type} (E : Env W).

(** Run a step of which it is only kept that the calls so far still
    satisfy [P]. *)
Lemma post_bind_emits {A B} (P : Entry -> Prop) (m : M W Entry A)
    (k : A -> M W Entry B) s (Q : outcome B -> St W Entry -> Prop) :
  emits P m -> Forall P (calls s) ->
  (forall a s1, Forall P (calls s1) -> post (k a) s1 Q) ->
  (forall msg s1, Forall P (calls s1) -> Q (Panics msg) s1) ->
  post (bind m k) s Q.
Proof.
  intros Hm Hs Hk Hp.
  apply post_bind_cut with (I := fun _ s1 => Forall P (calls s1)); auto.
  apply emits_post; assumption.
Qed.

(** Run a step of which it is only kept that an entry is still in the
    record. *)
Lemma post_bind_keeps {A B} (e : Entry) (m : M W Entry A)
    (k : A -> M W Entry B) s (Q : outcome B -> St W Entry -> Prop) :
  emits (fun _ => True) m -> e ∈ calls s ->
  (forall a s1, e ∈ calls s1 -> post (k a) s1 Q) ->
  (forall msg s1, Q (Panics msg) s1) ->
  post (bind m k) s Q.
Proof.
  intros Hm Hs Hk Hp.
  apply post_bind_cut with (I := fun _ s1 => e ∈ calls s1); auto.
  unfold post. destruct (Hm s) as (tr & -> & _). apply elem_of_app. auto.
Qed.

(** What [New] built *)
Definition New_built (url : string) (proj : option Project)
    (out : outcome (result localBackend)) (s' : St W Entry) : Prop :=
  forall b, out = Returns (Ok b) ->
    originalURL b = url
    /\ currentProject b = proj
    /\ (cOpenBucket (filestate.url b), aError None) ∈ calls s'
    /\ (cNewV4, aString (Ok (lockID b))) ∈ calls s'
    /\ exists env,
         (cGetenv PulumiFilestateGzipEnvVar, aText env) ∈ calls s'
         /\ gzip b = IsTruthy E env.

Ltac built_leaf :=
  apply post_ret; intros b Hb;
  first [ discriminate
        | injection Hb as <-; simpl; split_all; try reflexivity; try elem_here;
          eexists; split; [elem_here|reflexivity] ].

Lemma New_builds url proj w :
  post (New E url proj) {| world := w; calls := [] |} (New_built url proj).
Proof.
  unfold New. generalize (mkSt w (@nil Entry)). intros s.
  destruct (negb _); [built_leaf|].
  apply post_bind_cut with (I := fun _ _ => True); [exact I| |intros ? ? _ ? [=]].
  intros r s1 _. destruct r as [u|err]; [|built_leaf].
  destruct (url_Parse E u) as [[p_Scheme p_Path]|err]; [|built_leaf].
  apply post_bind_cut with (I := fun _ _ => True); [exact I| |intros ? ? _ ? [=]].
  intros muxErr s2 _. destruct muxErr as [err|]; [built_leaf|].
  unfold callE at 1. apply post_bind, post_call. simpl.
  destruct (OpenBucket E u (world s2)) as [[err|] w3]; simpl; [built_leaf|].
  apply post_bind_keeps with (e := (cOpenBucket u, aError None)).
  { unfold callE. repeat (emits_step; try exact I). }
  { simpl. elem_here. }
  2: { intros ? ? ? [=]. }
  intros u0 s4 Hopen.
  unfold callE. apply post_bind, post_call. simpl.
  destruct (ensurePulumiMeta E (world s4)) as [[pulumiState|err] w1]; simpl;
    [|built_leaf].
  apply post_bind, post_call. simpl.
  destruct (uuid_NewV4 E w1) as [[id|err] w2]; simpl; [|built_leaf].
  apply post_bind, post_call. simpl.
  destruct (os_Getenv E PulumiFilestateGzipEnvVar w2) as [env w5]; simpl.
  destruct pulumiState as [v]; simpl.
  destruct v as [|[p|p|]|p]; try built_leaf.
  apply post_bind, post_call. simpl.
  destruct (ListReferences E legacyReferenceStore w5) as [[refs|err] w4]; simpl.
  - apply post_bind, warnLegacy_post. intros w' tr Htr. simpl. built_leaf.
  - built_leaf.
Qed.

End Opening.

(** X6.  [New] refuses a URL of a scheme that no bucket driver takes before
    it consults anything.  The backend it returns is for the URL it was given
    and for the project it was given; its canonical URL is the one the bucket
    was opened with, its lock id the one that was allocated, and it compresses
    exactly when the environment variable [PULUMI_SELF_MANAGED_STATE_GZIP] read
    as truthy. *)
Theorem New_builds_the_backend_it_was_asked_for {W : Type} (E : Env W) url proj w :
  let r := run (New E url proj) w in
  (IsFileStateBackendURL E url = false ->
   r = (Returns (Err (errNew ("local URL " ++ url
                              ++ " has an illegal prefix; expected one of: "
                              ++ strings_Join (BucketSchemes E) ", "))),
        {| world := w; calls := [] |}))
  /\ (forall b, r.1 = Returns (Ok b) ->
        originalURL b = url
        /\ currentProject b = proj
        /\ (cOpenBucket (filestate.url b), aError None) ∈ calls r.2
        /\ (cNewV4, aString (Ok (lockID b))) ∈ calls r.2
        /\ exists env,
             (cGetenv "PULUMI_SELF_MANAGED_STATE_GZIP", aText env) ∈ calls r.2
             /\ gzip b = IsTruthy E env).
Proof.
  cbv zeta. split.
  - intros Hurl. unfold run, New. rewrite Hurl. reflexivity.
  - exact (New_builds E url proj w).
Qed.

(** A listing of stacks. *)
Definition isListing (e : Entry) : Prop := exists st, e.1 = cListReferences st.

Ltac not_listed :=
  split; [intros [? ?]; discriminate | intros (? & ? & ?); discriminate].

(** The calls up to the manifest are neither listings nor warnings. *)
Lemma opens_silent {W : Type} (E : Env W) originalURL u w s4 :
  opens E originalURL u w s4 ->
  Forall (fun e => ~ isListing e /\ ~ isWarning e) (calls s4).
Proof.
  intros (_ & s1 & p_Scheme & p_Path & w2 & w3 & Hmassage & _ & _ & _ & ->).
  assert (emits (fun e => ~ isListing e /\ ~ isWarning e) (massageBlobPath E originalURL))
    as Hm by (unfold massageBlobPath, callE; repeat (emits_step; try not_listed)).
  destruct (Hm {| world := w; calls := [] |}) as (tr & Htr & Hall).
  unfold run in Hmassage. rewrite Hmassage in Htr. simpl in Htr. simpl. rewrite Htr.
  apply Forall_app. split; [exact Hall|].
  apply Forall_app. split.
  - destruct (decide _); [|exact (List.Forall_nil _)].
    apply Forall_cons. split; [not_listed|exact (List.Forall_nil _)].
  - apply Forall_cons. split; [not_listed|].
    destruct (bucketDir E u p_Path); [|exact (List.Forall_nil _)].
    apply Forall_cons. split; [not_listed|exact (List.Forall_nil _)].
Qed.


(** *** Applying an update *)

(** X8.  A stack contradicts the workspace exactly when it has a project, a
    project file is found and loads, and the project it names is another one.
    [apply] on such a stack returns "provided project name ... doesn't match
    Pulumi.yaml" having called nothing but the validation of the reference and
    the two reads of the workspace: no update is started and the engine is not
    run. *)
Theorem apply_refuses_the_stack_of_another_project {W : Type} (E : Env W) b kind stack
    op opts events r w w0 :
  Ref stack = localRef r ->
  ValidateReference E r w = (None, w0) ->
  let c := run (currentProjectContradictsWorkspace E r) w0 in
  (c.1 = Returns true
   <-> project r <> ""
       /\ exists projPath w1 proj w2,
            DetectProjectPath E w0 = (Ok projPath, w1) /\ projPath <> ""
            /\ LoadProject E projPath w1 = (Ok proj, w2)
            /\ Name proj <> project r)
  /\ (c.1 = Returns true ->
      run (apply E b kind stack op opts events) w
      = (Returns (None, [],
                  Some (FromError (errNew
                    ("provided project name " ++ strconv_Quote E (project r)
                     ++ " doesn't match Pulumi.yaml")))),
         {| world := world c.2;
            calls := (cValidateReference r, aError None) :: calls c.2 |})).
Proof.
  intros Href Hvalid. cbv zeta.
  unfold apply, getReference, currentProjectContradictsWorkspace, callE.
  rewrite Href. unfold_monad. rewrite Hvalid. simpl.
  destruct (decide (project r = "")) as [Hp|Hp]; simpl.
  { split; [|discriminate]. split; [discriminate|]. intros [H _]. contradiction. }
  destruct (DetectProjectPath E w0) as [[projPath|err] w1] eqn:Hdetect; simpl.
  2: { split; [|discriminate]. split; [discriminate|].
       intros (_ & ? & ? & ? & ? & [=] & _). }
  destruct (decide (projPath = "")) as [Hpath|Hpath]; simpl.
  { split; [|discriminate]. split; [discriminate|].
    intros (_ & ? & ? & ? & ? & [= <- <-] & ? & _). contradiction. }
  destruct (LoadProject E projPath w1) as [[proj|err] w2] eqn:Hload; simpl.
  2: { split; [|discriminate]. split; [discriminate|].
       intros (_ & ? & ? & ? & ? & [= <- <-] & _ & Hl & _). congruence. }
  case_bool_decide as Hname; simpl.
  - split; [|reflexivity]. split; [|reflexivity].
    intros _. split; [assumption|]. eauto 10.
  - split; [|discriminate]. split; [discriminate|].
    intros (_ & ? & ? & ? & ? & [= <- <-] & _ & Hl & Hn).
    rewrite Hload in Hl. injection Hl as <- <-. contradiction.
Qed.

(** *** Renaming and removing a stack *)

(** Settle a fact about an entry of a record that is written out. *)
Ltac unfold_reply :=
  cbv [reply Reply_unit Reply_error Reply_refs Reply_stack Reply_checkpoint
       Reply_string Reply_text Reply_bool Reply_objects Reply_meta Reply_project
       Reply_update Reply_time Reply_engine] in *.

Ltac entry_cases H :=
  simpl in H; unfold_reply; elem_inv H; try discriminate; simplify_eq; simpl.

(** X9.  [renameStack] does nothing more when the lock is refused, and
    returns that error; once it has the lock, taking it was the first thing it
    did and the last is to release it.  It does not overwrite: when the
    destination exists it returns "a stack named ... already exists" and saves
    nothing, and a stack is saved, under the new reference only, after the
    destination was seen not to exist.  The file of the old stack is moved to a
    backup only after the stack was saved under the new reference, and the
    history is renamed only after that. *)
Theorem renameStack_saves_before_it_removes {W : Type} (E : Env W) b old new w :
  let r := run (renameStack E b old new) w in
  (forall err, (cLock (localRef old), aError (Some err)) ∈ calls r.2 ->
     r.1 = Returns (Some err) /\ calls r.2 = [(cLock (localRef old), aError (Some err))])
  /\ ((cLock (localRef old), aError None) ∈ calls r.2 ->
      head (calls r.2) = Some (cLock (localRef old), aError None)
      /\ last (calls r.2) = Some (cUnlock (localRef old), aUnit))
  /\ ((cExists (stackPath E new), aBool (Ok true)) ∈ calls r.2 ->
      r.1 = Returns (Some (errNew ("a stack named " ++ localBackendReference_String b new
                                   ++ " already exists")))
      /\ forall ref snap a, (csaveStack ref snap, a) ∉ calls r.2)
  /\ (forall ref snap a, (csaveStack ref snap, a) ∈ calls r.2 ->
        ref = new
        /\ precedes (cExists (stackPath E new), aBool (Ok false)) (csaveStack ref snap, a)
             (calls r.2))
  /\ (forall file keep a, (cbackupTarget file keep, a) ∈ calls r.2 ->
        file = stackPath E old /\ keep = false
        /\ exists snap path,
             precedes (csaveStack new snap, aString (Ok path)) (cbackupTarget file keep, a)
               (calls r.2))
  /\ (forall o n a, (crenameHistory o n, a) ∈ calls r.2 ->
        o = old /\ n = new
        /\ exists bck,
             precedes (cbackupTarget (stackPath E old) false, aText bck)
               (crenameHistory o n, a) (calls r.2)).
Proof.
  cbv zeta. unfold renameStack, callE. unfold_monad.
  repeat split_match.
  all: split_all.
  all: lazymatch goal with
       | |- forall err, (cLock _, aError (Some err)) ∈ _ -> _ =>
           intros ? Hin; entry_cases Hin; auto
       | |- (cLock _, aError None) ∈ _ -> _ =>
           intros Hin; entry_cases Hin; split; reflexivity
       | |- (cExists _, _) ∈ _ -> _ =>
           intros Hin; entry_cases Hin; (split; [reflexivity|]);
           intros ? ? ? Hin'; entry_cases Hin'
       | |- forall ref snap a, (csaveStack ref snap, a) ∈ _ -> _ =>
           intros ? ? ? Hin; entry_cases Hin; (split; [reflexivity|precedes_here])
       | |- forall file keep a, (cbackupTarget file keep, a) ∈ _ -> _ =>
           intros ? ? ? Hin; entry_cases Hin; split_all; try reflexivity;
           eexists _, _; precedes_here
       | |- forall o n a, (crenameHistory o n, a) ∈ _ -> _ =>
           intros ? ? ? Hin; entry_cases Hin; split_all; try reflexivity;
           eexists; precedes_here
       end.
Qed.

(** X10.  [RemoveStack] on a reference of another backend, or on one that
    does not validate, returns the error having done nothing else; when the
    lock is refused it returns that error and does not unlock; once it has the
    lock the last thing it does is to release it.  [removeStack] is only called
    after the lock was taken and the stack then loaded, on that stack, and when
    the force flag is set or the snapshot holds no resource; its error, if any,
    is what is returned.  A stack that fails to load is not removed. *)
Theorem RemoveStack_removes_only_under_the_lock {W : Type} (E : Env W) b stack force w :
  let r := run (RemoveStack E b stack force) w in
  (forall fqn, Ref stack = foreignRef fqn ->
     r = (Returns (false, Some (errNew "bad stack reference type")),
          {| world := w; calls := [] |}))
  /\ (forall ref err, (cValidateReference ref, aError (Some err)) ∈ calls r.2 ->
        r.1 = Returns (false, Some err)
        /\ calls r.2 = [(cValidateReference ref, aError (Some err))])
  /\ (forall ref err, (cLock ref, aError (Some err)) ∈ calls r.2 ->
        r.1 = Returns (false, Some err)
        /\ last (calls r.2) = Some (cLock ref, aError (Some err)))
  /\ (forall ref, (cLock ref, aError None) ∈ calls r.2 ->
        last (calls r.2) = Some (cUnlock ref, aUnit))
  /\ (forall ref err, (cgetStack ref, aStack (Err err)) ∈ calls r.2 ->
        r.1 = Returns (false, Some err)
        /\ forall ref' a, (cremoveStack ref', a) ∉ calls r.2)
  /\ (forall ref a, (cremoveStack ref, a) ∈ calls r.2 ->
        Ref stack = localRef ref
        /\ r.1 = Returns (false, match a with aError err => err | _ => None end)
        /\ exists snapshot path,
             precedes (cLock (localRef ref), aError None)
               (cgetStack ref, aStack (Ok (snapshot, path))) (calls r.2)
             /\ precedes (cgetStack ref, aStack (Ok (snapshot, path)))
                  (cremoveStack ref, a) (calls r.2)
             /\ (force = true \/ snapshot = None
                 \/ exists snap, snapshot = Some snap /\ Resources snap = [])).
Proof.
  cbv zeta. unfold RemoveStack, getReference, callE. unfold_monad.
  repeat split_match.
  all: split_all.
  all: lazymatch goal with
       | |- forall fqn, _ = foreignRef fqn -> _ =>
           intros ? ?; first [discriminate | reflexivity]
       | |- forall ref err, (cValidateReference ref, aError (Some err)) ∈ _ -> _ =>
           intros ? ? Hin; entry_cases Hin; auto
       | |- forall ref err, (cLock ref, aError (Some err)) ∈ _ -> _ =>
           intros ? ? Hin; entry_cases Hin; auto
       | |- forall ref, (cLock ref, aError None) ∈ _ -> _ =>
           intros ? Hin; entry_cases Hin; reflexivity
       | |- forall ref err, (cgetStack ref, _) ∈ _ -> _ =>
           intros ? ? Hin; entry_cases Hin;
           (split; [reflexivity|]); intros ? ? Hin'; entry_cases Hin'
       | |- forall ref a, (cremoveStack ref, a) ∈ _ -> _ =>
           intros ? ? Hin; entry_cases Hin; idtac
       end.
  - split; [reflexivity|]. split; [reflexivity|].
    exists (Some s0), s. split; [precedes_here|]. split; [precedes_here|].
    destruct force; [left; reflexivity|]. right. right. exists s0.
    split; [reflexivity|]. simpl in Heqb0. destruct (Resources s0); [reflexivity|discriminate].
  - split; [reflexivity|]. split; [reflexivity|].
    exists None, s. split; [precedes_here|]. split; [precedes_here|].
    right. left. reflexivity.
Qed.

End backend_facts.

(** ** The operations on stacks *)

Module stacks_facts.
Import workspace filestate filestate_facts filestate_stacks backend_facts.

(** X11.  [GetStack] takes a stack that is not found for no stack.  A
    reference of another backend and a reference that is refused are returned
    as the error, and nothing is looked up.  Otherwise the stack is loaded,
    once: when loading fails with an error of code NotFound, neither a stack
    nor an error is returned; any other error of the load is returned as it is;
    a stack that loads is returned with its reference, path and snapshot.  A
    stack and an error are never returned together. *)
Theorem GetStack_takes_a_missing_stack_for_none {W : Type} (E : Env W) b stackRef w :
  let r := run (GetStack E b stackRef) w in
  (forall fqn, stackRef = foreignRef fqn ->
     r = (Returns (None, Some (errNew "bad stack reference type")),
          {| world := w; calls := [] |}))
  /\ (forall ref, stackRef = localRef ref ->
        let valid := ValidateReference E ref w in
        let validated := (cValidateReference ref, aError valid.1) in
        (forall err, valid.1 = Some err ->
           r = (Returns (None, Some err), {| world := valid.2; calls := [validated] |}))
        /\ (valid.1 = None ->
            let loaded := getStack E ref valid.2 in
            r = (Returns match loaded.1 with
                         | Err err =>
                             (None, if decide (error_Code err = NotFound) then None
                                    else Some err)
                         | Ok (snapshot, path) =>
                             (Some (newStack ref path snapshot b), None)
                         end,
                 {| world := loaded.2;
                    calls := [validated; (cgetStack ref, aStack loaded.1)] |})))
  /\ (forall stack err, r.1 <> Returns (Some stack, Some err)).
Proof.
  cbv zeta. unfold GetStack, getReference, callE. unfold_monad.
  destruct stackRef as [ref|fqn]; simpl.
  - split; [discriminate|]. split.
    + intros ? [= <-].
      destruct (ValidateReference E ref w) as [[err|] w0]; simpl.
      * split; [|discriminate]. intros ? [= <-]. reflexivity.
      * split; [discriminate|]. intros _.
        destruct (getStack E ref w0) as [[[snapshot path]|err] w1]; simpl.
        -- reflexivity.
        -- unfold gcerrors_Code. destruct (decide (error_Code err = NotFound)); reflexivity.
    + intros stack err.
      destruct (ValidateReference E ref w) as [[e|] w0]; simpl; [discriminate|].
      destruct (getStack E ref w0) as [[[snapshot path]|e] w1]; simpl; [discriminate|].
      unfold gcerrors_Code. destruct (decide (error_Code e = NotFound)); discriminate.
  - split; [|split; [discriminate|]].
    + intros ? _. reflexivity.
    + intros ? ?. discriminate.
Qed.

(** The entry of a checkpoint read for a summary. *)
Definition summarized (s : localStackSummary) : Entry :=
  (cgetCheckpoint (sum_name s), aCheckpoint (Ok (sum_chk s))).

Lemma ListStacks_loop_holds {W : Type} (E : Env W) stacks results s :
  post (ListStacks_loop E stacks results) s (fun out s' =>
    (exists res, out = Returns res)
    /\ (forall summaries, out = Returns (Ok summaries) ->
          exists news,
            summaries = (results ++ news)%list
            /\ map sum_name news = stacks
            /\ calls s' = (calls s ++ map summarized news)%list)
    /\ (forall err, out = Returns (Err err) ->
          exists news ref rest,
            stacks = (map sum_name news ++ ref :: rest)%list
            /\ calls s' = (calls s ++ map summarized news
                             ++ [(cgetCheckpoint ref, aCheckpoint (Err err))])%list)).
Proof.
  revert results s. induction stacks as [|stackRef stacks IH]; intros results s; simpl.
  - apply post_ret. split_all; [eauto| |discriminate].
    intros ? [= <-]. exists []. rewrite !app_nil_r. auto.
  - unfold callE. apply post_bind, post_call. simpl.
    destruct (getCheckpoint E stackRef (world s)) as [[chk|err] w1]; simpl.
    + match goal with |- post (ListStacks_loop _ _ ?res') ?s' _ =>
        specialize (IH res' s') end.
      unfold post in *. destruct IH as (Hres & Hok & Herr). simpl in *.
      split_all; [exact Hres| |].
      * intros summaries Hs. destruct (Hok _ Hs) as (news & -> & Hn & Hc).
        exists (newLocalStackSummary stackRef chk :: news).
        rewrite <- app_assoc. simpl. rewrite Hn, Hc, <- app_assoc. auto.
      * intros err Hs. destruct (Herr _ Hs) as (news & ref & rest & -> & Hc).
        exists (newLocalStackSummary stackRef chk :: news), ref, rest.
        simpl. rewrite Hc, <- app_assoc. auto.
    + apply post_ret. split_all; [eauto|discriminate|].
      intros ? [= <-]. exists [], stackRef, stacks. auto.
Qed.

(** X12.  [ListStacks] lists the references of the backend's own store and
    reads the checkpoint of each, in the order listed.  When every checkpoint
    loads, there is one summary for each reference, in that order, made of the
    reference and its checkpoint.  The first checkpoint that fails to load ends
    the listing: its error is returned without any summary, and no further
    checkpoint is read.  When the references cannot be listed, that error is
    returned and no checkpoint is read. *)
Theorem ListStacks_summarizes_every_stack_or_none {W : Type} (E : Env W) b w :
  let r := run (ListStacks E b) w in
  let listing := ListReferences E (b_store b) w in
  let listed := (cListReferences (b_store b), aRefs listing.1) in
  (forall err, listing.1 = Err err ->
     r = (Returns (Err err), {| world := listing.2; calls := [listed] |}))
  /\ (forall refs, listing.1 = Ok refs ->
        (exists res, r.1 = Returns res)
        /\ (forall summaries, r.1 = Returns (Ok summaries) ->
              map sum_name summaries = refs
              /\ calls r.2 = listed :: map summarized summaries)
        /\ (forall err, r.1 = Returns (Err err) ->
              exists summaries ref rest,
                refs = (map sum_name summaries ++ ref :: rest)%list
                /\ calls r.2
                   = (listed :: map summarized summaries
                        ++ [(cgetCheckpoint ref, aCheckpoint (Err err))])%list)).
Proof.
  cbv zeta. unfold ListStacks, getLocalStacks, callE, run.
  rewrite run_bind, run_call. simpl.
  destruct (ListReferences E (b_store b) w) as [[refs|err] w0]; simpl.
  - split; [discriminate|]. intros ? [= <-].
    pose proof (ListStacks_loop_holds E refs []
                  {| world := w0;
                     calls := [(cListReferences (b_store b), aRefs (Ok refs))] |})
      as (Hres & Hok & Herr).
    split_all; [exact Hres| |].
    + intros summaries Hs. destruct (Hok _ Hs) as (news & -> & Hn & Hc). auto.
    + intros err Hs. destruct (Herr _ Hs) as (news & ref & rest & -> & Hc). eauto.
  - split; [|discriminate]. intros ? [= <-]. reflexivity.
Qed.

(** *** The projects of a bucket *)

Lemma DoesProjectExist_loop_spec projects projectName :
  DoesProjectExist_loop projects projectName = true <-> projectName ∈ projects.
Proof.
  induction projects as [|p projects IH]; simpl.
  - split; [discriminate|]. intros H. inversion H.
  - rewrite elem_of_cons. destruct (decide (p = projectName)) as [->|Hne].
    + tauto.
    + rewrite IH. split; [tauto|]. intros [->|H]; [contradiction|exact H].
Qed.

Section Projects.
Variable objectName : ListObject -> string.
Variable tokens_IsName : string -> bool.

(** A listed object that counts as a project: a directory with a valid
    name. *)
Definition isProject (file : ListObject) : bool :=
  IsDir file && tokens_IsName (objectName file).

Lemma getLocalProjects_loop_filter files projects :
  getLocalProjects_loop objectName tokens_IsName files projects
  = (projects ++ map objectName (filter (fun f => isProject f = true) files))%list.
Proof.
  revert projects. induction files as [|file files IH]; intros projects; simpl.
  - rewrite app_nil_r. reflexivity.
  - unfold isProject at 1. destruct (IsDir file) eqn:Hdir; simpl.
    + destruct (tokens_IsName (objectName file)) eqn:Hname; simpl.
      * rewrite IH, filter_cons_True by (unfold isProject; rewrite Hdir, Hname; reflexivity).
        simpl. rewrite <- app_assoc. reflexivity.
      * rewrite IH, filter_cons_False
          by (unfold isProject; rewrite Hdir, Hname; discriminate).
        reflexivity.
    + rewrite IH, filter_cons_False by (unfold isProject; rewrite Hdir; discriminate).
      reflexivity.
Qed.

End Projects.

(** X13.  [DoesProjectExist] lists the stacks directory once.  When the
    listing answers, it says yes exactly when a directory of the listing has a
    valid name that is the project's: plain files and directories without a
    valid name do not count.  When the listing fails, the directory being not
    found included, it answers no with the error "error listing projects"
    around the listing's. *)
Theorem DoesProjectExist_looks_for_a_directory {W : Type} (E : Env W) StacksDir
    objectName tokens_IsName b projectName w :
  let r := run (DoesProjectExist E StacksDir objectName tokens_IsName b projectName) w in
  let listing := listBucket E StacksDir w in
  calls r.2 = [(clistBucket StacksDir, aObjects listing.1)]
  /\ world r.2 = listing.2
  /\ (forall err, listing.1 = Err err ->
        r.1 = Returns (false, Some (errWrap "error listing projects" err)))
  /\ (forall files, listing.1 = Ok files ->
        exists found,
          r.1 = Returns (found, None)
          /\ (found = true
              <-> exists file,
                    file ∈ files /\ IsDir file = true
                    /\ tokens_IsName (objectName file) = true
                    /\ objectName file = projectName)).
Proof.
  cbv zeta. unfold DoesProjectExist, getLocalProjects, callE, run.
  rewrite !run_bind, run_call. simpl.
  destruct (listBucket E StacksDir w) as [[files|err] w0]; simpl.
  - split_all; try reflexivity; [discriminate|]. intros ? [= <-].
    match goal with |- context [Returns (?found, None)] => exists found end.
    split; [reflexivity|].
    rewrite DoesProjectExist_loop_spec, getLocalProjects_loop_filter. simpl.
    rewrite list_elem_of_fmap. split.
    + intros (file & -> & Hin). apply list_elem_of_filter in Hin.
      destruct Hin as [Hp Hin]. unfold isProject in Hp.
      apply andb_prop in Hp. destruct Hp. eauto 10.
    + intros (file & Hin & Hdir & Hname & <-). exists file. split; [reflexivity|].
      apply list_elem_of_filter. split; [|exact Hin].
      unfold isProject. rewrite Hdir, Hname. reflexivity.
  - split_all; try reflexivity; [|discriminate]. intros ? [= <-]. reflexivity.
Qed.

(** *** Cancelling and previewing *)

(** The deletions that succeeded, and the one that did not, if any. *)
Definition deletions (keys : list string) (stop : option (string * error)) : list Entry :=
  (map (fun key => (cDelete key, aError None)) keys
   ++ match stop with
      | Some (key, err) => [(cDelete key, aError (Some err))]
      | None => []
      end)%list.

(** What is reported of an error of the bucket: nothing when it says
    NotFound. *)
Definition unlessNotFound (err : error) : option error :=
  if decide (error_Code err = NotFound) then None else Some err.

Definition files_of (files : list ListObject) : list string :=
  map Key (filter (fun f => IsDir f = false) files).

Lemma CancelCurrentUpdate_loop_holds {W : Type} (E : Env W) files s :
  post (CancelCurrentUpdate_loop E files) s (fun out s' =>
    exists keys stop,
      calls s' = (calls s ++ deletions keys stop)%list
      /\ match stop with
         | None => keys = files_of files /\ out = Returns None
         | Some (key, err) =>
             (exists rest, files_of files = (keys ++ key :: rest)%list)
             /\ out = Returns (unlessNotFound err)
         end).
Proof.
  revert s. induction files as [|file files IH]; intros s; simpl.
  - apply post_ret. exists [], None. unfold deletions. simpl.
    rewrite app_nil_r. auto.
  - destruct file as [key [|]]; simpl.
    + assert (files_of ({| Key := key; IsDir := true |} :: files) = files_of files)
        as -> by (unfold files_of; rewrite filter_cons_False by (simpl; discriminate);
                  reflexivity).
      apply IH.
    + assert (files_of ({| Key := key; IsDir := false |} :: files)
              = key :: files_of files) as ->
        by (unfold files_of; rewrite filter_cons_True by reflexivity; reflexivity).
      unfold callE. apply post_bind, post_call. simpl.
      destruct (bucket_Delete E key (world s)) as [[err|] w']; simpl.
      * assert (forall out : outcome (option error),
                  out = Returns (unlessNotFound err) ->
                  exists keys stop,
                    (calls s ++ [(cDelete key, aError (Some err))])%list
                    = (calls s ++ deletions keys stop)%list
                    /\ match stop with
                       | None => keys = key :: files_of files /\ out = Returns None
                       | Some (k, e) =>
                           (exists rest, key :: files_of files = (keys ++ k :: rest)%list)
                           /\ out = Returns (unlessNotFound e)
                       end) as Hstop.
        { intros out ->. exists [], (Some (key, err)). split; [reflexivity|].
          split; [|reflexivity]. exists (files_of files). reflexivity. }
        unfold unlessNotFound in Hstop.
        destruct (decide _); apply post_ret; apply Hstop; reflexivity.
      * match goal with |- post _ ?s' _ => specialize (IH s') end.
        unfold post in *. destruct IH as (keys & stop & Hc & Hstop). simpl in Hc.
        exists (key :: keys), stop. split.
        { rewrite Hc, <- app_assoc. reflexivity. }
        destruct stop as [[k e]|].
        -- destruct Hstop as [[rest Hrest] Hout]. split; [|exact Hout].
           exists rest. simpl. rewrite Hrest. reflexivity.
        -- destruct Hstop as [-> Hout]. auto.
Qed.

(** X14.  [CancelCurrentUpdate] lists the lock directory of the stack once.
    If the listing fails, nothing is deleted and the error is returned, unless
    it says NotFound.  Otherwise the files of the listing, never its
    directories, are deleted in the order listed up to the first deletion that
    fails: it goes through all of them when none fails, and after a failed one
    nothing more is deleted, whether the failure is reported (any error but
    NotFound) or not (NotFound).  An error that says NotFound is never
    returned. *)
Theorem CancelCurrentUpdate_stops_at_the_first_failure {W : Type} (E : Env W) b
    stackRef w :
  let r := run (CancelCurrentUpdate E b stackRef) w in
  let dir := stackLockDir E (StackReference_FullyQualifiedName stackRef) in
  let listing := listBucket E dir w in
  let listed := (clistBucket dir, aObjects listing.1) in
  (forall err, listing.1 = Err err ->
     r = (Returns (unlessNotFound err), {| world := listing.2; calls := [listed] |}))
  /\ (forall files, listing.1 = Ok files ->
        exists keys stop,
          calls r.2 = listed :: deletions keys stop
          /\ match stop with
             | None => keys = files_of files /\ r.1 = Returns None
             | Some (key, err) =>
                 (exists rest, files_of files = (keys ++ key :: rest)%list)
                 /\ r.1 = Returns (unlessNotFound err)
             end)
  /\ (forall err, r.1 = Returns (Some err) -> error_Code err <> NotFound).
Proof.
  cbv zeta. unfold CancelCurrentUpdate, callE, run. rewrite run_bind, run_call. simpl.
  unfold_reply.
  assert (forall e err, unlessNotFound e = Some err -> error_Code err <> NotFound)
    as Hnever.
  { unfold unlessNotFound. intros e err. destruct (decide _); [discriminate|].
    intros [= <-]. assumption. }
  destruct (listBucket E _ w) as [[files|err] w0]; simpl.
  - pose proof (CancelCurrentUpdate_loop_holds E files
                  {| world := w0;
                     calls := [(clistBucket
                                  (stackLockDir E
                                     (StackReference_FullyQualifiedName stackRef)),
                                aObjects (Ok files))] |})
      as (keys & stop & Hc & Hstop).
    unfold post in *. simpl in Hc.
    split_all; [discriminate| |].
    + intros ? [= <-]. exists keys, stop. auto.
    + intros err Hout. destruct stop as [[k e]|].
      * destruct Hstop as [_ Hs]. rewrite Hs in Hout. injection Hout as Hout.
        eapply Hnever; eauto.
      * destruct Hstop as [_ Hs]. rewrite Hs in Hout. discriminate.
  - split_all; [|discriminate|].
    + intros ? [= <-]. unfold unlessNotFound, gcerrors_Code.
      destruct (decide _); reflexivity.
    + intros e. unfold gcerrors_Code. destruct (decide _); [discriminate|].
      intros [= <-]. assumption.
Qed.

(** A call of a dry run: no append to the history and no backup. *)
Definition unrecorded (e : Entry) : Prop := ~ isHistoryAppend e /\ ~ isBackup e.

(** A call of a preview: moreover the engine is only asked to preview an
    update. *)
Definition previewing (e : Entry) : Prop :=
  unrecorded e /\ forall eop dryRun, e.1 = cengine eop dryRun ->
                                     eop = engine_Update /\ dryRun = true.

Lemma quiet_unrecorded e : quiet e -> unrecorded e.
Proof. intros (_ & H1 & H2). split; assumption. Qed.

Lemma quiet_previewing e : quiet e -> previewing e.
Proof.
  intros (He & H1 & H2). split; [split; assumption|].
  intros eop dryRun Heq. exfalso. apply He. eexists _, _. exact Heq.
Qed.

Ltac not_recorded :=
  let H := fresh in
  intros H; unfold isHistoryAppend, isBackup in H;
  repeat match type of H with ex _ => destruct H as [? H] end; discriminate.

Ltac dry_entry :=
  first
    [ apply quiet_previewing; quiet_entry
    | apply quiet_unrecorded; quiet_entry
    | split; [split; not_recorded | intros ? ? [= <- <-]; auto]
    | split; not_recorded ].

Ltac dry_step :=
  first
    [ eapply emits_weaken; [apply quiet_previewing|]; solve [auto with emits]
    | eapply emits_weaken; [apply quiet_unrecorded|]; solve [auto with emits]
    | emits_step ].

(** X15.  A dry run of [apply], whatever the kind of update, never appends
    to the history and never backs up the checkpoint, whether or not the engine
    ran and whatever it reported.  [Preview] is such a dry run, in which the
    engine is moreover only asked to preview an update. *)
Theorem Preview_records_nothing {W : Type} (E : Env W) b kind stack op showLink
    events w :
  Forall unrecorded
    (calls (run (apply E b kind stack op {| DryRun := true; ShowLink := showLink |}
                   events) w).2)
  /\ Forall previewing (calls (run (Preview E b stack op) w).2).
Proof.
  split.
  - assert (emits unrecorded
              (apply E b kind stack op {| DryRun := true; ShowLink := showLink |}
                 events)) as Hm.
    { unfold apply, callE. simpl.
      repeat (dry_step; try dry_entry). }
    destruct (Hm {| world := w; calls := [] |}) as (tr & Htr & Hall).
    unfold run. rewrite Htr. exact Hall.
  - assert (emits previewing (Preview E b stack op)) as Hm.
    { unfold Preview, apply, callE. simpl.
      repeat (dry_step; try dry_entry). }
    destruct (Hm {| world := w; calls := [] |}) as (tr & Htr & Hall).
    unfold run. rewrite Htr. exact Hall.
Qed.

(** *** Exporting a deployment *)


End stacks_facts.

(** ** A manager from its persisted state *)

Module service_state_facts.
Import workspace secrets service service_state.

(** X16.  [NewServiceSecretsManagerFromState] asks for the account of the
    URL of the state, once, and only when the state unmarshals.  A state that
    does not unmarshal, an account that cannot be read and an account without a
    token each give an error and no manager.  Otherwise the manager has the
    state that was given, and its crypter talks to the URL of the state with
    the token of the account, for the stack that the state names. *)
Theorem NewServiceSecretsManagerFromState_needs_a_token {W : Type} (E : Env W) state w :
  let r := run (NewServiceSecretsManagerFromState E state) w in
  (forall err, json_Unmarshal E state = Err err ->
     r = (Returns (Err (errWrap "unmarshalling state" err)),
          {| world := w; calls := [] |}))
  /\ (forall s, json_Unmarshal E state = Ok s ->
        let account := GetAccount E (st_URL s) w in
        calls r.2 = [cGetAccount (st_URL s)]
        /\ world r.2 = account.2
        /\ (forall err, account.1 = Err err ->
              r.1 = Returns (Err (errWrap "getting access token" err)))
        /\ (forall a, account.1 = Ok a -> AccessToken a = "" ->
              r.1 = Returns (Err (errNew ("could not find access token for "
                                          ++ st_URL s ++ ", have you logged in?"))))
        /\ (forall a, account.1 = Ok a -> AccessToken a <> "" ->
              exists sm crypter,
                r.1 = Returns (Ok sm)
                /\ sm = serviceSecretsManager s crypter
                /\ Manager_State sm = Some s
                /\ Manager_Type sm = Some "service"
                /\ c_client crypter
                   = {| client_URL := st_URL s; apiToken := AccessToken a;
                        client_diag :=
                          diag_DefaultSink io_Discard io_Discard colors_Never |}
                /\ c_stack crypter
                   = {| id_Owner := st_Owner s; id_Project := st_Project s;
                        id_Stack := st_Stack s |})).
Proof.
  cbv zeta. unfold NewServiceSecretsManagerFromState. unfold_monad.
  destruct (json_Unmarshal E state) as [s|err]; simpl.
  - split; [discriminate|]. intros ? [= <-].
    destruct (GetAccount E (st_URL s) w) as [[a|err] w1]; simpl;
      [destruct (decide (AccessToken a = "")) as [Ht|Ht]; simpl|];
      split_all; try reflexivity; intros; simplify_eq; try reflexivity.
    eexists _, _. split_all; reflexivity.
  - split; [|discriminate]. intros ? [= <-]. reflexivity.
Qed.

(** X24.  A manager that [NewServiceSecretsManager] made is made again by
    [NewServiceSecretsManagerFromState] from its persisted state, but for the
    diagnostics sink of its client: when the state unmarshals to what [State]
    gives and the account of the client's URL holds the client's token, which
    is not empty, the manager returned has the same state, and its crypter is
    for the same stack with a client of the same URL and token that writes its
    diagnostics nowhere.  It is the manager that was made exactly when the
    client of that one wrote its diagnostics nowhere too. *)
Theorem manager_restored_from_its_state {W W' : Type} (E : service.Env W)
    (E' : service_state.Env W') client id stackName configFile w sm s state w' account
    w'' :
  (run (NewServiceSecretsManager E client id stackName configFile) w).1 = Returns (Ok sm) ->
  Manager_State sm = Some s ->
  json_Unmarshal E' state = Ok s ->
  GetAccount E' (client_URL client) w' = (Ok account, w'') ->
  AccessToken account = apiToken client ->
  apiToken client <> "" ->
  let discard := diag_DefaultSink io_Discard io_Discard colors_Never in
  let restored :=
    serviceSecretsManager s
      {| c_client := {| client_URL := client_URL client; apiToken := apiToken client;
                        client_diag := discard |};
         c_stack := id |} in
  sm = serviceSecretsManager s {| c_client := client; c_stack := id |}
  /\ run (NewServiceSecretsManagerFromState E' state) w'
     = (Returns (Ok restored),
        {| world := w''; calls := [cGetAccount (client_URL client)] |})
  /\ (restored = sm <-> client_diag client = discard).
Proof.
  intros Hnew Hs Hstate Haccount Htoken Hne. cbv zeta.
  assert (sm = serviceSecretsManager
                 {| st_URL := client_URL client; st_Owner := id_Owner id;
                    st_Project := id_Project id; st_Stack := id_Stack id |}
                 (newServiceCrypter client id)) as ->.
  { revert Hnew. unfold NewServiceSecretsManager. unfold_monad.
    destruct (decide (stackName = "")); [discriminate|]. simpl.
    destruct (DetectProjectStackPath E stackName w) as [[[project path]|err] w1]; simpl;
      [|discriminate].
    destruct (LoadProjectStack E project configFile w1) as [[info|err] w2]; simpl;
      [|discriminate].
    destruct (changeProjectStackSecretDetails info) as [[|] info']; simpl.
    - destruct (SaveProjectStack E stackName info' w2) as [[err|] w3]; simpl;
        intros [=]; congruence.
    - intros [=]. congruence. }
  simpl in Hs. injection Hs as <-.
  split; [reflexivity|]. split.
  - unfold NewServiceSecretsManagerFromState. unfold_monad.
    rewrite Hstate. simpl. rewrite Haccount. simpl.
    destruct (decide (AccessToken account = "")) as [He|_]; [congruence|].
    simpl. rewrite Htoken. destruct id. reflexivity.
  - unfold newServiceCrypter. destruct client as [u t d]. simpl. split.
    + intros [= ->]. reflexivity.
    + intros ->. reflexivity.
Qed.

End service_state_facts.

(** ** The operations with further collaborators *)

Module operations_facts.
Import workspace filestate filestate_facts filestate_stacks backend_facts.

Ltac unfold_base :=
  unfold getReference, currentProjectContradictsWorkspace;
  unfold base, callS, callE; unfold_monad.

(** X17.  [CreateStack] does not overwrite: a stack that loads is answered
    with a [StackAlreadyExistsError] that names it, and nothing is saved.  A
    stack is saved only without a snapshot, after the lock was taken and
    loading the stack then failed, with whatever error.  The stack returned is
    the one that was saved, at the path the save gave, and its creation is
    reported after the save.  Once the lock is held the last thing done is to
    release it. *)
Theorem CreateStack_does_not_overwrite {W : Type} (E : Env W) (S : StackEnv W) b
    stackRef root opts w :
  let r := run (CreateStack E S b stackRef root opts) w in
  (forall ref snapshot path,
      inl (cgetStack ref, aStack (Ok (snapshot, path))) ∈ calls r.2 ->
      r.1 = Returns (Err (StackAlreadyExistsError
                            (localBackendReference_FullyQualifiedName ref)))
      /\ forall ref' snap a, inl (csaveStack ref' snap, a) ∉ calls r.2)
  /\ (forall ref snap a, inl (csaveStack ref snap, a) ∈ calls r.2 ->
        stackRef = localRef ref /\ snap = None
        /\ exists err,
             precedes (inl (cLock stackRef, aError None))
               (inl (cgetStack ref, aStack (Err err))) (calls r.2)
             /\ precedes (inl (cgetStack ref, aStack (Err err)))
                  (inl (csaveStack ref snap, a)) (calls r.2))
  /\ (forall stack, r.1 = Returns (Ok stack) ->
        stackRef = localRef (ls_ref stack) /\ ls_snapshot stack = None /\ ls_b stack = b
        /\ precedes (inl (csaveStack (ls_ref stack) None, aString (Ok (ls_path stack))))
             (inr (cInfof "Created stack '%s'"
                     [localBackendReference_String b (ls_ref stack)])) (calls r.2))
  /\ (inl (cLock stackRef, aError None) ∈ calls r.2 ->
      last (calls r.2) = Some (inl (cUnlock stackRef, aUnit))).
Proof.
  cbv zeta. unfold CreateStack. unfold_base.
  repeat split_match.
  all: split_all.
  all: lazymatch goal with
       | |- forall ref snapshot path, inl (cgetStack ref, _) ∈ _ -> _ =>
           intros ? ? ? Hin; entry_cases Hin;
           (split; [reflexivity|]); intros ? ? ? Hin'; entry_cases Hin'
       | |- forall ref snap a, inl (csaveStack ref snap, a) ∈ _ -> _ =>
           intros ? ? ? Hin; entry_cases Hin;
           split_all; try reflexivity; eexists; split; precedes_here
       | |- forall stack, _ = Returns (Ok stack) -> _ =>
           intros ? Hret; first [discriminate | simplify_eq; simpl];
           split_all; try reflexivity; precedes_here
       | |- inl (cLock _, _) ∈ _ -> _ =>
           intros Hin; entry_cases Hin; reflexivity
       end.
Qed.

Section Composition.
Context {W : Type} (E : Env W) (S : StackEnv W).

Lemma base_run {A} (m : M W Entry A) (s : St W Event) :
  base m s
  = (let r := run m (world s) in
     (r.1, {| world := world r.2; calls := (calls s ++ map inl (calls r.2))%list |})).
Proof. reflexivity. Qed.

Lemma base_getReference b r (s : St W Event) :
  base (getReference E b (localRef r)) s
  = (let v := ValidateReference E r (world s) in
     (Returns match v.1 with Some e => Err e | None => Ok r end,
      {| world := v.2;
         calls := (calls s ++ [inl (cValidateReference r, aError v.1)])%list |})).
Proof.
  unfold base, getReference, callE. unfold_monad.
  destruct (ValidateReference E r (world s)) as [[e|] w1]; reflexivity.
Qed.

Lemma base_foreign b fqn (s : St W Event) :
  base (getReference E b (foreignRef fqn)) s
  = (Returns (Err (errNew "bad stack reference type")), s).
Proof. unfold base. simpl. rewrite app_nil_r. destruct s; reflexivity. Qed.

Lemma callS_run {A} (c : A -> StackCall) (f : W -> A * W) (s : St W Event) :
  callS c f s
  = (Returns (f (world s)).1,
     {| world := (f (world s)).2; calls := (calls s ++ [inr (c (f (world s)).1)])%list |}).
Proof. unfold callS, call, Event in *. destruct (f (world s)); reflexivity. Qed.

End Composition.

(** What [RenameStack] makes of the outcome of [renameStack]. *)
Definition renamedTo (newRef : localBackendReference) (out : outcome (option error))
  : outcome (result localBackendReference) :=
  match out with
  | Returns None => Returns (Ok newRef)
  | Returns (Some err) => Returns (Err err)
  | Panics msg => Panics msg
  end.

(** X18.  [RenameStack] checks the stack and then the new name before it
    touches anything: a reference of another backend, a reference that does not
    validate and a new name that does not parse each give the error with
    nothing locked and nothing written.  Otherwise it is [renameStack] from the
    stack's reference to the parsed one, and the parsed reference is returned
    exactly when that succeeds. *)
Theorem RenameStack_checks_the_new_name_first {W : Type} (E : Env W) (S : StackEnv W) b
    stack newName w :
  let r := run (RenameStack E S b stack newName) w in
  (forall fqn, Ref stack = foreignRef fqn ->
     r = (Returns (Err (errNew "bad stack reference type")),
          {| world := w; calls := [] |}))
  /\ (forall old, Ref stack = localRef old ->
        let valid := ValidateReference E old w in
        let validated := inl (cValidateReference old, aError valid.1) in
        (forall err, valid.1 = Some err ->
           r = (Returns (Err err), {| world := valid.2; calls := [validated] |}))
        /\ (valid.1 = None ->
            let parsed := ParseReference S b newName valid.2 in
            let checked := [validated; inr (cParseReference b newName parsed.1)] in
            (forall err, parsed.1 = Err err ->
               r = (Returns (Err err), {| world := parsed.2; calls := checked |}))
            /\ (forall newRef, parsed.1 = Ok newRef ->
                  let renamed := run (renameStack E b old newRef) parsed.2 in
                  r = (renamedTo newRef renamed.1,
                       {| world := world renamed.2;
                          calls := (checked ++ map inl (calls renamed.2))%list |})))).
Proof.
  cbv zeta. unfold RenameStack, parseStackReference, run. split.
  - intros fqn ->. rewrite run_bind, base_foreign. reflexivity.
  - intros old ->. rewrite run_bind, base_getReference. cbn [world calls fst snd].
    destruct (ValidateReference E old w) as [[e|] w1]; cbn [fst snd].
    + split; [|discriminate]. intros ? [= <-]. reflexivity.
    + split; [discriminate|]. intros _.
      rewrite run_bind, callS_run. cbn [world calls fst snd].
      destruct (ParseReference S b newName w1) as [[newRef|err] w2]; cbn [fst snd].
      * split; [discriminate|]. intros ? [= <-].
        rewrite run_bind, base_run. cbn [world calls fst snd]. unfold run.
        destruct (renameStack E b old newRef {| world := w2; calls := [] |})
          as [[[err|]|msg] s']; reflexivity.
      * split; [|discriminate]. intros ? [= <-]. reflexivity.
Qed.

(** X19.  [GetLatestConfiguration] asks for the first page of the history,
    of one update.  A stack without history gives the error
    [ErrNoPreviousDeployment]; otherwise the configuration of the first update
    of the page is returned; an error of the history is returned as it is.  A
    reference that does not validate is not looked up. *)
Theorem GetLatestConfiguration_reads_the_latest_update {W : Type} (E : Env W)
    (S : StackEnv W) b stack w :
  let r := run (GetLatestConfiguration E S b stack) w in
  (forall fqn, Ref stack = foreignRef fqn ->
     r = (Returns (Err (errNew "bad stack reference type")),
          {| world := w; calls := [] |}))
  /\ (forall ref, Ref stack = localRef ref ->
        let valid := ValidateReference E ref w in
        let validated := inl (cValidateReference ref, aError valid.1) in
        (forall err, valid.1 = Some err ->
           r = (Returns (Err err), {| world := valid.2; calls := [validated] |}))
        /\ (valid.1 = None ->
            let hist := getHistory S ref 1 1 valid.2 in
            calls r.2 = [validated; inr (cgetHistory ref 1 1 hist.1)]
            /\ world r.2 = hist.2
            /\ r.1 = Returns match hist.1 with
                             | Err err => Err err
                             | Ok [] => Err (ErrNoPreviousDeployment S)
                             | Ok (latest :: _) => Ok (ui_Config latest)
                             end)).
Proof.
  cbv zeta. unfold GetLatestConfiguration, GetHistory, run. split.
  - intros fqn ->. rewrite !run_bind, base_foreign. reflexivity.
  - intros ref ->. rewrite !run_bind, base_getReference. cbn [world calls fst snd].
    destruct (ValidateReference E ref w) as [[e|] w1]; cbn [fst snd].
    + split; [|discriminate]. intros ? [= <-]. reflexivity.
    + split; [discriminate|]. intros _.
      rewrite run_bind, callS_run. cbn [world calls fst snd].
      destruct (getHistory S ref 1 1 w1) as [[[|latest hist]|err] w2]; cbn [fst snd];
        split_all; reflexivity.
Qed.

(** X20.  [ImportDeployment] saves a checkpoint only after it took the lock
    of the stack, and only the one that the deployment marshals to for the
    stack's fully qualified name; what it returns is then the error of the
    save, if any.  When it returns no error the checkpoint was saved.  Once the
    lock is held the last thing done is to release it, also when the deployment
    does not marshal; a lock that is refused is returned with nothing done
    after. *)
Theorem ImportDeployment_saves_under_the_lock {W : Type} (E : Env W) (S : StackEnv W) b
    stk deployment w :
  let r := run (ImportDeployment E S b stk deployment) w in
  (forall ref chk saved, inr (csaveCheckpoint ref chk saved) ∈ calls r.2 ->
     Ref stk = localRef ref
     /\ MarshalUntypedDeploymentToVersionedCheckpoint S
          (localBackendReference_FullyQualifiedName ref) deployment = Ok chk
     /\ precedes (inl (cLock (localRef ref), aError None))
          (inr (csaveCheckpoint ref chk saved)) (calls r.2)
     /\ r.1 = Returns match saved with Ok _ => None | Err err => Some err end)
  /\ (r.1 = Returns None ->
      exists ref chk paths, inr (csaveCheckpoint ref chk (Ok paths)) ∈ calls r.2)
  /\ (forall ref, inl (cLock ref, aError None) ∈ calls r.2 ->
        last (calls r.2) = Some (inl (cUnlock ref, aUnit)))
  /\ (forall ref err, inl (cLock ref, aError (Some err)) ∈ calls r.2 ->
        r.1 = Returns (Some err)
        /\ last (calls r.2) = Some (inl (cLock ref, aError (Some err)))).
Proof.
  cbv zeta. unfold ImportDeployment. unfold_base.
  repeat split_match.
  all: split_all.
  all: lazymatch goal with
       | |- forall ref chk saved, inr (csaveCheckpoint ref chk saved) ∈ _ -> _ =>
           intros ? ? ? Hin; entry_cases Hin;
           split_all; try reflexivity; try assumption; precedes_here
       | |- _ = Returns None -> _ =>
           intros Hret; first [discriminate | eexists _, _, _; elem_here]
       | |- forall ref, inl (cLock ref, aError None) ∈ _ -> _ =>
           intros ? Hin; entry_cases Hin; reflexivity
       | |- forall ref err, inl (cLock ref, aError (Some err)) ∈ _ -> _ =>
           intros ? ? Hin; entry_cases Hin; auto
       end.
Qed.

(** X21.  [Login] stores an account only once [New] has made a backend, and
    stores it under the URL that was given, not the canonical one.  The backend
    is given back also when the account could not be stored, together with that
    error. *)
Theorem Login_stores_the_account_of_the_given_URL {W : Type} (E : Env W)
    (S : StackEnv W) url project w :
  let r := run (Login E S url project) w in
  let made := run (New E url project) w in
  (forall err, made.1 = Returns (Err err) ->
     r = (Returns (None, Some err),
          {| world := world made.2; calls := map inl (calls made.2) |}))
  /\ (forall be, made.1 = Returns (Ok be) ->
        let stored := StoreAccount S url (world made.2) in
        r = (Returns (Some be, stored.1),
             {| world := stored.2;
                calls := (map inl (calls made.2)
                          ++ [inr (cStoreAccount url stored.1)])%list |})).
Proof.
  cbv zeta. unfold Login, run. rewrite run_bind, base_run. cbn [world calls fst snd].
  pose proof (New_builds E url project w) as Hbuilt. unfold post, run in *.
  destruct (New E url project {| world := w; calls := [] |}) as [[[be|err]|msg] s'];
    cbn [fst snd] in *.
  - split; [discriminate|]. intros ? [= <-].
    destruct (Hbuilt be eq_refl) as [Hurl _].
    rewrite run_bind, callS_run. cbn [world calls fst snd]. rewrite Hurl. reflexivity.
  - split; [|discriminate]. intros ? [= <-]. reflexivity.
  - split; discriminate.
Qed.

(** What an operation does around [body] once it holds the lock of
    [stackRef]: [body] runs with the lock taken, and the lock is released when
    it is left, by return or by panic. *)
Definition underLock {W A} (E : Env W) (b : localBackend) (stackRef : StackReference)
    (w : W) (body : M W Event A) : outcome A * St W Event :=
  let lock := Lock E b stackRef w in
  let ran := body {| world := lock.2; calls := [inl (cLock stackRef, aError None)] |} in
  let unlock := Unlock E b stackRef (world ran.2) in
  (ran.1,
   {| world := unlock.2; calls := (calls ran.2 ++ [inl (cUnlock stackRef, aUnit)])%list |}).

Lemma base_callE {W A} `{Reply A} (c : Call) (f : W -> A * W) (s : St W Event) :
  base (callE c f) s
  = (Returns (f (world s)).1,
     {| world := (f (world s)).2;
        calls := (calls s ++ [inl (c, reply (f (world s)).1)])%list |}).
Proof.
  unfold base, callE, call. simpl. destruct (f (world s)); reflexivity.
Qed.

Lemma defer_unlock {W A} (E : Env W) b ref (body : M W Event A) (s : St W Event) :
  defer (base (callE (cUnlock ref) (Unlock E b ref))) body s
  = (let ran := body s in
     let unlock := Unlock E b ref (world ran.2) in
     (ran.1,
      {| world := unlock.2; calls := (calls ran.2 ++ [inl (cUnlock ref, aUnit)])%list |})).
Proof.
  unfold defer. destruct (body s) as [out st']. rewrite base_callE. simpl.
  destruct (Unlock E b ref (world st')) as [[] w2]. reflexivity.
Qed.

(** X22.  [Update], [Import], [Refresh] and [Destroy] first take the lock of
    the stack.  When it is refused they return that error as the result, with
    no changes, and run nothing, whatever [PreviewThenPromptThenExecute] is.
    Otherwise they run [PreviewThenPromptThenExecute] under the lock, with the
    kind of update that is theirs and with [apply] of this backend, [Import]
    having put the imports into the operation; and the lock is released after
    it, also when it panics. *)
Theorem mutating_operations_hold_the_lock {W : Type} (E : Env W) execute b stack op
    imports w :
  let lock := Lock E b (Ref stack) w in
  let imported := {| op_Proj := op_Proj op; op_Message := op_Message op;
                     op_Environment := op_Environment op; op_Display := op_Display op;
                     op_Imports := imports |} in
  (forall err, lock.1 = Some err ->
     let refused :=
       (Returns ([], Some (FromError err)),
        {| world := lock.2; calls := [inl (cLock (Ref stack), aError (Some err))] |}) in
     run (Update E execute b stack op) w = refused
     /\ run (Import E execute b stack op imports) w = refused
     /\ run (Refresh E execute b stack op) w = refused
     /\ run (Destroy E execute b stack op) w = refused)
  /\ (lock.1 = None ->
      run (Update E execute b stack op) w
      = underLock E b (Ref stack) w (execute UpdateUpdate stack op (b_apply E b))
      /\ run (Import E execute b stack op imports) w
         = underLock E b (Ref stack) w
             (execute ResourceImportUpdate stack imported (b_apply E b))
      /\ run (Refresh E execute b stack op) w
         = underLock E b (Ref stack) w (execute RefreshUpdate stack op (b_apply E b))
      /\ run (Destroy E execute b stack op) w
         = underLock E b (Ref stack) w (execute DestroyUpdate stack op (b_apply E b))).
Proof.
  cbv zeta. unfold Update, Import, Refresh, Destroy, underLock, run.
  rewrite !run_bind, !base_callE. cbn [world calls fst snd].
  destruct (Lock E b (Ref stack) w) as [[err|] w1]; cbn [fst snd].
  - split; [|discriminate]. intros ? [= <-]. auto.
  - split; [discriminate|]. intros _. split_all; apply defer_unlock.
Qed.

End operations_facts.

(** ** The properties at work on the instances *)

Module examples.
Import workspace secrets instances.

Definition prod : crypto.Stack := {| crypto.Ref_Name := "prod"; crypto.backendName := "file" |}.

(** A stack that records a cloud key and, from an earlier time, a salt. *)
Definition kmsConfig : ProjectStack :=
  {| SecretsProvider := "awskms://alias/pulumi"; EncryptedKey := "AQICAHg=";
     EncryptionSalt := "v1:old"; Config := [] |}.

(** A stack under a passphrase. *)
Definition passphraseConfig : ProjectStack :=
  {| SecretsProvider := ""; EncryptedKey := ""; EncryptionSalt := "v1:4fXbKk8=";
     Config := [("aws:region", "us-west-2")] |}.

Definition theClient : Client :=
  {| client_URL := "https://api.pulumi.com"; apiToken := "t";
     client_diag := diag_DefaultSink os_Stdout os_Stderr colors_Always |}.
Definition theStack : StackIdentifier :=
  {| id_Owner := "acme"; id_Project := "infra"; id_Stack := "dev" |}.

Definition passphraseWorld : ServiceWorld :=
  {| files := {[ stackConfigPath "dev" := passphraseConfig ]}; online := true |}.

Definition cleanWorld : ServiceWorld :=
  {| files := {[ stackConfigPath "dev" := service_facts.cleared passphraseConfig ]};
     online := true |}.

(** The cloud provider wins over the salt, and its manager is cached. *)
Lemma getStackSecretsManager_resolution_order_witness :
  run (crypto.getStackSecretsManager cryptoEnv prod) kmsConfig
  = (Returns (Ok (cachingSecretsManager
                    (externalManager "cloud" "awskms://alias/pulumi"))),
     {| world := kmsConfig;
        calls := [crypto.creadProject;
                  crypto.cloadProjectStack {| Name := "infra" |} prod;
                  crypto.cgetProjectStackPath prod;
                  crypto.cNewCloudSecretsManager "prod" "Pulumi.prod.yaml"
                    "awskms://alias/pulumi" false] |}).
Proof.
  apply (proj1 (crypto_facts.getStackSecretsManager_resolution_order cryptoEnv prod
                  kmsConfig {| Name := "infra" |} "Pulumi.yaml" kmsConfig kmsConfig
                  kmsConfig "Pulumi.prod.yaml" kmsConfig eq_refl eq_refl eq_refl)).
  repeat split; discriminate.
Defined.



(** A stack with nothing to clear: its file is not written. *)
Lemma config_rewritten_only_when_cleared_witness :
  run (service.NewServiceSecretsManager serviceEnv theClient theStack "dev" "Pulumi.dev.yaml")
      cleanWorld
  = (Returns (Ok (service_facts.theManager theClient theStack)),
     {| world := cleanWorld;
        calls := [service.cDetectProjectStackPath "dev";
                  service.cLoadProjectStack {| Name := "infra" |} "Pulumi.dev.yaml"] |}).
Proof.
  apply (service_facts.config_rewritten_only_when_cleared serviceEnv theClient theStack
           "dev" "Pulumi.dev.yaml" cleanWorld {| Name := "infra" |} "Pulumi.dev.yaml"
           cleanWorld (service_facts.cleared passphraseConfig) cleanWorld);
    first [discriminate | reflexivity].
Defined.

(** *** The backend on a bucket *)

Import filestate.

Definition devRef : localBackendReference :=
  {| name := "dev"; project := "infra"; store := projectReferenceStore |}.

Definition devStack : Stack := {| Ref := localRef devRef |}.

Definition devCheckpoint : CheckpointV3 :=
  {| chk_Stack := "organization/infra/dev";
     Latest := Some {| Resources :=
       [{| URN := "urn:pulumi:dev::infra::pulumi:pulumi:Stack::infra-dev" |}] |} |}.

(** An engine whose update fails. *)
Definition failed : EngineOutcome :=
  {| eng_plan := None; eng_changes := [("same", 1%Z)];
     eng_res := Some (FromError (errNew "update failed"));
     eng_events := ["resource-pre"; "diag"] |}.

Definition failingWorld : BucketWorld :=
  {| objects := {[ "infra/dev.json" := oCheckpoint devRef devCheckpoint ]};
     clock := 100; racing := []; engineOutcome := failed;
     workspaceProject := Some {| Name := "infra" |} |}.

Definition infraBackend : localBackend :=
  {| originalURL := "file://~"; url := "file:///home/operator"; lockID := "L1";
     gzip := false; currentProject := Some {| Name := "infra" |};
     b_store := projectReferenceStore |}.

Definition anUpdate : UpdateOperation :=
  {| op_Proj := {| Name := "infra" |}; op_Message := "deploy"; op_Environment := [];
     op_Display := {| JSONDisplay := false; Type_ := DisplayProgress;
                      SuppressPermalink := false |};
     op_Imports := [] |}.

Definition forReal : ApplierOptions := {| DryRun := false; ShowLink := true |}.

Definition failedRecord : UpdateInfo :=
  {| ui_Kind := UpdateUpdate; ui_StartTime := 100; ui_Message := "deploy";
     ui_Environment := []; ui_Config := []; ui_Result := FailedResult;
     ui_EndTime := 101; ui_ResourceChanges := [("same", 1%Z)] |}.

(** Evaluate the record of calls of a run. *)
Ltac eval_calls :=
  match goal with
  | |- context [calls ?s] =>
      let c := fresh "c" in
      set (c := calls s); vm_compute in c; subst c
  end.

(** C1 as stated fails.  An update that is not a dry run and whose engine
    fails is still appended to the history, as a failed one, and the checkpoint
    is still backed up: neither waits for the engine to report success.  And an
    update that is not a dry run on a reference of another backend returns
    before anything is appended or backed up. *)
Lemma apply_records_a_failed_update :
  let r := run (apply bucketEnv infraBackend UpdateUpdate devStack anUpdate forReal true)
               failingWorld in
  let r' := run (apply bucketEnv infraBackend UpdateUpdate
                   {| Ref := foreignRef "acme/infra/dev" |} anUpdate forReal true)
                failingWorld in
  r.1 = Returns (None, [("same", 1%Z)], Some (FromError (errNew "update failed")))
  /\ (cengine engine_Update false, aEngine failed) ∈ calls r.2
  /\ (caddToHistory devRef failedRecord, aError None) ∈ calls r.2
  /\ (cbackupStack devRef, aError None) ∈ calls r.2
  /\ objects (world r.2) !! "history/organization/infra/dev/dev-102.history.json"
     = Some (oHistory failedRecord)
  /\ DryRun forReal = false
  /\ r'.1 = Returns (None, [], Some (FromError (errNew "bad stack reference type")))
  /\ calls r'.2 = [].
Proof.
  cbv zeta. split_all; try (vm_compute; reflexivity); eval_calls; elem_here.
Qed.

(** The amended C1 on the same run: the failed update is appended to the
    history of [dev] and its checkpoint backed up, after the engine, and the
    engine's failure is returned. *)
Lemma apply_records_once_the_engine_has_run_witness :
  let r := run (apply bucketEnv infraBackend UpdateUpdate devStack anUpdate forReal true)
               failingWorld in
  exists rest,
    Forall filestate_facts.quiet rest
    /\ calls r.2
       = ([(cValidateReference devRef, aError None);
           (cDetectProjectPath, aString (Ok "Pulumi.yaml"));
           (cLoadProject "Pulumi.yaml", aProject (Ok {| Name := "infra" |}));
           (cPrintf ("<{%bold}>%s (%s):<{%reset}>" ++ LF) ["Updating"; "dev"], aUnit);
           (cnewUpdate devRef,
            aUpdate (Ok {| target_Snapshot := Latest devCheckpoint; target_Config := [] |}));
           (cNow, aTime 100);
           (cengine engine_Update false, aEngine failed);
           (cdisplayEvent "resource-pre", aUnit); (ccallerEvent "resource-pre", aUnit);
           (cdisplayEvent "diag", aUnit); (ccallerEvent "diag", aUnit);
           (cNow, aTime 101);
           (caddToHistory devRef failedRecord, aError None);
           (cbackupStack devRef, aError None)] ++ rest)%list
    /\ r.1 = Returns (None, [("same", 1%Z)], Some (FromError (errNew "update failed"))).
Proof.
  cbv zeta.
  destruct (filestate_facts.apply_records_once_the_engine_has_run bucketEnv
              infraBackend UpdateUpdate devStack anUpdate forReal true failingWorld)
    as [_ H].
  destruct (H devRef eq_refl) as [_ H1]. clear H.
  destruct (H1 eq_refl) as (_ & _ & _ & H2). clear H1.
  destruct (H2 eq_refl) as (_ & _ & H3). clear H2.
  destruct (H3 _ eq_refl) as [_ H4]. clear H3.
  destruct (H4 engine_Update false eq_refl) as (rest & Hq & _ & H5). clear H4.
  destruct (H5 eq_refl) as [Hcalls Hout].
  exists rest. split; [exact Hq|]. split; [exact Hcalls | exact Hout].
Defined.

(** C5 on a stack with a resource: the removal is refused and the checkpoint
    object is the one that was there. *)
Lemma RemoveStack_refuses_while_resources_remain_witness :
  let r := run (RemoveStack bucketEnv infraBackend devStack false) failingWorld in
  r.1 = Returns (true, Some (errNew
          "refusing to remove stack because it still contains resources"))
  /\ objects (world r.2) !! "infra/dev.json" = Some (oCheckpoint devRef devCheckpoint)
  /\ objects (world r.2) !! "infra/dev.json" = objects failingWorld !! "infra/dev.json".
Proof.
  cbv zeta.
  epose proof (filestate_facts.RemoveStack_refuses_while_resources_remain bucketEnv
                 infraBackend devStack devRef failingWorld _ _ _ _ _
                 eq_refl eq_refl eq_refl eq_refl) as [Hrefused _].
  destruct Hrefused as [Hrun Hframe].
  { eexists. split; [reflexivity|discriminate]. }
  split_all.
  - rewrite Hrun. reflexivity.
  - rewrite Hrun. vm_compute. reflexivity.
  - apply (Hframe _ (fun w => objects w !! "infra/dev.json")); vm_compute; reflexivity.
Defined.

(** The stack [dev] with two lock markers, of which another process deletes
    [gone] right after the directory is listed. *)
Definition lockedWorld (gone : list string) : BucketWorld :=
  {| objects := {[ "infra/dev.json" := oCheckpoint devRef devCheckpoint;
                   "locks/organization/infra/dev/L1.json" := oLock "L1";
                   "locks/organization/infra/dev/L2.json" := oLock "L2" ]};
     clock := 100; racing := gone; engineOutcome := failed;
     workspaceProject := Some {| Name := "infra" |} |}.

(** Left alone, [CancelCurrentUpdate] deletes both markers. *)
Lemma CancelCurrentUpdate_deletes_both_markers :
  let r := run (CancelCurrentUpdate bucketEnv infraBackend (localRef devRef))
               (lockedWorld []) in
  r.1 = Returns None
  /\ objects (world r.2) !! "locks/organization/infra/dev/L1.json" = None
  /\ objects (world r.2) !! "locks/organization/infra/dev/L2.json" = None.
Proof. cbv zeta. split_all; vm_compute; reflexivity. Qed.

(** C6 fails on the code.  When the first marker listed is deleted by another
    process between the listing and its deletion, [CancelCurrentUpdate] returns
    no error at once: the second marker is never deleted, and stays. *)
Lemma CancelCurrentUpdate_stops_at_a_vanished_marker :
  let r := run (CancelCurrentUpdate bucketEnv infraBackend (localRef devRef))
               (lockedWorld ["locks/organization/infra/dev/L1.json"]) in
  r.1 = Returns None
  /\ calls r.2
     = [(clistBucket "locks/organization/infra/dev",
         aObjects (Ok [{| Key := "locks/organization/infra/dev/L1.json";
                          IsDir := false |};
                       {| Key := "locks/organization/infra/dev/L2.json";
                          IsDir := false |}]));
        (cDelete "locks/organization/infra/dev/L1.json",
         aError (Some (errCode NotFound
                         "no such object: locks/organization/infra/dev/L1.json")))]
  /\ objects (world r.2) !! "locks/organization/infra/dev/L2.json" = Some (oLock "L2").
Proof. cbv zeta. split_all; vm_compute; reflexivity. Qed.

(** Cancelling twice a stack that has no lock is no error, either time. *)
Lemma CancelCurrentUpdate_twice_without_a_lock :
  let r := run (CancelCurrentUpdate bucketEnv infraBackend (localRef devRef))
               failingWorld in
  let r' := run (CancelCurrentUpdate bucketEnv infraBackend (localRef devRef))
                (world r.2) in
  r.1 = Returns None /\ r'.1 = Returns None /\ world r'.2 = failingWorld.
Proof. cbv zeta. split_all; vm_compute; reflexivity. Qed.

(** *** Upgrading a bucket *)

(** The stacks that the legacy store lists in a bucket. *)
Definition legacyStacks (w : BucketWorld) : list localBackendReference :=
  listed legacyReferenceStore (objects w).

Lemma elem_of_listed s m r :
  r ∈ listed s m
  <-> exists chk, m !! modelStackPath r = Some (oCheckpoint r chk) /\ store r = s.
Proof.
  unfold listed. rewrite list_elem_of_omap. split.
  - intros ([k o] & Hin & Hat). apply elem_of_map_to_list in Hin.
    unfold listedAt in Hat. simpl in Hat.
    destruct o as [|ref chk| | |]; try discriminate.
    destruct (decide _) as [[Hs Hk]|]; [|discriminate].
    injection Hat as ->. subst k. eauto.
  - intros (chk & Hm & Hs). exists (modelStackPath r, oCheckpoint r chk). split.
    + apply elem_of_map_to_list. exact Hm.
    + unfold listedAt. simpl. rewrite decide_True; auto.
Qed.

Lemma listed_insert s m k o :
  (forall r chk, o = oCheckpoint r chk -> store r <> s) ->
  listed s (<[k := o]> m) ⊆ listed s m.
Proof.
  intros Ho r Hin. apply elem_of_listed in Hin. destruct Hin as (chk & Hm & Hs).
  apply elem_of_listed. exists chk. split; [|exact Hs].
  apply lookup_insert_Some in Hm. destruct Hm as [[_ ->]|[_ Hm]]; [|exact Hm].
  exfalso. eapply Ho; eauto.
Qed.

Lemma listed_delete s m k : listed s (delete k m) ⊆ listed s m.
Proof.
  intros r Hin. apply elem_of_listed in Hin. destruct Hin as (chk & Hm & Hs).
  apply elem_of_listed. exists chk. split; [|exact Hs].
  apply lookup_delete_Some in Hm. tauto.
Qed.

Lemma modelBackupTarget_keeps file keepOriginal w :
  legacyStacks (modelBackupTarget file keepOriginal w).2 ⊆ legacyStacks w.
Proof.
  unfold modelBackupTarget, legacyStacks.
  destruct (objects w !! file) as [o|]; simpl; [|reflexivity].
  destruct keepOriginal; simpl.
  - apply listed_insert. discriminate.
  - etrans; [apply listed_delete|]. apply listed_insert. discriminate.
Qed.

Lemma modelRenameHistory_keeps old new w :
  legacyStacks (modelRenameHistory old new w).2 ⊆ legacyStacks w.
Proof.
  unfold modelRenameHistory, legacyStacks. simpl.
  assert (Forall (fun e : string * Object => isHistory e.2 = true)
            (filter (fun '(_, o) => isHistory o)
                    (under (modelHistoryDir old) (objects w)))) as Hall.
  { apply Forall_forall. intros [k o] Hin. apply list_elem_of_filter in Hin.
    destruct Hin as [Hh _]. simpl. destruct (isHistory o); [reflexivity|contradiction]. }
  induction Hall as [|[k o] moved Ho _ IH]; simpl; [reflexivity|].
  etrans; [|exact IH]. etrans; [|apply listed_delete].
  apply listed_insert. intros r chk ->. discriminate.
Qed.

Lemma bucketEnv_legacyListing : filestate_facts.legacyListing bucketEnv legacyStacks.
Proof.
  split; unfold filestate_facts.keeps; simpl.
  - intros w refs w' [= <- <-]. reflexivity.
  - reflexivity.
  - intros r w. unfold modelGetCheckpoint.
    destruct (objects w !! modelStackPath r) as [[]|]; reflexivity.
  - intros b r w. unfold modelLock. destruct (under _ _); simpl; [|reflexivity].
    apply listed_insert. discriminate.
  - intros b r w. apply listed_delete.
  - intros r w. unfold modelGetStack, modelGetCheckpoint.
    destruct (objects w !! modelStackPath r) as [[]|]; reflexivity.
  - reflexivity.
  - intros r snap Hstore w. unfold modelSaveStack. simpl.
    etrans; [|apply modelBackupTarget_keeps].
    apply listed_insert. intros r' chk [= <- _]. rewrite Hstore. discriminate.
  - apply modelBackupTarget_keeps.
  - intros old w Hin. apply elem_of_listed in Hin. destruct Hin as (chk & Hm & _).
    unfold modelBackupTarget in Hm.
    destruct (objects w !! modelStackPath old) as [o|] eqn:Hfile; simpl in Hm.
    + rewrite lookup_delete_eq in Hm. discriminate.
    + rewrite Hfile in Hm. discriminate.
  - apply modelRenameHistory_keeps.
  - intros key data w. apply listed_insert. discriminate.
Qed.

Definition webRef : localBackendReference :=
  {| name := "web"; project := ""; store := legacyReferenceStore |}.

Definition scratchRef : localBackendReference :=
  {| name := "scratch"; project := ""; store := legacyReferenceStore |}.

Definition webCheckpoint : CheckpointV3 :=
  {| chk_Stack := "web";
     Latest := Some {| Resources :=
       [{| URN := "urn:pulumi:web::shop::pulumi:pulumi:Stack::shop-web" |}] |} |}.

Definition scratchCheckpoint : CheckpointV3 :=
  {| chk_Stack := "scratch"; Latest := Some {| Resources := [] |} |}.

(** A legacy bucket with the stack [web] of the project "shop" and the stack
    [scratch], which has no resources. *)
Definition legacyWorld : BucketWorld :=
  {| objects := {[ "stacks/web.json" := oCheckpoint webRef webCheckpoint;
                   "stacks/scratch.json" := oCheckpoint scratchRef scratchCheckpoint ]};
     clock := 100; racing := []; engineOutcome := failed;
     workspaceProject := None |}.

(** The same without [scratch]. *)
Definition webWorld : BucketWorld :=
  {| objects := {[ "stacks/web.json" := oCheckpoint webRef webCheckpoint ]};
     clock := 100; racing := []; engineOutcome := failed;
     workspaceProject := None |}.

Definition legacyBackend : localBackend :=
  {| originalURL := "file://~"; url := "file:///home/operator"; lockID := "L1";
     gzip := false; currentProject := None; b_store := legacyReferenceStore |}.

Definition movedWeb : localBackendReference :=
  {| name := "web"; project := "shop"; store := projectReferenceStore |}.


(** On that bucket [Upgrade] moves [web] under "shop", stops at [scratch],
    and leaves no manifest: the layout still reads as version 0.  Run again, it
    lists [scratch] alone and does not touch [web]. *)
Lemma Upgrade_stops_at_a_stack_without_resources :
  let r := run (Upgrade bucketEnv legacyBackend) legacyWorld in
  let r' := run (Upgrade bucketEnv legacyBackend) (world r.2) in
  r.1 = Returns (Some (errNew "no project found for stack scratch"), legacyBackend)
  /\ objects (world r.2) !! "shop/web.json"
     = Some (oCheckpoint movedWeb
               {| chk_Stack := "organization/shop/web"; Latest := Latest webCheckpoint |})
  /\ objects (world r.2) !! "stacks/web.json" = None
  /\ objects (world r.2) !! "stacks/web.json.100.bak"
     = Some (oBackup 100 (oCheckpoint webRef webCheckpoint))
  /\ objects (world r.2) !! "Pulumi.yaml" = None
  /\ (modelEnsurePulumiMeta (world r.2)).1 = Ok {| Version := 0 |}
  /\ legacyStacks (world r.2) = [scratchRef]
  /\ r'.1 = r.1
  /\ calls r'.2
     = [(cListReferences legacyReferenceStore, aRefs (Ok [scratchRef]));
        (cgetCheckpoint scratchRef, aCheckpoint (Ok scratchCheckpoint))].
Proof. cbv zeta. split_all; vm_compute; reflexivity. Qed.

(** With [web] alone [Upgrade] moves it, then writes the manifest, and gives
    back the backend on the project store. *)
Lemma Upgrade_writes_the_manifest_last :
  let r := run (Upgrade bucketEnv legacyBackend) webWorld in
  r.1 = Returns (None, set_store legacyBackend projectReferenceStore)
  /\ last (calls r.2) = Some (cWriteAll "Pulumi.yaml" ("version: 1" ++ LF), aError None)
  /\ (modelEnsurePulumiMeta (world r.2)).1 = Ok {| Version := 1 |}
  /\ legacyStacks (world r.2) = []
  /\ listed projectReferenceStore (objects (world r.2)) = [movedWeb].
Proof. cbv zeta. split_all; vm_compute; reflexivity. Qed.


End examples.

(** ** Further examples *)

Module more_examples.
Import workspace secrets instances filestate examples.

(** X1 on a key of AWS KMS and on a kind that is not supported. *)
Lemma validateSecretsProvider_reads_the_kind_witness :
  crypto_validate.validateSecretsProvider "awskms://alias/pulumi" = None
  /\ crypto_validate.validateSecretsProvider "vault:transit"
     = Some (errNew ("unknown secrets provider type 'vault' (supported values: "
                     ++ "default,passphrase,awskms,azurekeyvault,gcpkms,hashivault)")).
Proof.
  split.
  - apply (crypto_validate_facts.validateSecretsProvider_reads_the_kind
             "awskms" "//alias/pulumi" eq_refl).
    unfold crypto_validate.supportedKinds. elem_here.
  - apply (crypto_validate_facts.validateSecretsProvider_reads_the_kind
             "vault" "transit" eq_refl).
    unfold crypto_validate.supportedKinds. intros Hin. elem_inv Hin; discriminate.
Defined.

Definition theCrypter : serviceCrypter := service.newServiceCrypter theClient theStack.

(** X3 on the stand-in for the service. *)
Lemma DecryptValue_inverts_EncryptValue_witness :
  let encrypted := run (service.EncryptValue serviceEnv theCrypter "s3cret") cleanWorld in
  encrypted.1 = Returns ("dGVyYzNz", None)
  /\ (run (service.DecryptValue serviceEnv theCrypter "dGVyYzNz") cleanWorld).1
     = Returns ("s3cret", None).
Proof.
  cbv zeta.
  destruct (service_more_facts.DecryptValue_inverts_EncryptValue serviceEnv theCrypter
              "s3cret" cleanWorld cleanWorld cleanWorld
              (rev (bytes_of_string "s3cret")) eq_refl eq_refl eq_refl)
    as (Henc & _ & Hdec).
  split; [exact Henc | exact Hdec].
Defined.

(** X4 on the references of the stack [dev] of the project "infra" under
    the two layouts. *)
Lemma FullyQualifiedName_tells_references_apart_witness :
  name devRef = "dev" /\ project devRef = "infra".
Proof.
  apply (reference_facts.FullyQualifiedName_tells_references_apart devRef
           {| name := "dev"; project := "infra"; store := legacyReferenceStore |});
    reflexivity.
Defined.

(** A bucket of the project layout in which the legacy stack [web] was
    left. *)
Definition projectWorld : BucketWorld :=
  {| objects := {[ "Pulumi.yaml" := oBytes ("version: 1" ++ LF);
                   "stacks/web.json" := oCheckpoint webRef webCheckpoint ]};
     clock := 100; racing := []; engineOutcome := failed;
     workspaceProject := None |}.


Definition otherStack : Stack :=
  {| Ref := localRef {| name := "dev"; project := "other";
                        store := projectReferenceStore |} |}.

(** X8 on a stack of the project "other" in the workspace of "infra". *)
Lemma apply_refuses_the_stack_of_another_project_witness :
  let r := run (apply bucketEnv infraBackend UpdateUpdate otherStack anUpdate forReal
                  true) failingWorld in
  r.1 = Returns (None, [],
                 Some (FromError (errNew
                   ("provided project name " ++ strconv_Quote bucketEnv "other"
                    ++ " doesn't match Pulumi.yaml"))))
  /\ map fst (calls r.2)
     = [cValidateReference {| name := "dev"; project := "other";
                              store := projectReferenceStore |};
        cDetectProjectPath; cLoadProject "Pulumi.yaml"].
Proof.
  cbv zeta.
  destruct (backend_facts.apply_refuses_the_stack_of_another_project bucketEnv
              infraBackend UpdateUpdate otherStack anUpdate forReal true
              {| name := "dev"; project := "other"; store := projectReferenceStore |}
              failingWorld failingWorld eq_refl eq_refl) as [_ Hrun].
  rewrite (Hrun eq_refl). split; reflexivity.
Defined.

(** A stand-in for the credentials of the workspace and for the decoding
    of a state: one account, and one state that decodes. *)
Definition accountsEnv : service_state.Env unit := {|
  service_state.json_Unmarshal := fun state =>
    if decide (state = "{url:https://api.pulumi.com,owner:acme,project:infra,stack:dev}")
    then Ok {| st_URL := "https://api.pulumi.com"; st_Owner := "acme";
               st_Project := "infra"; st_Stack := "dev" |}
    else Err (errNew "invalid character");
  service_state.GetAccount := fun key w =>
    (if decide (key = "https://api.pulumi.com")
     then Ok {| service_state.AccessToken := "t" |}
     else Err (errNew "no account"), w);
|}.

(** X24 on the manager of the stack [dev], whose client writes to the
    console: the manager restored is another one. *)
Lemma manager_restored_from_its_state_witness :
  run (service_state.NewServiceSecretsManagerFromState accountsEnv
         "{url:https://api.pulumi.com,owner:acme,project:infra,stack:dev}") tt
  = (Returns (Ok (service_facts.theManager
                    {| client_URL := "https://api.pulumi.com"; apiToken := "t";
                       client_diag := diag_DefaultSink io_Discard io_Discard colors_Never |}
                    theStack)),
     {| world := tt; calls := [service_state.cGetAccount "https://api.pulumi.com"] |})
  /\ service_facts.theManager
       {| client_URL := "https://api.pulumi.com"; apiToken := "t";
          client_diag := diag_DefaultSink io_Discard io_Discard colors_Never |} theStack
     <> service_facts.theManager theClient theStack.
Proof.
  destruct (service_state_facts.manager_restored_from_its_state serviceEnv accountsEnv
              theClient theStack "dev" "Pulumi.dev.yaml" cleanWorld
              (service_facts.theManager theClient theStack)
              {| st_URL := "https://api.pulumi.com"; st_Owner := "acme";
                 st_Project := "infra"; st_Stack := "dev" |}
              "{url:https://api.pulumi.com,owner:acme,project:infra,stack:dev}" tt
              {| service_state.AccessToken := "t" |} tt
              eq_refl eq_refl eq_refl eq_refl eq_refl ltac:(discriminate))
    as (_ & Hrun & Hsame).
  split; [exact Hrun|]. intros Heq. apply Hsame in Heq. discriminate.
Defined.

End more_examples.
